(** * Pack data challenge: session pairing, data-quality gate, Wilson interval,
    configuration validation, step timer and ingestion.

    A shallow embedding of the pipeline's Python (and of the SQL it issues)
    with the properties stated in the specification.

    Layout: Part I embeds the program, one module per source file;
    Part II states and proves the properties. *)

From Stdlib Require Import ZArith Ascii String PrimFloat Uint63.
From stdpp Require Import base decidable option list strings gmap sorting.

Local Open Scope Z_scope.

(** Code that may raise returns a sum: [inl e] is the raised exception,
    [inr v] the returned value. *)

(* ===================================================================== *)
(** * Part I. The program *)
(* ===================================================================== *)

(** ** config.py *)
Module Config.

(** The dataclass [PipelineConfig]. *)
Record PipelineConfig := {
  default_session_duration_minutes : Z;
  tiers_group_a : list string;
  tiers_group_b : list string;
  rebooking_window_days : option Z;
  dq_max_orphan_rate : float;
  dq_max_duration_minutes : Z;
  environment : string;
  db_path : string;
  known_tiers : list string;
  step_timeout_seconds : Z
}.

(** [PipelineConfig()]: the field defaults. *)
Definition default_config : PipelineConfig := {|
  default_session_duration_minutes := 30;
  tiers_group_a := ["Gold"%string];
  tiers_group_b := ["Silver"%string; "Bronze"%string];
  rebooking_window_days := Some 30;
  dq_max_orphan_rate := 0x1.999999999999ap-5%float;  (* 0.05 *)
  dq_max_duration_minutes := 240;
  environment := "dev";
  db_path := "warehouse.duckdb";
  known_tiers := ["Gold"%string; "Silver"%string; "Bronze"%string];
  step_timeout_seconds := 300
|}.

(** The [ValueError]s of [validate], one constructor per message. *)
Inductive ValueError :=
  | GroupAEmpty
  | GroupBEmpty
  | OverlappingTiers (overlap : gset string)
  | NonPositiveDuration
  | NonPositiveWindow.

(** [PipelineConfig.validate]: the checks in source order; the first one
    that fires raises. [set(a) & set(b)] is a set intersection. *)
Definition validate (self : PipelineConfig) : ValueError + unit :=
  if bool_decide (tiers_group_a self = []) then inl GroupAEmpty
  else if bool_decide (tiers_group_b self = []) then inl GroupBEmpty
  else
    let overlap : gset string :=
      list_to_set (tiers_group_a self) ∩ list_to_set (tiers_group_b self) in
    if bool_decide (overlap ≠ ∅) then inl (OverlappingTiers overlap)
    else if default_session_duration_minutes self <=? 0 then inl NonPositiveDuration
    else
      match rebooking_window_days self with
      | Some w => if w <=? 0 then inl NonPositiveWindow else inr ()
      | None => inr ()
      end.

End Config.

(** ** run_pipeline.py: the entry point [main] *)
Module Pipeline.
Import Config.

(** The four phases of a run. *)
Inductive phase := Ingest | Transform | Validate | Analyse.

(** What a call of [main] ends in. *)
Inductive outcome :=
  | ConfigError (e : ValueError)      (* raised by [config.validate()] *)
  | KeyError                          (* [step_label[mode]] on an unknown mode *)
  | PhaseError (p : phase)            (* a phase raised *)
  | Returned.

(** The phases [main] runs for a mode, in the order of its [if mode in ...]
    blocks; [None] for a mode outside the [step_label] table. *)
Definition phases_of_mode (mode : string) : option (list phase) :=
  if String.eqb mode "full" then Some [Ingest; Transform; Validate; Analyse]
  else if String.eqb mode "ingest-only" then Some [Ingest]
  else if String.eqb mode "transform-only" then Some [Transform; Validate]
  else if String.eqb mode "analysis-only" then Some [Analyse]
  else None.

(** Run phases in order; [succeeds p] tells whether phase [p] completes
    (the phases themselves are external: dbt, the warehouse). The trace
    lists the phases that were started. *)
Fixpoint run_phases (succeeds : phase → bool) (ps : list phase)
  : list phase * outcome :=
  match ps with
  | [] => ([], Returned)
  | p :: rest =>
      if succeeds p then
        let '(tr, o) := run_phases succeeds rest in (p :: tr, o)
      else ([p], PhaseError p)
  end.

(** [main(config, mode)], with [config] the given configuration or the
    one [from_yaml] loaded: [config.validate()] is the statement right after
    the configuration is obtained, outside the [try]; everything else
    follows it. *)
Definition main (config : PipelineConfig) (mode : string)
    (succeeds : phase → bool) : list phase * outcome :=
  match validate config with
  | inl e => ([], ConfigError e)
  | inr _ =>
      match phases_of_mode mode with
      | None => ([], KeyError)
      | Some ps => run_phases succeeds ps
      end
  end.

End Pipeline.

(** ** src/validate.py: the data-quality checks *)
Module Validate.
Import Config.

(** *** What [run_checks] sees of the connection

    [con.execute(q)] either raises [duckdb.Error] or returns a result,
    which may be [None]; [fetchone()] / [fetchall()] on a result either
    raises [duckdb.Error] or yields a value. *)
Inductive cursor (A : Type) :=
  | FetchRaises
  | Fetches (a : A).
Arguments FetchRaises {A}.
Arguments Fetches {A} a.

Inductive executed (A : Type) :=
  | ExecuteRaises
  | ExecuteReturns (result : option (cursor A)).
Arguments ExecuteRaises {A}.
Arguments ExecuteReturns {A} result.

(** The answers of a connection to the six queries of [run_checks]. A row
    is [None] when [fetchone()] has no row; a column is [None] for SQL NULL.
    The outlier query is indexed by the threshold interpolated into its
    text, the table probe by its bound parameter, and the first tier query
    by the escaped names interpolated into its [IN] list. *)
Record connection := {
  q_negative_durations : executed (option (option Z));
  q_duration_outliers : Z → executed (option (option Z));
  q_table_count : string → executed (option (option Z));
  q_orphan_rate : executed (option (option Z * option Z));
  q_existing_tiers : list string → executed (option (list (option string)));
  q_available_tiers : executed (option (list (option string)))
}.

(** [DataQualityError], one constructor per [raise] site or handler. *)
Inductive DataQualityError :=
  | ReturnedNone (query_name : string)    (* "[q] DuckDB returned None" *)
  | FetchFailed (query_name : string)     (* "[q] DuckDB error: ..." *)
  | EmptyResult (check : string)          (* "Check n: empty result ..." *)
  | NullValue (check : string)            (* "Check n: ... None" / NULL values *)
  | DatabaseError                         (* "Database error: ..." *)
  | UnexpectedError.                      (* "Unexpected error: ..." *)

(** The entries of the two returned lists. Each constructor stands for one
    f-string of the source and carries the values interpolated into it. *)
Inductive message :=
  | FailCheck1 (neg_count : Z)
  | WarnCheck4 (outlier_count max_duration_mins : Z)
  | WarnCheck5 (orphan_count total_bookings : Z) (orphan_rate threshold : float)
  | FailCheck6 (missing_tiers : list string) (available : list (option string)).

Definition MAX_DURATION_MINS : Z := 240.

(** The literal [0.05] of the source, as the binary64 value it denotes. *)
Definition DEFAULT_ORPHAN_THRESHOLD : float := 0x1.999999999999ap-5%float.

#[global] Instance sum_ret {E} : MRet (sum E) := λ A a, inr a.
#[global] Instance sum_bind {E} : MBind (sum E) := λ A B f m,
  match m with inl e => inl e | inr a => f a end.

(** [con.execute(...)] inside the [try] of [run_checks]: a [duckdb.Error]
    reaches the handler [except duckdb.Error] and becomes "Database error". *)
Definition execute {A} (q : executed A) : DataQualityError + option (cursor A) :=
  match q with
  | ExecuteRaises => inl DatabaseError
  | ExecuteReturns result => inr result
  end.

Definition safe_fetchone {A} (result : option (cursor (option A)))
    (query_name : string) : DataQualityError + option A :=
  match result with
  | None => inl (ReturnedNone query_name)
  | Some FetchRaises => inl (FetchFailed query_name)
  | Some (Fetches row) => inr row
  end.

Definition safe_fetchall {A} (result : option (cursor (option (list A))))
    (query_name : string) : DataQualityError + list A :=
  match result with
  | None => inl (ReturnedNone query_name)
  | Some FetchRaises => inl (FetchFailed query_name)
  | Some (Fetches (Some rows)) => inr rows
  | Some (Fetches None) => inr []
  end.

(** [if v is None: raise DataQualityError(...)]. *)
Definition not_none {A} (v : option A) (e : DataQualityError)
  : DataQualityError + A :=
  match v with
  | None => inl e
  | Some a => inr a
  end.

(** [_table_exists(con, name)], called inside the [try] of [run_checks]:
    [con.execute(...).fetchone()] without a guard, so a [None] result is an
    [AttributeError] ("Unexpected error") and a [duckdb.Error] a "Database
    error"; then [bool(row and row[0])]. *)
Definition _table_exists (con : connection) (name : string)
  : DataQualityError + bool :=
  match q_table_count con name with
  | ExecuteRaises => inl DatabaseError
  | ExecuteReturns None => inl UnexpectedError
  | ExecuteReturns (Some FetchRaises) => inl DatabaseError
  | ExecuteReturns (Some (Fetches None)) => inr false
  | ExecuteReturns (Some (Fetches (Some None))) => inr false
  | ExecuteReturns (Some (Fetches (Some (Some n)))) => inr (negb (n =? 0))
  end.

(** [t.replace("'", "''")]. *)
Fixpoint escape_quotes (t : string) : string :=
  match t with
  | EmptyString => EmptyString
  | String c rest =>
      if Ascii.eqb c "'"%char
      then String "'"%char (String "'"%char (escape_quotes rest))
      else String c (escape_quotes rest)
  end.

(** Python's [int / int] for counts below 2^53: both convert exactly and
    the binary64 division rounds the quotient once. *)
Definition int_to_float (n : Z) : float := PrimFloat.of_uint63 (Uint63.of_Z n).
Definition true_div (a b : Z) : float := (int_to_float a / int_to_float b)%float.

(** [run_checks(con, config)]: the body of the [try], with the three
    handlers folded into [execute], [safe_fetchone], [safe_fetchall] and
    [_table_exists]. Returns [(failures, warnings)]. *)
Definition run_checks (con : connection) (config : option PipelineConfig)
  : DataQualityError + (list message * list message) :=
  let max_duration_mins :=
    match config with
    | Some c => dq_max_duration_minutes c
    | None => MAX_DURATION_MINS
    end in
  (* 1. no negative durations *)
  result ← execute (q_negative_durations con);
  row ← safe_fetchone result "Check 1: negative durations";
  row ← not_none row (EmptyResult "Check 1");
  neg_count ← not_none row (NullValue "Check 1");
  let failures := if 0 <? neg_count then [FailCheck1 neg_count] else [] in
  (* 4. duration outliers *)
  result ← execute (q_duration_outliers con max_duration_mins);
  check4_result ← safe_fetchone result "Check 4: duration outliers";
  check4_result ← not_none check4_result (EmptyResult "Check 4");
  outlier_count ← not_none check4_result (NullValue "Check 4");
  let warnings :=
    if 0 <? outlier_count then [WarnCheck4 outlier_count max_duration_mins]
    else [] in
  (* 5. booking orphan rate *)
  has_fct_bookings ← _table_exists con "fct_bookings";
  warnings ←
    (if has_fct_bookings : bool then
       result ← execute (q_orphan_rate con);
       row ← safe_fetchone result "Check 5: booking orphan rate";
       row ← not_none row (EmptyResult "Check 5");
       total_bookings ← not_none row.1 (NullValue "Check 5");
       orphan_count ← not_none row.2 (NullValue "Check 5");
       if 0 <? total_bookings then
         let orphan_rate := true_div orphan_count total_bookings in
         let threshold :=
           match config with
           | Some c => dq_max_orphan_rate c
           | None => DEFAULT_ORPHAN_THRESHOLD
           end in
         if PrimFloat.ltb threshold orphan_rate
         then mret (warnings ++
                    [WarnCheck5 orphan_count total_bookings orphan_rate threshold])
         else mret warnings
       else mret warnings
     else mret warnings);
  (* 6. configured tier names must exist in dim_mentors *)
  failures ←
    match config with
    | Some c =>
        let all_configured := tiers_group_a c ++ tiers_group_b c in
        match all_configured with
        | [] => mret failures
        | _ =>
            let escaped := escape_quotes <$> all_configured in
            result ← execute (q_existing_tiers con escaped);
            existing ← safe_fetchall result "Check 6: existing tiers";
            result ← execute (q_available_tiers con);
            available ← safe_fetchall result "Check 6: available tiers";
            let missing_tiers :=
              filter (λ t, Some t ∉ existing) all_configured in
            match missing_tiers with
            | [] => mret failures
            | _ => mret (failures ++ [FailCheck6 missing_tiers available])
            end
        end
    | None => mret failures
    end;
  mret (failures, warnings).

(** *** The warehouse behind the connection

    The tables the checks read, by the column each query uses; [None] is a
    table that does not exist. *)
Record database := {
  fct_sessions : option (list (option Z));     (* duration_minutes *)
  fct_bookings : option (list (option bool));  (* is_orphan_request *)
  dim_mentors : option (list (option string))  (* tier *)
}.

(** The value a quoted SQL string literal denotes, from its body: a doubled
    quote stands for one quote. *)
Fixpoint sql_literal_value (body : string) : string :=
  match body with
  | EmptyString => EmptyString
  | String c rest =>
      match rest with
      | String c' rest' =>
          if Ascii.eqb c "'"%char && Ascii.eqb c' "'"%char
          then String "'"%char (sql_literal_value rest')
          else String c (sql_literal_value rest)
      | EmptyString => String c EmptyString
      end
  end.

(** [ORDER BY tier]: byte order on the strings, NULL last. *)
Definition tier_le (a b : option string) : Prop :=
  match a, b with
  | Some x, Some y => String.leb x y = true
  | _, None => True
  | None, Some _ => False
  end.

#[global] Instance tier_le_dec a b : Decision (tier_le a b).
Proof. destruct a, b; simpl; apply _. Defined.

(** A query over a table: a catalog error when the table is missing, else
    the fetched value. *)
Definition from_table {R A} (table : option (list R)) (f : list R → A)
  : executed A :=
  match table with
  | None => ExecuteRaises
  | Some rows => ExecuteReturns (Some (Fetches (f rows)))
  end.

Definition count {A} (P : A → bool) (rows : list A) : Z :=
  Z.of_nat (length (List.filter P rows)).

Definition table_names (db : database) : list string :=
  (if bool_decide (is_Some (fct_sessions db)) then ["fct_sessions"%string] else [])
  ++ (if bool_decide (is_Some (fct_bookings db)) then ["fct_bookings"%string] else [])
  ++ (if bool_decide (is_Some (dim_mentors db)) then ["dim_mentors"%string] else []).

(** [tier IN (v1, ..., vn)]: NULL is in no list. *)
Definition sql_in (values : list string) (tier : option string) : bool :=
  match tier with
  | Some t => bool_decide (t ∈ values)
  | None => false
  end.

(** The connection to a warehouse [db]: each query answered by its SQL
    meaning. [COUNT] is never NULL; [SUM] over no rows is NULL; a
    comparison with NULL selects nothing. *)
Definition duckdb (db : database) : connection := {|
  q_negative_durations :=
    from_table (fct_sessions db) (λ rows,
      Some (Some (count (λ d, match d with Some d => d <? 0 | None => false end) rows)));
  q_duration_outliers := λ m,
    from_table (fct_sessions db) (λ rows,
      Some (Some (count (λ d, match d with Some d => m <? d | None => false end) rows)));
  q_table_count := λ name,
    ExecuteReturns (Some (Fetches (Some (Some
      (count (λ n, String.eqb n name) (table_names db))))));
  q_orphan_rate :=
    from_table (fct_bookings db) (λ rows,
      Some (Some (Z.of_nat (length rows)),
            match rows with
            | [] => None
            | _ => Some (count (λ o, match o with Some true => true | _ => false end) rows)
            end));
  q_existing_tiers := λ escaped,
    from_table (dim_mentors db) (λ rows,
      Some (remove_dups
        (filter (λ tier, sql_in (sql_literal_value <$> escaped) tier) rows)));
  q_available_tiers :=
    from_table (dim_mentors db) (λ rows,
      Some (merge_sort tier_le (remove_dups rows)))
|}.

End Validate.

(** ** run_pipeline.py: the Wilson score interval *)
Module Wilson.

(** Python numbers: an [int] operand of a float operation is converted
    first (exact below 2^53); [int / int] is the correctly rounded quotient,
    which for such operands is the binary64 division of the conversions. *)
Definition int_to_float (n : Z) : float :=
  if n <? 0 then PrimFloat.opp (PrimFloat.of_uint63 (Uint63.of_Z (- n)))
  else PrimFloat.of_uint63 (Uint63.of_Z n).

(** [max(a, b)] and [min(a, b)] of two arguments: the first one stays
    unless the second is strictly larger (smaller). *)
Definition py_max (a b : float) : float := if PrimFloat.ltb a b then b else a.
Definition py_min (a b : float) : float := if PrimFloat.ltb b a then b else a.

(** The default [z = 1.96], as the binary64 value the literal denotes. *)
Definition z_default : float := 0x1.f5c28f5c28f5cp+0%float.

(** [math.sqrt] raises [ValueError] on a negative argument. *)
Inductive ValueError := MathDomainError.

Definition math_sqrt (x : float) : ValueError + float :=
  if PrimFloat.ltb x 0 then inl MathDomainError else inr (PrimFloat.sqrt x).

(** [_wilson_ci(k, n, z)]. [z ** 2] is the rounded square [z * z]. *)
Definition _wilson_ci (k n : Z) (z : float) : ValueError + (float * float) :=
  if n =? 0 then inr (0, 0)%float
  else
    let p := (int_to_float k / int_to_float n)%float in
    let denom := (1 + z * z / int_to_float n)%float in
    let centre := ((p + z * z / int_to_float (2 * n)) / denom)%float in
    match math_sqrt (p * (1 - p) / int_to_float n
                     + z * z / int_to_float (4 * n ^ 2))%float with
    | inl e => inl e
    | inr root =>
        let margin := (z * root / denom)%float in
        inr ((py_max 0 (centre - margin) * 100)%float,
             (py_min 100 (centre + margin) * 100)%float)
    end.

End Wilson.

(** ** src/utils.py: the step timer *)
Module Utils.

Definition GRACE_SECONDS : Z := 10.

(** What the watcher thread can do to the guarded step. *)
Inductive effect :=
  | SoftKill (thread_id : Z)   (* PyThreadState_SetAsyncExc(PipelineTimeoutError) *)
  | HardKill.                  (* os._exit(1) *)

(** The fields of a [StepTimer] that [__enter__] sets; [_timeout] is
    [timeout_seconds], [None] or a number; [_watcher] tells whether a
    watcher thread was created and started. *)
Record StepTimer := {
  _timeout : option Z;
  _main_thread_id : option Z;
  _watcher : bool
}.

Definition __init__ (timeout_seconds : option Z) : StepTimer :=
  {| _timeout := timeout_seconds; _main_thread_id := None; _watcher := false |}.

(** Truth value of [self._timeout]: [None] and [0] are false. *)
Definition truthy (timeout : option Z) : bool :=
  match timeout with
  | None => false
  | Some t => negb (t =? 0)
  end.

(** [__enter__] on the thread [current_thread]. *)
Definition __enter__ (self : StepTimer) (current_thread : Z) : StepTimer :=
  if truthy (_timeout self) then
    {| _timeout := _timeout self;
       _main_thread_id := Some current_thread;
       _watcher := true |}
  else self.

(** [self._done.wait(timeout)] called at time [now], on a clock in
    seconds: [done_at] is the instant at which [__exit__] sets the event
    ([None] if it never does). The wait returns [True] when the event is set
    before the timeout runs out, and the time at which it returns. *)
Definition wait (done_at : option Z) (now timeout : Z) : bool * Z :=
  match done_at with
  | Some t => if t <? now + timeout then (true, Z.max now t)
              else (false, now + timeout)
  | None => (false, now + timeout)
  end.

(** [_watchdog], run by the watcher thread from time [start]. *)
Definition _watchdog (self : StepTimer) (done_at : option Z) (start : Z)
  : list effect :=
  match _timeout self with
  | None => []
  | Some timeout =>
      if timeout =? 0 then []
      else
        let '(finished, now) := wait done_at start timeout in
        if finished then []
        else
          let soft :=
            match _main_thread_id self with
            | Some id => [SoftKill id]
            | None => []
            end in
          let '(finished, _) := wait done_at now GRACE_SECONDS in
          if finished then soft else soft ++ [HardKill]
  end.

(** A guarded step: [with StepTimer(name, timeout): ...] entered at
    [entered_at] on thread [thread]; the watcher, if one was started, begins
    to run [lag >= 0] later. The result is whether a watcher thread exists
    and everything it does. *)
Definition guarded_step (timeout_seconds : option Z) (thread : Z)
    (entered_at lag : Z) (done_at : option Z) : bool * list effect :=
  let self := __enter__ (__init__ timeout_seconds) thread in
  if _watcher self
  then (true, _watchdog self done_at (entered_at + lag))
  else (false, []).

End Utils.


(** ** src/ingest.py: loading the raw layer *)
Module Ingest.

(** [_incremental_insert(con, df, pk, table)] on the rows of [table]: the
    staged rows [s] with [NOT EXISTS (SELECT 1 FROM table r WHERE r.pk =
    s.pk)] are counted and, when there are any, appended. Returns the table
    afterwards and [new_rows]. *)
Definition _incremental_insert {R K : Type} `{EqDecision K} (pk : R → K)
    (table df : list R) : list R * Z :=
  let staged_new := filter (λ s, pk s ∉ pk <$> table) df in
  let new_rows := Z.of_nat (length staged_new) in
  if 0 <? new_rows then (table ++ staged_new, new_rows)
  else (table, new_rows).

(** [df.unique(subset=[pk], keep="first", maintain_order=True)]; [seen]
    holds the keys already kept. *)
Fixpoint unique_keep_first {R K : Type} `{EqDecision K} (pk : R → K)
    (seen : list K) (df : list R) : list R :=
  match df with
  | [] => []
  | r :: rest =>
      if decide (pk r ∈ seen) then unique_keep_first pk seen rest
      else r :: unique_keep_first pk (pk r :: seen) rest
  end.

(** A source file as the loaders see it: the issues found by the
    pre-flight validator ([validate_csv], [validate_json_file]) and the rows
    read from it. *)
Record source (R : Type) := {
  issues : list string;
  rows : list R
}.
Arguments issues {R} _.
Arguments rows {R} _.

(** Rows of users_db_export.csv ([user_id] read as text), of
    mentor_tiers.csv and of booking_events.json ([user_id] after [str()]). *)
Record csv_user := {
  cu_user_id : string; cu_company_id : Z;
  cu_signup_date : string; cu_status : string
}.
Record csv_mentor := {
  cm_mentor_id : string; cm_tier : option string; cm_hourly_rate : string
}.
Record json_event := {
  je_event_id : string; je_event_type : string; je_user_id : string;
  je_mentor_id : string; je_timestamp : string
}.

(** Rows of the raw tables. *)
Record raw_user := {
  user_id : Z; company_id : Z; signup_date : option Z; status : string
}.
Record raw_mentor := {
  mentor_id : string; tier : string; hourly_rate : Z
}.
Record raw_event := {
  event_id : string; event_type : string; ev_user_id : Z;
  ev_mentor_id : string; timestamp : option Z
}.

(** The raw layer of the warehouse; [None] is a table not created yet. *)
Record warehouse := {
  raw_users : option (list raw_user);
  raw_mentors : option (list raw_mentor);
  raw_events : option (list raw_event)
}.

Inductive ValueError :=
  | PreflightFailed (file : string) (first_issue : string)
  | NullTiers (null_tiers : Z).

(** The column expressions of polars that the loaders use. *)
Record polars := {
  cast_int64 : string → option Z;    (* cast(pl.Int64, strict=False) *)
  strip_chars : string → string;
  to_lowercase : string → string;
  to_titlecase : string → string;
  to_datetime : string → option Z    (* str.to_datetime(strict=False) *)
}.

Section Loaders.
Context (pl : polars).

(** The frame [ingest_users] stages: [user_id] cast, null ids dropped,
    first row per id kept, the other columns normalised. *)
Definition users_frame (src : source csv_user) : list raw_user :=
  let df := omap (λ r, id ← cast_int64 pl (cu_user_id r); Some (id, r)) (rows src) in
  let df := unique_keep_first fst [] df in
  (λ '(id, r),
     {| user_id := id;
        company_id := cu_company_id r;
        signup_date := to_datetime pl (cu_signup_date r);
        status := to_lowercase pl (strip_chars pl (cu_status r)) |}) <$> df.

Definition ingest_users (src : source csv_user) (con : warehouse)
  : ValueError + (warehouse * Z) :=
  match issues src with
  | issue :: _ => inl (PreflightFailed "users_db_export.csv" issue)
  | [] =>
      let df := users_frame src in
      match raw_users con with
      | None =>
          inr ({| raw_users := Some df;
                  raw_mentors := raw_mentors con;
                  raw_events := raw_events con |},
               Z.of_nat (length df))
      | Some table =>
          let '(table, new_rows) := _incremental_insert user_id table df in
          inr ({| raw_users := Some table;
                  raw_mentors := raw_mentors con;
                  raw_events := raw_events con |},
               new_rows)
      end
  end.

(** The frame [ingest_mentors] writes, with the tier still nullable. *)
Definition mentors_frame (src : source csv_mentor)
  : list (string * option string * Z) :=
  (λ r, (strip_chars pl (cm_mentor_id r),
         to_titlecase pl <$> (strip_chars pl <$> cm_tier r),
         default 0 (cast_int64 pl (cm_hourly_rate r)))) <$> rows src.

Definition ingest_mentors (src : source csv_mentor) (con : warehouse)
  : ValueError + warehouse :=
  match issues src with
  | issue :: _ => inl (PreflightFailed "mentor_tiers.csv" issue)
  | [] =>
      let df := mentors_frame src in
      let null_tiers :=
        Z.of_nat (length (filter (λ r, r.1.2 = None) df)) in
      if 0 <? null_tiers then inl (NullTiers null_tiers)
      else
        (* DROP TABLE IF EXISTS raw_mentors; CREATE TABLE raw_mentors AS ... *)
        inr {| raw_users := raw_users con;
               raw_mentors :=
                 Some ((λ r, {| mentor_id := r.1.1;
                                tier := default "" r.1.2;
                                hourly_rate := r.2 |}) <$> df);
               raw_events := raw_events con |}
  end.

(** The frame [ingest_events] stages: [user_id] cast, null ids dropped,
    duplicated [event_id]s collapsed to their first row when there are any,
    the other columns normalised. *)
Definition events_frame (src : source json_event) : list raw_event :=
  let df := omap (λ e, id ← cast_int64 pl (je_user_id e); Some (id, e)) (rows src) in
  let df :=
    if bool_decide (NoDup ((λ r, je_event_id r.2) <$> df)) then df
    else unique_keep_first (λ r, je_event_id r.2) [] df in
  (λ '(id, e),
     {| event_id := je_event_id e;
        event_type := to_lowercase pl (strip_chars pl (je_event_type e));
        ev_user_id := id;
        ev_mentor_id := strip_chars pl (je_mentor_id e);
        timestamp := to_datetime pl (je_timestamp e) |}) <$> df.

Definition ingest_events (src : source json_event) (con : warehouse)
  : ValueError + (warehouse * Z) :=
  match issues src with
  | issue :: _ => inl (PreflightFailed "booking_events.json" issue)
  | [] =>
      let df := events_frame src in
      match raw_events con with
      | None =>
          inr ({| raw_users := raw_users con;
                  raw_mentors := raw_mentors con;
                  raw_events := Some df |},
               Z.of_nat (length df))
      | Some table =>
          let '(table, new_rows) := _incremental_insert event_id table df in
          inr ({| raw_users := raw_users con;
                  raw_mentors := raw_mentors con;
                  raw_events := Some table |},
               new_rows)
      end
  end.

End Loaders.

End Ingest.


(** ** Session pairing: the SQL of fct_sessions, as tests/test_pipeline.py
    runs it ([TestSessionPairing._run_pairing], [_build_dim_fact_tables]) *)
Module Pairing.

(** A row of [raw_events], typed: [user_id] is an integer and [timestamp]
    an instant, in seconds since the epoch (the casts of the SQL are then
    the identity, and ordering by the column is ordering by the instant). *)
Record event := {
  event_id : string;
  event_type : string;
  user_id : Z;
  mentor_id : string;
  timestamp : Z
}.

(** [TRIM(s)]: spaces removed on both sides. *)
Fixpoint ltrim (s : list ascii) : list ascii :=
  match s with
  | c :: rest => if Ascii.eqb c " "%char then ltrim rest else s
  | [] => []
  end.

Definition TRIM (s : string) : string :=
  string_of_list_ascii
    (reverse (ltrim (reverse (ltrim (list_ascii_of_string s))))).

(** The columns of [session_starts] that [paired] groups by. *)
Record start_row := {
  session_id : string;     (* event_id *)
  s_user_id : Z;           (* CAST(user_id AS BIGINT) *)
  s_mentor_id : string;    (* TRIM(mentor_id) *)
  started_at : Z           (* CAST("timestamp" AS TIMESTAMP) *)
}.

(** A row of [session_starts]: these columns and [next_start_at]. *)
Record session_start := {
  start : start_row;
  next_start_at : option Z
}.

(** A row of [session_ends]. *)
Record session_end := {
  e_user_id : Z;
  e_mentor_id : string;
  ended_at : Z
}.

(** A row of [paired]. *)
Record paired_row := {
  p_start : start_row;
  p_ended_at : option Z
}.

(** A row of [fct_sessions] (the hash key and the date, both functions of
    the columns below, are left out). *)
Record session := {
  f_start : start_row;
  f_ended_at : option Z;
  duration_minutes : Z;
  is_duration_estimated : bool
}.

Definition is_session_started (e : event) : bool :=
  String.eqb (event_type e) "session_started".
Definition is_session_ended (e : event) : bool :=
  String.eqb (event_type e) "session_ended".

(** [PARTITION BY CAST(user_id AS BIGINT), TRIM(mentor_id)]. *)
Definition partition_key (e : event) : Z * string :=
  (user_id e, TRIM (mentor_id e)).

(** [ORDER BY key ASC], as a stable insertion sort. *)
Fixpoint insert_by {A : Type} (key : A → Z) (x : A) (sorted : list A)
  : list A :=
  match sorted with
  | [] => [x]
  | y :: rest =>
      if key x <=? key y then x :: sorted
      else y :: insert_by key x rest
  end.

Definition order_by {A : Type} (key : A → Z) (l : list A) : list A :=
  foldr (insert_by key) [] l.

(** [ORDER BY "timestamp" ASC]. *)
Definition order_by_timestamp (l : list event) : list event :=
  order_by timestamp l.

Definition to_start_row (e : event) : start_row := {|
  session_id := event_id e;
  s_user_id := user_id e;
  s_mentor_id := TRIM (mentor_id e);
  started_at := timestamp e
|}.

(** [LEAD(CAST("timestamp" AS TIMESTAMP)) OVER (...)] on one ordered
    partition: each row gets the timestamp of the row after it. *)
Fixpoint lead (ordered : list event) : list session_start :=
  match ordered with
  | [] => []
  | e :: rest =>
      {| start := to_start_row e;
         next_start_at := timestamp <$> head rest |} :: lead rest
  end.

(** The CTE [session_starts] ([starts]): the window is evaluated partition
    by partition. *)
Definition session_starts (raw_events : list event) : list session_start :=
  let started := filter (λ e, is_session_started e) raw_events in
  k ← remove_dups (partition_key <$> started);
  lead (order_by_timestamp (filter (λ e, partition_key e = k) started)).

(** The CTE [session_ends] ([ends]). *)
Definition session_ends (raw_events : list event) : list session_end :=
  (λ e, {| e_user_id := user_id e;
           e_mentor_id := TRIM (mentor_id e);
           ended_at := timestamp e |})
  <$> filter (λ e, is_session_ended e) raw_events.

(** The [ON] condition of the join. *)
Definition join_on (s : session_start) (e : session_end) : bool :=
  (s_user_id (start s) =? e_user_id e)
  && String.eqb (s_mentor_id (start s)) (e_mentor_id e)
  && (started_at (start s) <? ended_at e)
  && match next_start_at s with
     | None => true
     | Some next => ended_at e <? next
     end.

(** [session_starts s LEFT JOIN session_ends e ON ...]: a start without a
    match is kept once, with NULLs for [e]. *)
Definition left_join (starts : list session_start) (ends : list session_end)
  : list (session_start * option session_end) :=
  s ← starts;
  match filter (λ e, join_on s e) ends with
  | [] => [(s, None)]
  | matches => (λ e, (s, Some e)) <$> matches
  end.

(** [MIN(x)] over a group: NULLs are skipped, and the result is NULL when
    nothing is left. *)
Definition sql_min (values : list (option Z)) : option Z :=
  foldr (λ v acc,
           match v, acc with
           | Some x, Some m => Some (Z.min x m)
           | Some x, None => Some x
           | None, _ => acc
           end) None values.

Definition group_key (r : start_row) : string * Z * string * Z :=
  (session_id r, s_user_id r, s_mentor_id r, started_at r).

(** [SELECT ..., MIN(e.ended_at) ... GROUP BY s.event_id, s.user_id,
    s.mentor_id, s.started_at] over the joined rows. *)
Definition group_by_start (joined : list (session_start * option session_end))
  : list paired_row :=
  (λ g,
     {| p_start := {| session_id := g.1.1.1; s_user_id := g.1.1.2;
                      s_mentor_id := g.1.2; started_at := g.2 |};
        p_ended_at :=
          sql_min ((λ j : session_start * option session_end, ended_at <$> j.2)
                   <$> filter (λ j, group_key (start j.1) = g) joined) |})
  <$> remove_dups
        ((λ j : session_start * option session_end, group_key (start j.1))
         <$> joined).

(** The CTE [paired]. *)
Definition paired (raw_events : list event) : list paired_row :=
  group_by_start (left_join (session_starts raw_events) (session_ends raw_events)).

(** [_run_pairing(con, events)]: [SELECT * FROM paired ORDER BY started_at]. *)
Definition _run_pairing (events : list event) : list paired_row :=
  order_by (λ p, started_at (p_start p)) (paired events).

(** [DATEDIFF('minute', a, b)]: the number of minute boundaries from [a]
    to [b]. *)
Definition DATEDIFF_minute (a b : Z) : Z := b / 60 - a / 60.

(** Modelled from the spec: the dbt model fct_sessions.sql is not among the
    sources; its CTEs are those of the test helper [_build_dim_fact_tables],
    whose final [SELECT] has
    [COALESCE(DATEDIFF('minute', started_at, ended_at), 30)] and
    [ended_at IS NULL AS is_duration_estimated]. The literal 30 there is the
    default of [default_session_duration_minutes]; here it is the
    configured value, passed to dbt as [default_duration_minutes]. *)
Definition fct_sessions (default_duration_minutes : Z)
    (raw_events : list event) : list session :=
  (λ p,
     {| f_start := p_start p;
        f_ended_at := p_ended_at p;
        duration_minutes :=
          default default_duration_minutes
            (DATEDIFF_minute (started_at (p_start p)) <$> p_ended_at p);
        is_duration_estimated :=
          match p_ended_at p with None => true | Some _ => false end |})
  <$> paired raw_events.

(** [_build_dim_fact_tables]: the table as the test suite builds it. *)
Definition _build_dim_fact_tables (raw_events : list event) : list session :=
  fct_sessions 30 raw_events.

End Pairing.


(** ** config.py: the SQL template helpers *)
Module ConfigSql.
Import Config.

(** [sep.join(parts)]. *)
Fixpoint join (sep : string) (parts : list string) : string :=
  match parts with
  | [] => EmptyString
  | [p] => p
  | p :: rest => p +:+ sep +:+ join sep rest
  end.

(** [PipelineConfig._sanitize_tier]: [tier.replace("'", "''")]. *)
Definition _sanitize_tier (tier : string) : string :=
  Validate.escape_quotes tier.

(** The f-string ['{self._sanitize_tier(t)}'] with its two quotes. *)
Definition quoted (t : string) : string :=
  String "'"%char (_sanitize_tier t +:+ "'").

Definition tiers_a_sql (self : PipelineConfig) : string :=
  join ", " (quoted <$> tiers_group_a self).

Definition tiers_b_sql (self : PipelineConfig) : string :=
  join ", " (quoted <$> tiers_group_b self).

Definition group_a_label (self : PipelineConfig) : string :=
  join "/" (tiers_group_a self).

Definition group_b_label (self : PipelineConfig) : string :=
  join "/" (tiers_group_b self).

(** *** How SQL reads a comma-separated list of string literals

    A scanner over the characters: a literal opens with a quote; inside it
    a doubled quote is one quote character and a single quote closes it;
    literals are separated by a comma and spaces. [None] when the text is
    not such a list. *)
Inductive scan_state :=
  | Between         (* before a literal: start of the list, or after ", " *)
  | Inside          (* inside a literal *)
  | QuoteSeen       (* inside a literal, right after a quote *)
  | AfterLiteral.   (* after a closing quote and then a comma *)

Fixpoint scan_literals (st : scan_state) (current : string)
    (done : list string) (s : string) : option (list string) :=
  match s with
  | EmptyString =>
      match st with
      | QuoteSeen => Some (done ++ [current])   (* the quote closed the last literal *)
      | _ => None
      end
  | String c rest =>
      match st with
      | Between =>
          if Ascii.eqb c "'"%char then scan_literals Inside EmptyString done rest
          else if Ascii.eqb c " "%char then scan_literals Between current done rest
          else None
      | Inside =>
          if Ascii.eqb c "'"%char then scan_literals QuoteSeen current done rest
          else scan_literals Inside (current +:+ String c EmptyString) done rest
      | QuoteSeen =>
          if Ascii.eqb c "'"%char
          then scan_literals Inside (current +:+ "'") done rest
          else if Ascii.eqb c ","%char
          then scan_literals AfterLiteral EmptyString (done ++ [current]) rest
          else None
      | AfterLiteral =>
          if Ascii.eqb c " "%char then scan_literals Between current done rest
          else if Ascii.eqb c "'"%char
          then scan_literals Inside EmptyString done rest
          else None
      end
  end.

(** The values of an [IN (...)] list given as text; an empty list is a
    syntax error. *)
Definition sql_in_list_values (text : string) : option (list string) :=
  scan_literals Between EmptyString [] text.

End ConfigSql.

(** ** app.py: the dashboard's configuration guard and result merging *)
Module App.
Import Config.

(** The session-state keys the guard reads. *)
Record session_state := {
  _tiers_a : list string;
  _tiers_b : list string;
  _window_days : option Z;
  _duration : Z
}.

(** [_cfg_ok = bool(_ss_tiers_a and _ss_tiers_b and not _overlap)]. *)
Definition _cfg_ok (ss : session_state) : bool :=
  let _overlap : gset string :=
    list_to_set (_tiers_a ss) ∩ list_to_set (_tiers_b ss) in
  bool_decide (_tiers_a ss ≠ []) && bool_decide (_tiers_b ss ≠ [])
  && bool_decide (_overlap = ∅).

(** [_active_cfg]: built from the session state when the guard holds (the
    other fields take their dataclass defaults), else [_defaults]. *)
Definition _active_cfg (_defaults : PipelineConfig) (ss : session_state)
  : PipelineConfig :=
  if _cfg_ok ss then
    {| default_session_duration_minutes := _duration ss;
       tiers_group_a := _tiers_a ss;
       tiers_group_b := _tiers_b ss;
       rebooking_window_days := _window_days ss;
       dq_max_orphan_rate := dq_max_orphan_rate default_config;
       dq_max_duration_minutes := dq_max_duration_minutes default_config;
       environment := environment default_config;
       db_path := db_path default_config;
       known_tiers := known_tiers default_config;
       step_timeout_seconds := step_timeout_seconds default_config |}
  else _defaults.

(** [_merge(existing, new)]: results are dicts keyed by strings;
    [{**existing, **new}] lets the keys of [new] win. *)
Definition _merge {V : Type} (existing new : option (gmap string V))
  : option (gmap string V) :=
  match new with
  | None => existing
  | Some n =>
      match existing with
      | None => Some n
      | Some e => Some (n ∪ e)
      end
  end.

End App.


(** ** src/validate.py: the pre-flight file validators *)
Module Preflight.

(** What [path.read_text(encoding="utf-8", errors="strict")] does. *)
Inductive read_text :=
  | Text (content : string)
  | UnicodeDecodeError (start : Z) (reason : string)
  | OSError (message : string).

(** What [csv.DictReader] gives on the opened file: its [fieldnames]
    ([None] on an empty file) and what [next(reader)] does. [OpenRaises]
    stands for an exception while the file is opened or its header read. *)
Inductive next_row := NextRaises | StopIteration | NextRow.
Inductive dict_reader :=
  | OpenRaises
  | Reader (fieldnames : option (list string)) (next : next_row).

(** What [json.loads] does on the text: it returns a value, raises
    [json.JSONDecodeError], or raises something else ([ValueError] on an
    integer with more digits than the interpreter converts,
    [RecursionError] on deep nesting). *)
Inductive json_value :=
  | JSONDecodeError (lineno : Z) (msg : string)
  | LoadsRaises
  | JsonList (length : nat)
  | JsonOther (type_name : string).

(** An exception that leaves [validate_json_file]: its [try] has a
    handler for [json.JSONDecodeError] only. *)
Inductive uncaught := Uncaught.

(** A path as the validators see it. *)
Record path := {
  name : string;
  exists_ : bool;
  read : read_text;
  reader : dict_reader;
  loads : json_value
}.

(** The messages, one constructor per f-string, with the interpolated
    values ([sorted(missing)] is kept as the set). *)
Inductive issue :=
  | NotUtf8 (name : string) (start : Z) (reason : string)
  | CannotRead (name : string) (message : string)
  | NotFound (name : string)
  | MissingColumns (name : string) (missing : gset string)
  | NoDataRows (name : string)
  | ReadError (name : string)
  | NotArray (name : string) (type_name : string)
  | EmptyArray (name : string)
  | JsonError (name : string) (lineno : Z) (msg : string).

Definition check_encoding (p : path) : list issue :=
  match read p with
  | Text _ => []
  | UnicodeDecodeError start reason => [NotUtf8 (name p) start reason]
  | OSError message => [CannotRead (name p) message]
  end.

Definition validate_csv (p : path) (required_columns : gset string)
  : list issue :=
  if negb (exists_ p) then [NotFound (name p)]
  else
    match check_encoding p with
    | (_ :: _) as issues => issues
    | [] =>
        match reader p with
        | OpenRaises => [ReadError (name p)]
        | Reader fieldnames next =>
            let missing : gset string :=
              required_columns ∖ list_to_set (default [] fieldnames) in
            let issues :=
              if bool_decide (missing ≠ ∅)
              then [MissingColumns (name p) missing] else [] in
            match next with
            | NextRow => issues
            | StopIteration => issues ++ [NoDataRows (name p)]
            | NextRaises => issues ++ [ReadError (name p)]
            end
        end
    end.

Definition validate_json_file (p : path) : uncaught + list issue :=
  if negb (exists_ p) then inr [NotFound (name p)]
  else
    match check_encoding p with
    | (_ :: _) as issues => inr issues
    | [] =>
        match loads p with
        | JSONDecodeError lineno msg => inr [JsonError (name p) lineno msg]
        | LoadsRaises => inl Uncaught
        | JsonOther type_name => inr [NotArray (name p) type_name]
        | JsonList 0 => inr [EmptyArray (name p)]
        | JsonList (S _) => inr []
        end
    end.

(** [detect_csv_duplicates(path, pk_col)] over the rows the reader yields
    before the scan ends (at the end of the file, or at an exception, which
    is logged): a row is a dict whose values may be [None];
    the key is [row.get(pk_col)], or the empty string when that is [None]
    or empty. Returns [(total, dupes)]. *)
Definition pk_value (pk_col : string) (row : gmap string (option string))
  : string :=
  match row !! pk_col with
  | Some (Some v) => v
  | _ => EmptyString
  end.

Fixpoint scan_duplicates (pk_col : string) (seen : gset string)
    (total dupes : Z) (rows : list (gmap string (option string)))
  : Z * Z :=
  match rows with
  | [] => (total, dupes)
  | row :: rest =>
      let val := pk_value pk_col row in
      if bool_decide (val ∈ seen)
      then scan_duplicates pk_col seen (total + 1) (dupes + 1) rest
      else scan_duplicates pk_col ({[val]} ∪ seen) (total + 1) dupes rest
  end.

Definition detect_csv_duplicates (rows : list (gmap string (option string)))
    (pk_col : string) : Z * Z :=
  scan_duplicates pk_col ∅ 0 0 rows.

(** [warn_if_overwrite(path, label)]: the warning carries the tag. *)
Definition warn_if_overwrite (p : path) (label : string)
  : list (string * string) :=
  if exists_ p then [(label, name p)] else [].

End Preflight.

(** ** src/validate.py: the standalone entry point [main] *)
Module ValidateCli.
Import Validate.

(** How the process ends. *)
Inductive exit := Returns | SysExit (code : Z).

(** [main()]: [connect] is the connection [duckdb.connect] returns, or
    [None] when it raises. The result is how the process ends and whether
    [con.close()] was called in the [finally]. *)
Definition main (connect : option connection) : exit * bool :=
  match connect with
  | None => (SysExit 2, false)
  | Some con =>
      match run_checks con None with
      | inr ([], _) => (Returns, true)
      | inr (_ :: _, _) => (SysExit 1, true)
      | inl _ => (SysExit 2, true)
      end
  end.

End ValidateCli.

(** ** src/ingest.py: the entry point [main] *)
Module IngestRun.
Import Ingest.

(** [main()]: the three loaders in order on the warehouse; a [ValueError]
    of a loader leaves what the earlier loaders wrote. Returns the
    warehouse afterwards and either the error or
    [(new_users, new_events)]. *)
Definition main (pl : polars) (users : source csv_user)
    (mentors : source csv_mentor) (events : source json_event)
    (con : warehouse) : warehouse * (ValueError + (Z * Z)) :=
  match ingest_users pl users con with
  | inl e => (con, inl e)
  | inr (con1, new_users) =>
      match ingest_mentors pl mentors con1 with
      | inl e => (con1, inl e)
      | inr con2 =>
          match ingest_events pl events con2 with
          | inl e => (con2, inl e)
          | inr (con3, new_events) => (con3, inr (new_users, new_events))
          end
      end
  end.

End IngestRun.

(** ** run_pipeline.py: the run log and the step timeout of [main] *)
Module RunLog.
Import Config.

(** One entry of a daily log file. Times are in seconds. *)
Record entry := {
  run_id : Z;
  started_at : Z;
  finished_at : option Z;
  duration_seconds : option Z;
  status : string;
  config : PipelineConfig;
  new_users_ingested : Z;
  new_events_ingested : Z;
  dq_checks_passed : bool;
  warnings : list string;
  error_message : option string
}.

(** The log directory as a run sees it: the file of its day (absent, or
    present with its parsed entries, [None] when it does not parse) and the
    other [*.json] files. *)
Record logs_dir := {
  day_file : option (option (list entry));
  other_files : list (option (list entry))
}.

(** [LOGS_DIR.rglob("*.json")]. *)
Definition json_files (d : logs_dir) : list (option (list entry)) :=
  match day_file d with
  | Some f => f :: other_files d
  | None => other_files d
  end.

(** [_next_run_id]: files that do not parse are skipped. *)
Definition _next_run_id (d : logs_dir) : Z :=
  foldl (λ total f,
           match f with
           | Some entries => total + Z.of_nat (length entries)
           | None => total
           end) 0 (json_files d) + 1.

Definition _read_day (d : logs_dir) : list entry :=
  match day_file d with
  | Some (Some entries) => entries
  | _ => []
  end.

Definition _write_atomic (d : logs_dir) (entries : list entry) : logs_dir :=
  {| day_file := Some (Some entries); other_files := other_files d |}.

(** The object: its id, its entry and the warnings collected so far. *)
Record PipelineRunLog := {
  _run_id : Z;
  _started_at : Z;
  _entry : entry;
  _warnings : list string
}.

(** [PipelineRunLog(config)] at time [now]. *)
Definition __init__ (config : PipelineConfig) (now : Z) (d : logs_dir)
  : PipelineRunLog :=
  let id := _next_run_id d in
  {| _run_id := id;
     _started_at := now;
     _entry := {| run_id := id; started_at := now; finished_at := None;
                  duration_seconds := None; status := "running";
                  config := config; new_users_ingested := 0;
                  new_events_ingested := 0; dq_checks_passed := false;
                  warnings := []; error_message := None |};
     _warnings := [] |}.

Definition start (self : PipelineRunLog) (d : logs_dir) : logs_dir :=
  _write_atomic d (_read_day d ++ [_entry self]).

Definition add_warning (self : PipelineRunLog) (msg : string)
  : PipelineRunLog :=
  {| _run_id := _run_id self; _started_at := _started_at self;
     _entry := _entry self; _warnings := _warnings self ++ [msg] |}.

(** The [for ... else] of [finish]: the first entry with this [run_id] is
    replaced; [None] when the loop ends without [break]. *)
Fixpoint replace_first (id : Z) (new : entry) (entries : list entry)
  : option (list entry) :=
  match entries with
  | [] => None
  | e :: rest =>
      if run_id e =? id then Some (new :: rest)
      else cons e <$> replace_first id new rest
  end.

(** [finish(status=..., new_users=..., new_events=..., dq_passed=...,
    error=...)] at time [now]. *)
Definition finish (self : PipelineRunLog) (now : Z) (status_ : string)
    (new_users new_events : Z) (dq_passed : bool) (error : option string)
    (d : logs_dir) : PipelineRunLog * logs_dir :=
  let updated :=
    {| run_id := run_id (_entry self);
       started_at := started_at (_entry self);
       finished_at := Some now;
       duration_seconds := Some (now - _started_at self);
       status := status_;
       config := config (_entry self);
       new_users_ingested := new_users;
       new_events_ingested := new_events;
       dq_checks_passed := dq_passed;
       warnings := _warnings self;
       error_message := error |} in
  let entries := _read_day d in
  let entries :=
    match replace_first (_run_id self) updated entries with
    | Some replaced => replaced
    | None => entries ++ [updated]
    end in
  ({| _run_id := _run_id self; _started_at := _started_at self;
      _entry := updated; _warnings := _warnings self |},
   _write_atomic d entries).

(** [timeout = config.step_timeout_seconds if config.step_timeout_seconds
    > 0 else None] in [main], the argument of its [StepTimer]. *)
Definition step_timeout (config : PipelineConfig) : option Z :=
  if 0 <? step_timeout_seconds config then Some (step_timeout_seconds config)
  else None.

End RunLog.


(** ** run_pipeline.py: [main] step by step *)
Module PipelineRun.
Import Config Validate Pipeline.

(** A row of the rebooking analysis, by the columns the sanity check reads. *)
Record rebooking_row := {
  mentor_tier : string;
  total_users : Z;
  users_rebooked : Z;
  rebooking_rate_pct : float
}.

(** What [run_log.add_warning] collects: the warnings of [run_checks] and
    the three messages of the sanity check. *)
Inductive warning :=
  | DataQuality (m : message)
  | SmallGroup (tier : string) (n : Z)
  | FullRate (tier : string)
  | ZeroRate (tier : string) (n : Z).

Definition _MIN_USERS : Z := 30.

(** The body of the sanity loop for one row. *)
Definition sanity_check (row : rebooking_row) : list warning :=
  if total_users row <? _MIN_USERS
  then [SmallGroup (mentor_tier row) (total_users row)]
  else if PrimFloat.eqb (rebooking_rate_pct row) 100
  then [FullRate (mentor_tier row)]
  else if PrimFloat.eqb (rebooking_rate_pct row) 0
  then [ZeroRate (mentor_tier row) (total_users row)]
  else [].

(** The instant at which the [PipelineTimeoutError] of the step timer
    reaches the main thread, by what [main] has done when it arrives. An
    instant between two steps counts with the step that follows. The
    exception is a [RuntimeError], so an [except Exception] on its way
    catches it: inside the [try] of [validate_csv], called by the ingestion,
    it becomes an issue of the file and the ingestion raises a [ValueError];
    inside the [try] of [run_checks] it is replaced by a
    [DataQualityError]. *)
Inductive moment :=
  | InPreflight               (* step 1, inside the [try] of [validate_csv] *)
  | InIngest                  (* step 1 otherwise, before [new_users] is
                                 assigned *)
  | AfterIngest (events_assigned : bool)
                              (* step 1, [new_users] assigned; whether
                                 [new_events] is too *)
  | InTransform               (* step 2 *)
  | InChecks                  (* step 3, before the [try] of [run_checks] *)
  | InRunChecks               (* step 3, inside the [try] of [run_checks] *)
  | InWarnings (added : nat)  (* step 3, [added] warnings of [run_checks]
                                 passed to [add_warning], [dq_passed] not set *)
  | ChecksPassed              (* step 3, after [dq_passed = True] *)
  | EnteringAnalysis          (* the start of step 4; in mode "analysis-only"
                                 [dq_passed] is not set yet *)
  | InAnalysis                (* step 4, before the rebooking query returns *)
  | InSanity (added : nat).   (* step 4 afterwards, [added] warnings of the
                                 sanity check added *)

(** Whether the exception is caught where it arrives and another one
    raised in its place. *)
Definition caught (m : moment) : bool :=
  match m with
  | InPreflight | InRunChecks => true
  | _ => false
  end.

(** What is outside the program: the ingestion ([None] when it raises),
    the dbt commands (whether they return code 0), the row-count queries
    after [dbt run] (whether they all answer), the connection the checks
    run on, the two analysis queries ([None], [false] when one raises), and
    the watchdog of the step timer: the instant at which its exception
    arrives if the run gets there and a timeout is set. It is [None] when
    the run is faster than any timeout, and also when the exception arrives
    inside [detect_csv_duplicates] or [_read_day], whose handlers swallow
    it: the run goes on. *)
Record world := {
  ingest_main : option (Z * Z);
  dbt_snapshot : bool;
  dbt_run : bool;
  row_counts : bool;
  dbt_test : bool;
  con : connection;
  rebooking : option (list rebooking_row);
  booking_reliability : bool;
  timeout : option moment
}.

(** The arguments of the last call of [run_log.finish], with the warnings
    collected when it is made; [error] tells whether a message is passed. *)
Record finish := {
  status : string;
  new_users : Z;
  new_events : Z;
  dq_passed : bool;
  error : bool;
  warnings : list warning
}.

(** A call of [main]: rejected by [config.validate()] before anything is
    logged, or run, with the phases started, the log entry written and
    whether it returned (else it raised). A process ended by the hard kill
    of the timer is no result of [main]. *)
Inductive result :=
  | ConfigRejected (e : ValueError)
  | Ran (started : list phase) (logged : finish) (returned : bool).

(** The handler [except Exception]: the entry is finished as "failed" with
    the counters as they are, and the exception is raised again. *)
Definition failed (started : list phase) (nu ne : Z) (dqp : bool)
    (ws : list warning) : result :=
  Ran started
      {| status := "failed"; new_users := nu; new_events := ne;
         dq_passed := dqp; error := true; warnings := ws |}
      false.

(** The handler [except PipelineTimeoutError]: as above with the status
    "timeout". *)
Definition timed_out (started : list phase) (nu ne : Z) (dqp : bool)
    (ws : list warning) : result :=
  Ran started
      {| status := "timeout"; new_users := nu; new_events := ne;
         dq_passed := dqp; error := true; warnings := ws |}
      false.

Definition succeeded (started : list phase) (nu ne : Z) (dqp : bool)
    (ws : list warning) : result :=
  Ran started
      {| status := "success"; new_users := nu; new_events := ne;
         dq_passed := dqp; error := false; warnings := ws |}
      true.

(** [StepTimer(step_label, timeout_seconds=timeout)], where [timeout] is
    [None] unless [config.step_timeout_seconds > 0]: no watchdog is started
    without a timeout. *)
Definition timer (config : PipelineConfig) (w : world) : option moment :=
  if 0 <? step_timeout_seconds config then timeout w else None.

(** Whether the timer [t] strikes at an instant, for the instants without
    a count. *)
Definition strikes (t : option moment) (m : moment) : bool :=
  match t, m with
  | Some InPreflight, InPreflight
  | Some InIngest, InIngest
  | Some InTransform, InTransform
  | Some InChecks, InChecks
  | Some InRunChecks, InRunChecks
  | Some ChecksPassed, ChecksPassed
  | Some EnteringAnalysis, EnteringAnalysis
  | Some InAnalysis, InAnalysis => true
  | _, _ => false
  end.

(** Whether it strikes after [new_users] is assigned, and whether
    [new_events] is assigned by then. *)
Definition strikes_after_ingest (t : option moment) : option bool :=
  match t with
  | Some (AfterIngest events_assigned) => Some events_assigned
  | _ => None
  end.

(** Whether it strikes while the warnings of [run_checks] are added, and
    after how many. *)
Definition strikes_in_warnings (t : option moment) : option nat :=
  match t with
  | Some (InWarnings added) => Some added
  | _ => None
  end.

(** Whether it strikes once the rebooking query has returned, and after how
    many warnings of the sanity check. *)
Definition strikes_in_sanity (t : option moment) : option nat :=
  match t with
  | Some (InSanity added) => Some added
  | _ => None
  end.

(** Step 4 under the timer [t]; [dq_passed] is [True] when it is reached
    in mode "full", and set on the way to it in mode "analysis-only". *)
Definition step4 (full : bool) (t : option moment) (w : world)
    (started : list phase) (nu ne : Z) (ws : list warning) : result :=
  let started := started ++ [Analyse] in
  if strikes t EnteringAnalysis then timed_out started nu ne full ws
  else if strikes t InAnalysis then timed_out started nu ne true ws
  else
    match rebooking w with
    | None => failed started nu ne true ws
    | Some rows =>
        let sanity := rows ≫= sanity_check in
        match strikes_in_sanity t with
        | Some added => timed_out started nu ne true (ws ++ take added sanity)
        | None =>
            if booking_reliability w
            then succeeded started nu ne true (ws ++ sanity)
            else failed started nu ne true (ws ++ sanity)
        end
    end.

(** Steps 2 and 3, then step 4 in mode "full". *)
Definition steps23 (config : PipelineConfig) (full : bool)
    (t : option moment) (w : world) (started : list phase) (nu ne : Z)
  : result :=
  let started := started ++ [Transform] in
  if strikes t InTransform then timed_out started nu ne false []
  else if negb (dbt_snapshot w) then failed started nu ne false []
  else if negb (dbt_run w) then failed started nu ne false []
  else if negb (row_counts w) then failed started nu ne false []
  else
    let started := started ++ [Validate] in
    if strikes t InChecks then timed_out started nu ne false []
    else if negb (dbt_test w) then failed started nu ne false []
    else if strikes t InRunChecks then
      (* caught by [except Exception] in [run_checks], which raises a
         [DataQualityError] in its place *)
      failed started nu ne false []
    else
      match run_checks (con w) (Some config) with
      | inl _ => failed started nu ne false []
      | inr (failures, dq_warnings) =>
          let ws := DataQuality <$> dq_warnings in
          match strikes_in_warnings t with
          | Some added => timed_out started nu ne false (take added ws)
          | None =>
              match failures with
              | _ :: _ => failed started nu ne false ws
              | [] =>
                  if strikes t ChecksPassed
                  then timed_out started nu ne true ws
                  else if full then step4 true t w started nu ne ws
                  else succeeded started nu ne true ws
              end
          end
      end.

(** Step 1 up to the assignment of the counters, then [next]. *)
Definition step1 (t : option moment) (w : world)
    (next : Z → Z → result) : result :=
  if strikes t InPreflight then
    (* [ValueError] from [ingest_users] or [ingest_mentors] *)
    failed [Ingest] 0 0 false []
  else if strikes t InIngest then timed_out [Ingest] 0 0 false []
  else
    match ingest_main w with
    | None => failed [Ingest] 0 0 false []
    | Some (nu, ne) =>
        match strikes_after_ingest t with
        | Some events_assigned =>
            timed_out [Ingest] nu (if events_assigned then ne else 0) false []
        | None => next nu ne
        end
    end.

Definition main (config : PipelineConfig) (mode : string) (w : world)
  : result :=
  match validate config with
  | inl e => ConfigRejected e
  | inr _ =>
      let t := timer config w in
      if String.eqb mode "full" then
        step1 t w (λ nu ne, steps23 config true t w [Ingest] nu ne)
      else if String.eqb mode "ingest-only" then
        step1 t w (λ nu ne, succeeded [Ingest] nu ne false [])
      else if String.eqb mode "transform-only" then
        steps23 config false t w [] 0 0
      else if String.eqb mode "analysis-only" then
        step4 false t w [] 0 0 []
      else failed [] 0 0 false []   (* KeyError from [step_label[mode]] *)
  end.

End PipelineRun.
(** ** src/utils.py: [clean_history] *)
Module Cleanup.

(** The tables of the warehouse file: the raw layer, the tables the checks
    read, and [dim_users] (by its user ids). *)
Record warehouse_file := {
  raw : Ingest.warehouse;
  marts : Validate.database;
  dim_users : option (list Z)
}.

Definition _TABLES : list string :=
  ["fct_sessions"; "dim_users"; "dim_mentors";
   "raw_events"; "raw_users"; "raw_mentors"]%string.

(** [con.execute(f"DROP TABLE IF EXISTS {table}")]. *)
Definition drop_table_if_exists (table : string) (w : warehouse_file)
  : warehouse_file :=
  let r := raw w in
  let m := marts w in
  if String.eqb table "fct_sessions" then
    {| raw := r; dim_users := dim_users w;
       marts := {| Validate.fct_sessions := None;
                   Validate.fct_bookings := Validate.fct_bookings m;
                   Validate.dim_mentors := Validate.dim_mentors m |} |}
  else if String.eqb table "fct_bookings" then
    {| raw := r; dim_users := dim_users w;
       marts := {| Validate.fct_sessions := Validate.fct_sessions m;
                   Validate.fct_bookings := None;
                   Validate.dim_mentors := Validate.dim_mentors m |} |}
  else if String.eqb table "dim_mentors" then
    {| raw := r; dim_users := dim_users w;
       marts := {| Validate.fct_sessions := Validate.fct_sessions m;
                   Validate.fct_bookings := Validate.fct_bookings m;
                   Validate.dim_mentors := None |} |}
  else if String.eqb table "dim_users" then
    {| raw := r; dim_users := None; marts := m |}
  else if String.eqb table "raw_users" then
    {| raw := {| Ingest.raw_users := None;
                 Ingest.raw_mentors := Ingest.raw_mentors r;
                 Ingest.raw_events := Ingest.raw_events r |};
       dim_users := dim_users w; marts := m |}
  else if String.eqb table "raw_mentors" then
    {| raw := {| Ingest.raw_users := Ingest.raw_users r;
                 Ingest.raw_mentors := None;
                 Ingest.raw_events := Ingest.raw_events r |};
       dim_users := dim_users w; marts := m |}
  else if String.eqb table "raw_events" then
    {| raw := {| Ingest.raw_users := Ingest.raw_users r;
                 Ingest.raw_mentors := Ingest.raw_mentors r;
                 Ingest.raw_events := None |};
       dim_users := dim_users w; marts := m |}
  else w.

(** [clean_history(db_path)] on the tables of the file. *)
Definition clean_history (w : warehouse_file) : warehouse_file :=
  foldl (λ w table, drop_table_if_exists table w) w _TABLES.

End Cleanup.

(** ** config.py: [PipelineConfig.from_yaml] *)
Module ConfigYaml.
Import Config.

(** The parsed document as the loader reads it, key by key; [None] is a
    key that is missing (a section that is missing, null or empty has none
    of its keys). [window_days] may be present and null. *)
Record document := {
  d_environment : option string;             (* environment *)
  d_default_duration_minutes : option Z;     (* session.default_duration_minutes *)
  d_tiers_group_a : option (list string);    (* rebooking.tiers_group_a *)
  d_tiers_group_b : option (list string);    (* rebooking.tiers_group_b *)
  d_window_days : option (option Z);         (* rebooking.window_days *)
  d_max_orphan_rate : option float;          (* data_quality.max_orphan_rate *)
  d_max_duration_minutes : option Z;         (* data_quality.max_duration_minutes *)
  d_path : option string;                    (* database.path *)
  d_known_tiers : option (list string);      (* known_tiers *)
  d_step_timeout_seconds : option Z          (* guardrails.step_timeout_seconds *)
}.

(** [_env_paths.get(env)]. *)
Definition _env_paths (env : string) : option string :=
  if String.eqb env "dev" then Some "warehouse_dev.duckdb"%string
  else if String.eqb env "staging" then Some "warehouse_staging.duckdb"%string
  else if String.eqb env "prod" then Some "warehouse.duckdb"%string
  else None.

(** [from_yaml(path)]: [file] is the document at [path], [None] when
    [open] raises [FileNotFoundError]; an empty file is the document with
    no key. *)
Definition from_yaml (_YAML_AVAILABLE : bool) (file : option document)
  : PipelineConfig :=
  if negb _YAML_AVAILABLE then default_config
  else
    match file with
    | None => default_config
    | Some data =>
        let env := default "dev"%string (d_environment data) in
        let default_db := default "warehouse.duckdb"%string (_env_paths env) in
        {| environment := env;
           default_session_duration_minutes :=
             default 30 (d_default_duration_minutes data);
           tiers_group_a := default ["Gold"%string] (d_tiers_group_a data);
           tiers_group_b :=
             default ["Silver"%string; "Bronze"%string] (d_tiers_group_b data);
           rebooking_window_days := default (Some 30) (d_window_days data);
           dq_max_orphan_rate :=
             default 0x1.999999999999ap-5%float (d_max_orphan_rate data);
           dq_max_duration_minutes := default 240 (d_max_duration_minutes data);
           db_path := default default_db (d_path data);
           known_tiers :=
             default ["Gold"%string; "Silver"%string; "Bronze"%string]
               (d_known_tiers data);
           step_timeout_seconds := default 300 (d_step_timeout_seconds data) |}
    end.

End ConfigYaml.

(* ===================================================================== *)
(** * Part II. Properties *)
(* ===================================================================== *)

Section ConfigProperties.
Import Config Pipeline.

(** The four conditions the specification names as fatal. *)
Definition invalid_config (c : PipelineConfig) : Prop :=
  tiers_group_a c = [] ∨ tiers_group_b c = []
  ∨ (∃ t, t ∈ tiers_group_a c ∧ t ∈ tiers_group_b c)
  ∨ default_session_duration_minutes c <= 0
  ∨ (∃ w, rebooking_window_days c = Some w ∧ w <= 0).

Lemma overlap_nonempty (a b : list string) :
  (list_to_set a ∩ list_to_set b : gset string) ≠ ∅ ↔ ∃ t, t ∈ a ∧ t ∈ b.
Proof.
  split.
  - intros H. apply set_choose_L in H as [t Ht]. exists t. set_solver.
  - intros (t & Ha & Hb). apply (non_empty_inhabited_L t). set_solver.
Qed.

Lemma validate_raises_iff (c : PipelineConfig) :
  (∃ e, validate c = inl e) ↔ invalid_config c.
Proof.
  unfold validate, invalid_config. split.
  - intros [e He].
    case_bool_decide as Ha; [tauto|].
    case_bool_decide as Hb; [tauto|].
    case_bool_decide as Ho; [rewrite overlap_nonempty in Ho; tauto|].
    destruct (Z.leb_spec (default_session_duration_minutes c) 0); [tauto|].
    destruct (rebooking_window_days c) as [w|]; [|discriminate].
    destruct (Z.leb_spec w 0); [|discriminate].
    do 4 right. eauto.
  - intros H.
    case_bool_decide as Ha; [eauto|].
    case_bool_decide as Hb; [eauto|].
    case_bool_decide as Ho; [eauto|].
    destruct (Z.leb_spec (default_session_duration_minutes c) 0); [eauto|].
    destruct H as [?|[?|[Ht|[?|(w & Hw & ?)]]]]; try done; try lia.
    + apply overlap_nonempty in Ht. destruct (Ht Ho).
    + rewrite Hw. destruct (Z.leb_spec w 0); [eauto|lia].
Qed.

(** C6. [PipelineConfig.validate] raises a [ValueError] if and only if a
    tier group is empty, the two groups share a tier, the default session
    duration is not strictly positive, or a rebooking window is configured
    and not strictly positive ([None] is valid); and [main] validates before
    anything else: when validation raises, [main] ends in that error with no
    phase started, so every phase in a trace follows a successful
    validation. *)
Theorem validate_fatal_before_any_phase (c : PipelineConfig) (mode : string)
    (succeeds : phase → bool) :
  ((∃ e, validate c = inl e) ↔ invalid_config c)
  ∧ (∀ e, validate c = inl e → main c mode succeeds = ([], ConfigError e))
  ∧ (∀ p, p ∈ (main c mode succeeds).1 → validate c = inr ()).
Proof.
  split; [apply validate_raises_iff|]. split.
  - intros e He. unfold main. by rewrite He.
  - intros p. unfold main. destruct (validate c) as [e|[]]; [|done].
    simpl. by rewrite elem_of_nil.
Qed.

End ConfigProperties.

Section ValidateProperties.
Import Config Validate.

(** A count query ([fetchone()[0]]) that yields no number: the database
    raised, [execute] returned [None], there is no row, or the count is
    NULL. *)
Definition count_unanswered (q : executed (option (option Z))) : Prop :=
  q = ExecuteRaises ∨ q = ExecuteReturns None
  ∨ q = ExecuteReturns (Some FetchRaises)
  ∨ q = ExecuteReturns (Some (Fetches None))
  ∨ q = ExecuteReturns (Some (Fetches (Some None))).

(** The table probe fails only on a database error or a [None] result; a
    missing row or a zero count mean "no such table". *)
Definition probe_broken (q : executed (option (option Z))) : Prop :=
  q = ExecuteRaises ∨ q = ExecuteReturns None
  ∨ q = ExecuteReturns (Some FetchRaises).

Definition probe_true (q : executed (option (option Z))) : Prop :=
  ∃ n, q = ExecuteReturns (Some (Fetches (Some (Some n)))) ∧ n ≠ 0.

Definition orphans_unanswered
    (q : executed (option (option Z * option Z))) : Prop :=
  q = ExecuteRaises ∨ q = ExecuteReturns None
  ∨ q = ExecuteReturns (Some FetchRaises)
  ∨ q = ExecuteReturns (Some (Fetches None))
  ∨ ∃ t o, q = ExecuteReturns (Some (Fetches (Some (t, o))))
           ∧ (t = None ∨ o = None).

(** [fetchall()] is guarded by [rows if rows is not None else []]. *)
Definition rows_unanswered {A} (q : executed (option (list A))) : Prop :=
  q = ExecuteRaises ∨ q = ExecuteReturns None
  ∨ q = ExecuteReturns (Some FetchRaises).

Definition max_duration_of (config : option PipelineConfig) : Z :=
  match config with
  | Some c => dq_max_duration_minutes c
  | None => MAX_DURATION_MINS
  end.

(** The query plumbing is broken: one of the queries [run_checks] issues
    for this configuration comes back without the data it asks for. *)
Definition infrastructure_failure (con : connection)
    (config : option PipelineConfig) : Prop :=
  count_unanswered (q_negative_durations con)
  ∨ count_unanswered (q_duration_outliers con (max_duration_of config))
  ∨ probe_broken (q_table_count con "fct_bookings")
  ∨ (probe_true (q_table_count con "fct_bookings")
     ∧ orphans_unanswered (q_orphan_rate con))
  ∨ match config with
    | Some c =>
        let all_configured := tiers_group_a c ++ tiers_group_b c in
        all_configured ≠ []
        ∧ (rows_unanswered
             (q_existing_tiers con (escape_quotes <$> all_configured))
           ∨ rows_unanswered (q_available_tiers con))
    | None => False
    end.

Lemma count_unanswered_match q :
  count_unanswered q ↔
  match q with
  | ExecuteReturns (Some (Fetches (Some (Some _)))) => False
  | _ => True
  end.
Proof.
  unfold count_unanswered.
  destruct q as [|[[|[[n|]|]]|]]; intuition (discriminate || auto).
Qed.

Lemma probe_broken_match q :
  probe_broken q ↔
  match q with
  | ExecuteReturns (Some (Fetches _)) => False
  | _ => True
  end.
Proof.
  unfold probe_broken.
  destruct q as [|[[|?]|]]; intuition (discriminate || auto).
Qed.

Lemma probe_true_match q :
  probe_true q ↔
  match q with
  | ExecuteReturns (Some (Fetches (Some (Some n)))) => n ≠ 0
  | _ => False
  end.
Proof.
  unfold probe_true.
  destruct q as [|[[|[[n|]|]]|]]; split; try tauto;
    try (intros (k & Hk & _); discriminate).
  - intros (k & [= <-] & Hk). exact Hk.
  - intros Hn. exists n. auto.
Qed.

Lemma orphans_unanswered_match q :
  orphans_unanswered q ↔
  match q with
  | ExecuteReturns (Some (Fetches (Some (Some _, Some _)))) => False
  | _ => True
  end.
Proof.
  unfold orphans_unanswered.
  destruct q as [|[[|[[[t|] [o|]]|]]|]]; split; try tauto; auto 6.
  - intros [?|[?|[?|[?|(t' & o' & ? & [?|?])]]]]; simplify_eq.
  - intros _. do 4 right. exists (Some t), None. auto.
  - intros _. do 4 right. exists None, (Some o). auto.
  - intros _. do 4 right. exists None, None. auto.
Qed.

Lemma rows_unanswered_match {A} (q : executed (option (list A))) :
  rows_unanswered q ↔
  match q with
  | ExecuteReturns (Some (Fetches _)) => False
  | _ => True
  end.
Proof.
  unfold rows_unanswered.
  destruct q as [|[[|?]|]]; intuition (discriminate || auto).
Qed.

(** Closes one leaf of the case analysis of [run_checks]: either the run
    raised and the matching disjunct holds, or it returned and every
    disjunct is refuted by the shape of the answers. *)
Ltac run_checks_leaf :=
  simpl;
  split;
  [ first [ intros [? ?]; discriminate
          | intros _; solve [intuition (discriminate || auto)] ]
  | intros ?;
    first [ solve [eauto] | exfalso; solve [intuition (congruence || auto)] ] ].

(** Case analysis of Check 6 on the configured names and the answers of
    its two queries. *)
Ltac check6_cases con all_configured :=
  destruct all_configured as [|? ?]; [solve [run_checks_leaf]|];
  destruct (q_existing_tiers con _) as [|[[|[?|]]|]];
    try solve [run_checks_leaf];
  destruct (q_available_tiers con) as [|[[|[?|]]|]];
    try solve [run_checks_leaf];
  simpl;
  match goal with |- context [filter ?P ?l] => destruct (filter P l) end;
  solve [run_checks_leaf].

(** Case analysis of Check 5 once the table probe said "exists". *)
Ltac check5_cases con tail :=
  destruct (q_orphan_rate con) as [|[[|[[[tb|] [oc|]]|]]|]];
    try solve [run_checks_leaf];
  simpl; destruct (0 <? tb); simpl;
  [ destruct (PrimFloat.ltb _ _); simpl; tail | tail ].

Lemma run_checks_raises_iff con config :
  (∃ e, run_checks con config = inl e) ↔ infrastructure_failure con config.
Proof.
  unfold run_checks, infrastructure_failure, _table_exists.
  fold (max_duration_of config).
  rewrite !count_unanswered_match, probe_broken_match, probe_true_match,
    orphans_unanswered_match.
  assert (Hrows :
    match config with
    | Some c =>
        let all_configured := tiers_group_a c ++ tiers_group_b c in
        all_configured ≠ []
        ∧ (rows_unanswered
             (q_existing_tiers con (escape_quotes <$> all_configured))
           ∨ rows_unanswered (q_available_tiers con))
    | None => False
    end ↔
    match config with
    | Some c =>
        let all_configured := tiers_group_a c ++ tiers_group_b c in
        all_configured ≠ []
        ∧ (match q_existing_tiers con (escape_quotes <$> all_configured) with
           | ExecuteReturns (Some (Fetches _)) => False
           | _ => True
           end
           ∨ match q_available_tiers con with
             | ExecuteReturns (Some (Fetches _)) => False
             | _ => True
             end)
    | None => False
    end).
  { destruct config; [|tauto]. simpl. rewrite !rows_unanswered_match. tauto. }
  rewrite Hrows. clear Hrows.
  destruct (q_negative_durations con) as [|[[|[[n1|]|]]|]];
    try solve [run_checks_leaf].
  destruct (q_duration_outliers con (max_duration_of config))
    as [|[[|[[n4|]|]]|]]; try solve [run_checks_leaf].
  destruct config as [c|]; simpl.
  - remember (tiers_group_a c ++ tiers_group_b c) as all_configured.
    clear Heqall_configured.
    destruct (q_table_count con "fct_bookings") as [|[[|[[nb|]|]]|]];
      try solve [run_checks_leaf]; simpl.
    + destruct (Z.eqb_spec nb 0); simpl.
      * check6_cases con all_configured.
      * check5_cases con ltac:(check6_cases con all_configured).
    + check6_cases con all_configured.
    + check6_cases con all_configured.
  - destruct (q_table_count con "fct_bookings") as [|[[|[[nb|]|]]|]];
      try solve [run_checks_leaf]; simpl.
    destruct (Z.eqb_spec nb 0); simpl.
    + run_checks_leaf.
    + check5_cases con ltac:(run_checks_leaf).
Qed.

(** A count query answered with the number [n]. *)
Definition answers {A} (q : executed (option A)) (a : A) : Prop :=
  q = ExecuteReturns (Some (Fetches (Some a))).

(** The connection [con] with the two tier queries of Check 6 replaced. *)
Definition with_tier_queries (con : connection)
    (qe : list string → executed (option (list (option string))))
    (qa : executed (option (list (option string)))) : connection := {|
  q_negative_durations := q_negative_durations con;
  q_duration_outliers := q_duration_outliers con;
  q_table_count := q_table_count con;
  q_orphan_rate := q_orphan_rate con;
  q_existing_tiers := qe;
  q_available_tiers := qa
|}.

Lemma run_checks_no_config_tier_queries con qe qa :
  run_checks (with_tier_queries con qe qa) None = run_checks con None.
Proof. reflexivity. Qed.

Lemma run_checks_no_config_returns con fs ws :
  run_checks con None = inr (fs, ws) →
  (∀ m a, FailCheck6 m a ∉ fs)
  ∧ (∀ n m, WarnCheck4 n m ∈ ws ↔
       answers (q_duration_outliers con 240) (Some n) ∧ 0 < n ∧ m = 240)
  ∧ (∀ o t r th, WarnCheck5 o t r th ∈ ws ↔
       probe_true (q_table_count con "fct_bookings")
       ∧ answers (q_orphan_rate con) (Some t, Some o)
       ∧ 0 < t ∧ r = true_div o t
       ∧ th = DEFAULT_ORPHAN_THRESHOLD
       ∧ PrimFloat.ltb th r = true).
Proof.
  unfold run_checks, _table_exists, answers, MAX_DURATION_MINS.
  setoid_rewrite probe_true_match.
  destruct (q_negative_durations con) as [|[[|[[n1|]|]]|]]; try discriminate.
  destruct (q_duration_outliers con 240) as [|[[|[[n4|]|]]|]];
    try discriminate.
  simpl.
  destruct (q_table_count con "fct_bookings") as [|[[|[[nb|]|]]|]];
    try discriminate; simpl.
  1: destruct (Z.eqb_spec nb 0); simpl.
  2: destruct (q_orphan_rate con) as [|[[|[[[tb|] [oc|]]|]]|]];
       try discriminate; simpl;
     destruct (Z.ltb_spec 0 tb); simpl;
     [destruct (PrimFloat.ltb DEFAULT_ORPHAN_THRESHOLD (true_div oc tb)) eqn:Hlt|];
     simpl.
  all: intros [= <- <-].
  all: destruct (Z.ltb_spec 0 n1); destruct (Z.ltb_spec 0 n4).
  all: split; [|split]; intros; [intros Hin|split; intros Hin..].
  all: rewrite ?elem_of_app, ?elem_of_cons, ?elem_of_nil in *.
  all: solve [intuition (simplify_eq; auto; first [lia | congruence])].
Qed.

(** [fetchall()] through [safe_fetchall] yields [rows]. *)
Definition fetched_all {A} (q : executed (option (list A))) (rows : list A)
  : Prop :=
  q = ExecuteReturns (Some (Fetches (Some rows)))
  ∨ (q = ExecuteReturns (Some (Fetches None)) ∧ rows = []).

(** What Check 6 adds to the failures, from the answers of its queries. *)
Definition check6_failures (existing available : list (option string))
    (all_configured : list string) : list message :=
  let missing_tiers := filter (λ t, Some t ∉ existing) all_configured in
  match missing_tiers with
  | [] => []
  | _ :: _ => [FailCheck6 missing_tiers available]
  end.

Lemma run_checks_config_failures con c fs ws :
  tiers_group_a c ++ tiers_group_b c ≠ [] →
  run_checks con (Some c) = inr (fs, ws) →
  ∃ n1 existing available,
    answers (q_negative_durations con) (Some n1)
    ∧ fetched_all (q_existing_tiers con
        (escape_quotes <$> tiers_group_a c ++ tiers_group_b c)) existing
    ∧ fetched_all (q_available_tiers con) available
    ∧ fs = (if 0 <? n1 then [FailCheck1 n1] else [])
           ++ check6_failures existing available
                (tiers_group_a c ++ tiers_group_b c).
Proof.
  unfold run_checks, _table_exists, answers, fetched_all, check6_failures.
  intros Hne.
  remember (tiers_group_a c ++ tiers_group_b c) as all_configured.
  clear Heqall_configured.
  destruct all_configured as [|t0 ts]; [done|]. clear Hne.
  cbv beta iota zeta.
  remember (t0 :: ts) as all_configured. clear Heqall_configured t0 ts.
  destruct (q_negative_durations con) as [|[[|[[n1|]|]]|]]; try discriminate.
  destruct (q_duration_outliers con _) as [|[[|[[n4|]|]]|]];
    try discriminate.
  simpl.
  assert (Hcheck6 : ∀ warnings : list message,
    (failures ←
       (result ← execute (q_existing_tiers con (escape_quotes <$> all_configured));
        existing ← safe_fetchall result "Check 6: existing tiers";
        result0 ← execute (q_available_tiers con);
        available ← safe_fetchall result0 "Check 6: available tiers";
        match filter (λ t, Some t ∉ existing) all_configured with
        | [] => mret (if 0 <? n1 then [FailCheck1 n1] else [])
        | _ :: _ =>
            mret ((if 0 <? n1 then [FailCheck1 n1] else [])
                  ++ [FailCheck6 (filter (λ t, Some t ∉ existing) all_configured)
                        available])
        end);
     mret (failures, warnings)) = inr (fs, ws) →
    ∃ n0 existing available,
      ExecuteReturns (Some (Fetches (Some (Some n1))))
        = ExecuteReturns (Some (Fetches (Some (Some n0))))
      ∧ fetched_all (q_existing_tiers con (escape_quotes <$> all_configured)) existing
      ∧ fetched_all (q_available_tiers con) available
      ∧ fs = (if 0 <? n0 then [FailCheck1 n0] else [])
             ++ match filter (λ t, Some t ∉ existing) all_configured with
                | [] => []
                | _ :: _ =>
                    [FailCheck6 (filter (λ t, Some t ∉ existing) all_configured)
                       available]
                end).
  { intros warnings. unfold fetched_all.
    destruct (q_existing_tiers con _) as [|[[|[ex|]]|]]; try discriminate;
    destruct (q_available_tiers con) as [|[[|[av|]]|]]; try discriminate;
    cbv beta iota delta [mbind sum_bind execute safe_fetchall mret sum_ret].
    all: match goal with
         | |- context [filter ?P ?l] => destruct (filter P l) eqn:Hmissing
         end; simpl; intros [= <- <-].
    all: eexists n1, _, _; split; [reflexivity|].
    all: split; [first [left; reflexivity | right; split; reflexivity]|].
    all: split; [first [left; reflexivity | right; split; reflexivity]|].
    all: rewrite Hmissing, ?app_nil_r; reflexivity. }
  destruct (q_table_count con "fct_bookings") as [|[[|[[nb|]|]]|]];
    try discriminate; simpl; try apply Hcheck6.
  destruct (negb (nb =? 0)); simpl; try apply Hcheck6.
  destruct (q_orphan_rate con) as [|[[|[[[tb|] [oc|]]|]]|]];
    try discriminate; simpl.
  destruct (0 <? tb); simpl; try apply Hcheck6.
  destruct (PrimFloat.ltb _ _); simpl; apply Hcheck6.
Qed.

Lemma sql_literal_value_cons c rest :
  sql_literal_value (String c rest) =
  match rest with
  | String c' rest' =>
      if Ascii.eqb c "'"%char && Ascii.eqb c' "'"%char
      then String "'"%char (sql_literal_value rest')
      else String c (sql_literal_value rest)
  | EmptyString => String c EmptyString
  end.
Proof. destruct rest; reflexivity. Qed.

Lemma sql_literal_value_escape_quotes t :
  sql_literal_value (escape_quotes t) = t.
Proof.
  induction t as [|c rest IH]; [done|].
  cbn [escape_quotes]. destruct (Ascii.eqb c "'"%char) eqn:Hc.
  - apply Ascii.eqb_eq in Hc as ->.
    rewrite sql_literal_value_cons. cbn [Ascii.eqb andb]. simpl. by rewrite IH.
  - rewrite sql_literal_value_cons, Hc, IH.
    destruct (escape_quotes rest) eqn:Hesc; [|done].
    simpl in IH. by rewrite <- IH.
Qed.

(** The [IN] list built from the escaped names denotes the configured
    names themselves. *)
Lemma in_list_denotes_configured (all_configured : list string) :
  sql_literal_value <$> (escape_quotes <$> all_configured) = all_configured.
Proof.
  induction all_configured as [|t ts IH]; [done|].
  cbn [fmap list_fmap]. rewrite sql_literal_value_escape_quotes.
  f_equal. exact IH.
Qed.

Lemma fetched_all_from_table {R A} (table : option (list R))
    (f : list R → option (list A)) rows :
  fetched_all (from_table table f) rows →
  ∃ r, table = Some r ∧ (f r = Some rows ∨ (f r = None ∧ rows = [])).
Proof.
  unfold fetched_all, from_table. destruct table as [r|].
  - intros [[= H]|[[= H] ->]]; eauto.
  - intros [?|[? _]]; discriminate.
Qed.

Lemma elem_of_check6_failures existing available all_configured m a :
  FailCheck6 m a ∈ check6_failures existing available all_configured ↔
  m = filter (λ t, Some t ∉ existing) all_configured ∧ m ≠ [] ∧ a = available.
Proof.
  unfold check6_failures. cbv zeta.
  destruct (filter (λ t, Some t ∉ existing) all_configured) as [|t0 ts].
  - rewrite elem_of_nil. naive_solver.
  - rewrite list_elem_of_singleton. naive_solver.
Qed.

Lemma elem_of_check1_check6 (n1 : Z) l m a :
  FailCheck6 m a ∈ (if 0 <? n1 then [FailCheck1 n1] else []) ++ l ↔
  FailCheck6 m a ∈ l.
Proof.
  rewrite elem_of_app. destruct (0 <? n1).
  - rewrite list_elem_of_singleton. naive_solver.
  - rewrite elem_of_nil. naive_solver.
Qed.

(** On a warehouse, the tiers Check 6 reports missing are the configured
    names that no row of [dim_mentors] carries, and the tiers it reports
    available are those of the table. *)
Lemma run_checks_duckdb_check6 db c fs ws :
  tiers_group_a c ++ tiers_group_b c ≠ [] →
  run_checks (duckdb db) (Some c) = inr (fs, ws) →
  ∃ rows missing available,
    dim_mentors db = Some rows
    ∧ (∀ t, t ∈ missing ↔ (t ∈ tiers_group_a c ++ tiers_group_b c)
                           ∧ Some t ∉ rows)
    ∧ (∀ x, x ∈ available ↔ x ∈ rows)
    ∧ ∀ m a, FailCheck6 m a ∈ fs ↔ m = missing ∧ m ≠ [] ∧ a = available.
Proof.
  intros Hne Hrun.
  destruct (run_checks_config_failures _ _ _ _ Hne Hrun)
    as (n1 & existing & available & _ & Hex & Hav & ->).
  apply fetched_all_from_table in Hex as (rows & Hrows & [[= Hex]|[? _]]);
    [|done].
  apply fetched_all_from_table in Hav as (rows' & Hrows' & [[= Hav]|[? _]]);
    [|done].
  simpl in Hrows, Hrows'. rewrite Hrows in Hrows'. injection Hrows' as <-.
  exists rows, (filter (λ t, Some t ∉ existing) (tiers_group_a c ++ tiers_group_b c)),
    available.
  split; [done|]. split; [|split].
  - intros t. rewrite list_elem_of_filter, <- Hex.
    rewrite elem_of_remove_dups, list_elem_of_filter. unfold sql_in.
    rewrite in_list_denotes_configured.
    destruct (decide (t ∈ tiers_group_a c ++ tiers_group_b c)) as [Hin|Hin].
    + rewrite bool_decide_eq_true_2 by done. naive_solver.
    + naive_solver.
  - intros x. rewrite <- Hav, merge_sort_Permutation, elem_of_remove_dups. done.
  - intros m a. rewrite elem_of_check1_check6, elem_of_check6_failures. done.
Qed.

(** The orphan-rate threshold of a run. *)
Definition orphan_threshold_of (config : option PipelineConfig) : float :=
  match config with
  | Some c => dq_max_orphan_rate c
  | None => DEFAULT_ORPHAN_THRESHOLD
  end.

Ltac returned_lists_leaf :=
  cbv beta iota delta [mbind sum_bind execute safe_fetchall safe_fetchone
                       not_none mret sum_ret fst snd];
  intros [= <- <-];
  split_and!; intros;
  rewrite ?elem_of_app, ?elem_of_cons, ?elem_of_nil in *;
  solve [intuition (simplify_eq; eauto; first [lia | congruence | discriminate])].

Ltac returned_lists_check6 con config :=
  destruct config as [c|]; [|solve [returned_lists_leaf]];
  cbv beta iota zeta;
  destruct (tiers_group_a c ++ tiers_group_b c) as [|t0 ts];
    [solve [returned_lists_leaf]|];
  destruct (q_existing_tiers con _) as [|[[|[ex|]]|]]; try discriminate;
  destruct (q_available_tiers con) as [|[[|[av|]]|]]; try discriminate;
  cbv beta iota delta [mbind sum_bind execute safe_fetchall mret sum_ret];
  match goal with
  | |- context [filter ?P ?l] => destruct (filter P l) eqn:Hmissing
  end;
  solve [returned_lists_leaf].

(** What is in the lists of a returning [run_checks], check by check. *)
Lemma run_checks_returned_lists con config fs ws :
  run_checks con config = inr (fs, ws) →
  (∀ n, FailCheck1 n ∈ fs ↔
     answers (q_negative_durations con) (Some n) ∧ 0 < n)
  ∧ (∀ n m, WarnCheck4 n m ∈ ws ↔
       answers (q_duration_outliers con (max_duration_of config)) (Some n)
       ∧ 0 < n ∧ m = max_duration_of config)
  ∧ (∀ o t r th, WarnCheck5 o t r th ∈ ws ↔
       probe_true (q_table_count con "fct_bookings")
       ∧ answers (q_orphan_rate con) (Some t, Some o)
       ∧ 0 < t ∧ r = true_div o t
       ∧ th = orphan_threshold_of config
       ∧ PrimFloat.ltb th r = true)
  ∧ (∀ m a, FailCheck6 m a ∈ fs →
       match config with
       | Some c => tiers_group_a c ++ tiers_group_b c ≠ []
       | None => False
       end)
  ∧ (∀ x, x ∈ fs →
       (∃ n, x = FailCheck1 n) ∨ ∃ m a, x = FailCheck6 m a)
  ∧ (∀ x, x ∈ ws →
       (∃ n m, x = WarnCheck4 n m) ∨ ∃ o t r th, x = WarnCheck5 o t r th).
Proof.
  unfold run_checks, _table_exists, answers, max_duration_of,
    orphan_threshold_of.
  setoid_rewrite probe_true_match.
  set (max_duration_mins :=
         match config with
         | Some c => dq_max_duration_minutes c
         | None => MAX_DURATION_MINS
         end).
  set (threshold :=
         match config with
         | Some c => dq_max_orphan_rate c
         | None => DEFAULT_ORPHAN_THRESHOLD
         end).
  destruct (q_negative_durations con) as [|[[|[[n1|]|]]|]]; try discriminate.
  destruct (q_duration_outliers con max_duration_mins)
    as [|[[|[[n4|]|]]|]]; try discriminate.
  clearbody max_duration_mins.
  cbv beta iota delta [mbind sum_bind execute safe_fetchone not_none].
  destruct (Z.ltb_spec 0 n1); destruct (Z.ltb_spec 0 n4).
  all: destruct (q_table_count con "fct_bookings") as [|[[|[[nb|]|]]|]];
    try discriminate; cbv beta iota.
  all: try (destruct (Z.eqb_spec nb 0); cbn [negb]; cbv beta iota).
  all: try (destruct (q_orphan_rate con) as [|[[|[[[tb|] [oc|]]|]]|]];
              try discriminate; cbv beta iota delta [fst snd];
            destruct (Z.ltb_spec 0 tb); cbv beta iota;
            [destruct (PrimFloat.ltb threshold (true_div oc tb)) eqn:Hlt;
             cbv beta iota|]).
  all: clearbody threshold.
  all: returned_lists_check6 con config.
Qed.

Lemma fetched_all_unique {A} (q : executed (option (list A))) rows1 rows2 :
  fetched_all q rows1 → fetched_all q rows2 → rows1 = rows2.
Proof. unfold fetched_all. intuition congruence. Qed.

(** C4. [run_checks] raises [DataQualityError] exactly when the query
    plumbing is broken: a query it issues raises a database error, returns
    [None], has no row, or has a NULL where a count is read (the table probe
    of Check 5 tolerates a missing row, and [fetchall] a [None] list, by
    their own guards). Otherwise it returns the pair [(failures, warnings)],
    and the violations are in the lists, whatever the counts are: the
    failures hold the Check 1 message exactly when the count of negative
    durations is positive, and the Check 6 message exactly when a
    configured tier is not among the existing ones, with the missing tiers
    and the available ones; the warnings hold the Check 4 message exactly
    when the count of outliers is positive, and the Check 5 message exactly
    when [fct_bookings] exists, has rows and its orphan rate is above the
    threshold; and the lists hold nothing else. *)
Theorem run_checks_raises_only_on_infrastructure con config :
  ((∃ e, run_checks con config = inl e) ↔ infrastructure_failure con config)
  ∧ (¬ infrastructure_failure con config ↔
     ∃ failures warnings, run_checks con config = inr (failures, warnings))
  ∧ ∀ failures warnings,
      run_checks con config = inr (failures, warnings) →
      (∀ n, FailCheck1 n ∈ failures ↔
         answers (q_negative_durations con) (Some n) ∧ 0 < n)
      ∧ (∀ m a, FailCheck6 m a ∈ failures ↔
           ∃ c existing,
             config = Some c
             ∧ fetched_all
                 (q_existing_tiers con
                    (escape_quotes <$> tiers_group_a c ++ tiers_group_b c))
                 existing
             ∧ fetched_all (q_available_tiers con) a
             ∧ m = filter (λ t, Some t ∉ existing)
                     (tiers_group_a c ++ tiers_group_b c)
             ∧ m ≠ [])
      ∧ (∀ n m, WarnCheck4 n m ∈ warnings ↔
           answers (q_duration_outliers con (max_duration_of config)) (Some n)
           ∧ 0 < n ∧ m = max_duration_of config)
      ∧ (∀ o t r th, WarnCheck5 o t r th ∈ warnings ↔
           probe_true (q_table_count con "fct_bookings")
           ∧ answers (q_orphan_rate con) (Some t, Some o)
           ∧ 0 < t ∧ r = true_div o t
           ∧ th = orphan_threshold_of config
           ∧ PrimFloat.ltb th r = true)
      ∧ (∀ x, x ∈ failures →
           (∃ n, x = FailCheck1 n) ∨ ∃ m a, x = FailCheck6 m a)
      ∧ (∀ x, x ∈ warnings →
           (∃ n m, x = WarnCheck4 n m)
           ∨ ∃ o t r th, x = WarnCheck5 o t r th).
Proof.
  pose proof (run_checks_raises_iff con config) as Hiff.
  split; [exact Hiff|]. split.
  { rewrite <- Hiff.
    destruct (run_checks con config) as [e|[failures warnings]]; split.
    - intros H. destruct H. eauto.
    - intros (? & ? & ?). discriminate.
    - eauto.
    - intros _ [e ?]. discriminate. }
  intros fs ws Hrun.
  destruct (run_checks_returned_lists con config fs ws Hrun)
    as (H1 & H4 & H5 & H6 & Hfs & Hws).
  split; [exact H1|]. split; [|by split_and!].
  intros m a. split.
  - intros Hin. pose proof (H6 m a Hin) as Hcfg.
    destruct config as [c|]; [|done].
    destruct (run_checks_config_failures con c fs ws Hcfg Hrun)
      as (n1 & existing & available & _ & Hex & Hav & ->).
    apply elem_of_check1_check6, elem_of_check6_failures in Hin
      as (-> & Hne & ->).
    by exists c, existing.
  - intros (c & existing & -> & Hex & Hav & -> & Hne).
    assert (tiers_group_a c ++ tiers_group_b c ≠ []) as Hcfg.
    { intros Hnil. apply Hne. by rewrite Hnil. }
    destruct (run_checks_config_failures con c fs ws Hcfg Hrun)
      as (n1 & existing' & available & _ & Hex' & Hav' & ->).
    rewrite (fetched_all_unique _ _ _ Hex Hex') in *.
    rewrite (fetched_all_unique _ _ _ Hav Hav').
    apply elem_of_check1_check6, elem_of_check6_failures. done.
Qed.

(** On a warehouse that has [fct_sessions] and [dim_mentors], and whose
    [fct_bookings] is absent or has rows, every query is answered and
    [run_checks] returns. *)
Lemma run_checks_duckdb_returns db config sessions mentors :
  fct_sessions db = Some sessions → dim_mentors db = Some mentors →
  fct_bookings db ≠ Some [] →
  ∃ failures warnings, run_checks (duckdb db) config = inr (failures, warnings).
Proof.
  intros Hs Hm Hb.
  assert (¬ infrastructure_failure (duckdb db) config) as Hno.
  { unfold infrastructure_failure.
    rewrite !count_unanswered_match, probe_broken_match, probe_true_match,
      orphans_unanswered_match.
    unfold duckdb, from_table, table_names. cbn -[count String.eqb].
    rewrite Hs, Hm. cbn -[count String.eqb].
    destruct (fct_bookings db) as [[|b bookings]|]; [done|..].
    all: cbn -[count String.eqb].
    all: destruct config as [c|]; [|tauto].
    all: unfold rows_unanswered; intuition discriminate. }
  destruct (run_checks (duckdb db) config) as [e|[fs ws]] eqn:Hrun; [|eauto].
  destruct Hno. apply run_checks_raises_iff. eauto.
Qed.

(** C5. With at least one tier configured, on any warehouse on which
    [run_checks] returns, Check 6 adds a failure if and only if some
    configured tier (group A or B) is not a tier of [dim_mentors]; the
    failure names exactly the missing configured tiers and lists exactly
    the tiers present in the table. *)
Theorem check6_fails_iff_configured_tier_missing db c fs ws :
  tiers_group_a c ++ tiers_group_b c ≠ [] →
  run_checks (duckdb db) (Some c) = inr (fs, ws) →
  ∃ rows,
    dim_mentors db = Some rows
    ∧ ((∃ m a, FailCheck6 m a ∈ fs) ↔
       ∃ t, t ∈ tiers_group_a c ++ tiers_group_b c ∧ Some t ∉ rows)
    ∧ ∀ m a, FailCheck6 m a ∈ fs →
        (∀ t, t ∈ m ↔ t ∈ tiers_group_a c ++ tiers_group_b c ∧ Some t ∉ rows)
        ∧ (∀ x, x ∈ a ↔ x ∈ rows).
Proof.
  intros Hne Hrun.
  destruct (run_checks_duckdb_check6 _ _ _ _ Hne Hrun)
    as (rows & missing & available & Hrows & Hmissing & Havailable & Hfs).
  exists rows. split; [done|]. split.
  - split.
    + intros (m & a & Hin). apply Hfs in Hin as (-> & Hm & _).
      destruct missing as [|t ts]; [done|].
      exists t. apply Hmissing. left.
    + intros (t & Ht). apply Hmissing in Ht.
      exists missing, available. apply Hfs.
      split; [done|]. split; [|done]. intros ->. by apply elem_of_nil in Ht.
  - intros m a Hin. apply Hfs in Hin as (-> & _ & ->). done.
Qed.

(** The warehouse of the test suite ([_seed_clean_db]): tiers Gold and
    Silver, three sessions, no bookings table. *)
Definition seeded_db : database := {|
  fct_sessions := Some [Some 30; Some 45; Some 30];
  fct_bookings := None;
  dim_mentors := Some [Some "Gold"%string; Some "Silver"%string]
|}.

(** [PipelineConfig(tiers_group_a=["Diamond"], tiers_group_b=["Silver"])]. *)
Definition diamond_config : PipelineConfig := {|
  default_session_duration_minutes := 30;
  tiers_group_a := ["Diamond"%string];
  tiers_group_b := ["Silver"%string];
  rebooking_window_days := Some 30;
  dq_max_orphan_rate := DEFAULT_ORPHAN_THRESHOLD;
  dq_max_duration_minutes := 240;
  environment := "dev";
  db_path := "warehouse.duckdb";
  known_tiers := ["Gold"%string; "Silver"%string; "Bronze"%string];
  step_timeout_seconds := 300
|}.

Lemma check6_fails_iff_configured_tier_missing_witness :
  run_checks (duckdb seeded_db) (Some diamond_config)
  = inr ([FailCheck6 ["Diamond"%string] [Some "Gold"%string; Some "Silver"%string]], [])
  ∧ ∃ rows,
    dim_mentors seeded_db = Some rows
    ∧ ((∃ m a, FailCheck6 m a
          ∈ [FailCheck6 ["Diamond"%string] [Some "Gold"%string; Some "Silver"%string]]) ↔
       ∃ t, t ∈ ["Diamond"%string; "Silver"%string] ∧ Some t ∉ rows)
    ∧ ∀ m a, FailCheck6 m a
          ∈ [FailCheck6 ["Diamond"%string] [Some "Gold"%string; Some "Silver"%string]] →
        (∀ t, t ∈ m ↔ t ∈ ["Diamond"%string; "Silver"%string] ∧ Some t ∉ rows)
        ∧ (∀ x, x ∈ a ↔ x ∈ rows).
Proof.
  split; [vm_compute; reflexivity|].
  apply (check6_fails_iff_configured_tier_missing seeded_db diamond_config _ []).
  - discriminate.
  - vm_compute; reflexivity.
Defined.

(** C10. Without a configuration Check 6 is skipped: the returned failures
    hold no Check 6 entry and the result does not depend on the tier
    queries at all; the outlier count is the one of the query at 240
    minutes, and the orphan rate is compared with 0.05. *)
Theorem run_checks_without_config con fs ws :
  run_checks con None = inr (fs, ws) →
  (∀ m a, FailCheck6 m a ∉ fs)
  ∧ (∀ qe qa, run_checks (with_tier_queries con qe qa) None = inr (fs, ws))
  ∧ (∀ n m, WarnCheck4 n m ∈ ws ↔
       answers (q_duration_outliers con 240) (Some n) ∧ 0 < n ∧ m = 240)
  ∧ (∀ o t r th, WarnCheck5 o t r th ∈ ws ↔
       probe_true (q_table_count con "fct_bookings")
       ∧ answers (q_orphan_rate con) (Some t, Some o)
       ∧ 0 < t ∧ r = true_div o t
       ∧ th = 0x1.999999999999ap-5%float
       ∧ PrimFloat.ltb th r = true).
Proof.
  intros Hrun.
  destruct (run_checks_no_config_returns _ _ _ Hrun) as (H6 & H4 & H5).
  split; [exact H6|]. split; [|split; [exact H4|exact H5]].
  intros qe qa. by rewrite run_checks_no_config_tier_queries.
Qed.

(** A warehouse with a 300-minute session, a negative duration, two
    bookings one of which is an orphan, and no [dim_mentors]. *)
Definition drifted_db : database := {|
  fct_sessions := Some [Some 300; Some (-5); Some 30];
  fct_bookings := Some [Some true; Some false];
  dim_mentors := None
|}.

Lemma run_checks_without_config_witness :
  run_checks (duckdb drifted_db) None
  = inr ([FailCheck1 1],
         [WarnCheck4 1 240;
          WarnCheck5 1 2 (true_div 1 2) 0x1.999999999999ap-5%float])
  ∧ (∀ m a, FailCheck6 m a ∉ [FailCheck1 1]).
Proof.
  split; [vm_compute; reflexivity|].
  refine (proj1 (run_checks_without_config (duckdb drifted_db) [FailCheck1 1]
    [WarnCheck4 1 240;
     WarnCheck5 1 2 (true_div 1 2) 0x1.999999999999ap-5%float] _)).
  vm_compute; reflexivity.
Defined.

(** On a warehouse whose [fct_bookings] exists and is empty, [COUNT] is 0
    but [SUM] is NULL, so Check 5 raises on the NULL before it reaches its
    "table is empty" branch. *)
Example run_checks_empty_bookings :
  run_checks
    (duckdb {| fct_sessions := Some [Some 30];
               fct_bookings := Some [];
               dim_mentors := Some [Some "Gold"%string] |})
    None
  = inl (NullValue "Check 5").
Proof. vm_compute. reflexivity. Qed.

End ValidateProperties.

Section WilsonProperties.
Import Wilson.

(** The interval as the specification writes it: the upper end clamped to
    the proportion 1 before scaling to a percentage. *)
Definition wilson_ci_spec (k n : Z) (z : float) : ValueError + (float * float) :=
  if n =? 0 then inr (0, 0)%float
  else
    let p := (int_to_float k / int_to_float n)%float in
    let denom := (1 + z * z / int_to_float n)%float in
    let centre := ((p + z * z / int_to_float (2 * n)) / denom)%float in
    match math_sqrt (p * (1 - p) / int_to_float n
                     + z * z / int_to_float (4 * n ^ 2))%float with
    | inl e => inl e
    | inr root =>
        let margin := (z * root / denom)%float in
        inr ((py_max 0 (centre - margin) * 100)%float,
             (py_min 1 (centre + margin) * 100)%float)
    end.

Lemma wilson_ci_zero_trials k z : _wilson_ci k 0 z = inr (0, 0)%float.
Proof. reflexivity. Qed.

(** C3, at [k = n = 5]: [_wilson_ci] clamps [centre + margin] with
    [min(100.0, ...)] before multiplying by 100, so the clamp never applies
    to a proportion; the rounded sum is just above 1 and the returned upper
    bound is 100.00000000000003, above 100.0, where the interval of the
    specification is 100.0. *)
Theorem wilson_ci_upper_above_100 :
  _wilson_ci 5 5 z_default
    = inr (0x1.c4682451e7b9bp+5, 0x1.9000000000002p+6)%float
  ∧ PrimFloat.leb 0x1.9000000000002p+6 100 = false
  ∧ wilson_ci_spec 5 5 z_default = inr (0x1.c4682451e7b9bp+5, 100)%float.
Proof. repeat split; vm_compute; reflexivity. Qed.

End WilsonProperties.

Section UtilsProperties.
Import Utils.

Lemma watchdog_disabled self done_at start :
  truthy (_timeout self) = false → _watchdog self done_at start = [].
Proof.
  unfold truthy, _watchdog. destruct (_timeout self) as [t|]; [|done].
  destruct (t =? 0); [done|discriminate].
Qed.

Lemma wait_finished_in_time t now timeout :
  t < now + timeout → wait (Some t) now timeout = (true, Z.max now t).
Proof.
  intros Hlt. unfold wait. destruct (Z.ltb_spec t (now + timeout)); [done|lia].
Qed.

(** C8. With a timeout of zero or none, entering the guard starts no
    watcher thread and nothing is ever delivered to the step; and when the
    step completes ([__exit__] sets the event at [t]) before the deadline
    [entered_at + timeout], the watcher's first wait returns true and it
    sends neither the soft kill nor the hard kill. *)
Theorem step_timer_stands_down timeout_seconds thread entered_at lag done_at :
  (timeout_seconds = None ∨ timeout_seconds = Some 0 →
   _watcher (__enter__ (__init__ timeout_seconds) thread) = false
   ∧ guarded_step timeout_seconds thread entered_at lag done_at = (false, []))
  ∧ (∀ timeout t,
       timeout_seconds = Some timeout → done_at = Some t →
       0 <= lag → t < entered_at + timeout →
       (guarded_step timeout_seconds thread entered_at lag done_at).2 = []).
Proof.
  split.
  - intros [->| ->]; done.
  - intros timeout t -> -> Hlag Hdone.
    unfold guarded_step, __enter__, __init__, _watchdog, truthy.
    cbn -[wait Z.eqb].
    destruct (Z.eqb_spec timeout 0) as [->|Hne]; cbn -[wait Z.eqb]; [done|].
    destruct (Z.eqb_spec timeout 0); [done|].
    rewrite wait_finished_in_time by lia. done.
Qed.

Lemma step_timer_stands_down_witness :
  guarded_step (Some 0) 1 0 0 None = (false, [])
  ∧ (guarded_step (Some 300) 1 0 1 (Some 120)).2 = []
  ∧ (guarded_step (Some 300) 1 0 1 (Some 305)).2 = [SoftKill 1]
  ∧ (guarded_step (Some 300) 1 0 1 None).2 = [SoftKill 1; HardKill].
Proof.
  split; [|split].
  - apply (step_timer_stands_down (Some 0) 1 0 0 None). by right.
  - apply (step_timer_stands_down (Some 300) 1 0 1 (Some 120)) with 300 120;
      (reflexivity || lia).
  - split; reflexivity.
Defined.

End UtilsProperties.

Section IngestProperties.
Import Ingest.
Context (pl : polars).

(** The incremental insert keeps the table as a prefix and appends exactly
    the staged rows whose key is not in it. *)
Lemma incremental_insert_spec {R K : Type} `{EqDecision K} (pk : R → K)
    (table df : list R) :
  _incremental_insert pk table df
  = (table ++ filter (λ s, pk s ∉ pk <$> table) df,
     Z.of_nat (length (filter (λ s, pk s ∉ pk <$> table) df))).
Proof.
  unfold _incremental_insert.
  destruct (filter (λ s, pk s ∉ pk <$> table) df) as [|s staged]; simpl.
  - by rewrite app_nil_r.
  - destruct (Z.ltb_spec 0 (Z.pos (Pos.of_succ_nat (length staged)))); [done|lia].
Qed.

(** Once every staged key is in the table, staging the frame again adds
    nothing. *)
Lemma incremental_insert_again {R K : Type} `{EqDecision K} (pk : R → K)
    (table df : list R) :
  (∀ s, s ∈ df → pk s ∈ pk <$> table) →
  _incremental_insert pk table df = (table, 0).
Proof.
  intros Hin. rewrite incremental_insert_spec.
  assert (filter (λ s, pk s ∉ pk <$> table) df = []) as ->.
  { induction df as [|s df IH]; [done|].
    rewrite filter_cons. destruct (decide (pk s ∉ pk <$> table)) as [Hs|_].
    - destruct Hs. apply Hin. left.
    - apply IH. intros s' Hs'. apply Hin. by right. }
  by rewrite app_nil_r.
Qed.

Lemma incremental_insert_covers {R K : Type} `{EqDecision K} (pk : R → K)
    (table df : list R) s :
  s ∈ df → pk s ∈ pk <$> (_incremental_insert pk table df).1.
Proof.
  intros Hs. rewrite incremental_insert_spec. simpl.
  rewrite fmap_app, elem_of_app.
  destruct (decide (pk s ∈ pk <$> table)) as [Hin|Hout]; [by left|].
  right. apply list_elem_of_fmap. exists s. split; [done|].
  by apply list_elem_of_filter.
Qed.

Lemma ingest_users_again src con con1 n :
  ingest_users pl src con = inr (con1, n) →
  ingest_users pl src con1 = inr (con1, 0).
Proof.
  unfold ingest_users. destruct (issues src); [|discriminate].
  destruct (raw_users con) as [table|].
  - destruct (_incremental_insert user_id table (users_frame pl src))
      as [table' new_rows] eqn:Hins.
    intros [= <- <-]. simpl.
    rewrite incremental_insert_again; [done|].
    intros s Hs. change table' with (table', new_rows).1. rewrite <- Hins.
    by apply incremental_insert_covers.
  - intros [= <- <-]. simpl.
    rewrite incremental_insert_again; [done|].
    intros s Hs. apply list_elem_of_fmap. eauto.
Qed.

Lemma ingest_events_again src con con1 n :
  ingest_events pl src con = inr (con1, n) →
  ingest_events pl src con1 = inr (con1, 0).
Proof.
  unfold ingest_events. destruct (issues src); [|discriminate].
  destruct (raw_events con) as [table|].
  - destruct (_incremental_insert event_id table (events_frame pl src))
      as [table' new_rows] eqn:Hins.
    intros [= <- <-]. simpl.
    rewrite incremental_insert_again; [done|].
    intros s Hs. change table' with (table', new_rows).1. rewrite <- Hins.
    by apply incremental_insert_covers.
  - intros [= <- <-]. simpl.
    rewrite incremental_insert_again; [done|].
    intros s Hs. apply list_elem_of_fmap. eauto.
Qed.

Lemma ingest_mentors_again src con con1 :
  ingest_mentors pl src con = inr con1 →
  ingest_mentors pl src con1 = inr con1
  ∧ ∃ table, raw_mentors con1 = Some table
             ∧ length table = length (rows src).
Proof.
  unfold ingest_mentors. destruct (issues src); [|discriminate].
  destruct (0 <? _); [discriminate|].
  intros [= <-]. simpl. split; [done|].
  eexists. split; [done|]. unfold mentors_frame. by rewrite !length_fmap.
Qed.

(** C9. Ingestion is idempotent by primary key: after users (events) were
    ingested from a source, ingesting the same source again inserts zero
    rows and leaves the warehouse as it is; the incremental insert keeps
    the existing rows and appends exactly the staged rows whose key is
    absent; and mentors are replaced in full, so a second run from the same
    source leaves the same table, with as many rows as the source. *)
Theorem ingestion_idempotent (users : source csv_user)
    (events : source json_event) (mentors : source csv_mentor)
    (con : warehouse) :
  (∀ con1 n, ingest_users pl users con = inr (con1, n) →
     ingest_users pl users con1 = inr (con1, 0))
  ∧ (∀ con1 n, ingest_events pl events con = inr (con1, n) →
     ingest_events pl events con1 = inr (con1, 0))
  ∧ (∀ table df,
       _incremental_insert user_id table df
       = (table ++ filter (λ s, user_id s ∉ user_id <$> table) df,
          Z.of_nat (length (filter (λ s, user_id s ∉ user_id <$> table) df))))
  ∧ (∀ table df,
       _incremental_insert event_id table df
       = (table ++ filter (λ s, event_id s ∉ event_id <$> table) df,
          Z.of_nat (length (filter (λ s, event_id s ∉ event_id <$> table) df))))
  ∧ (∀ con1, ingest_mentors pl mentors con = inr con1 →
       ingest_mentors pl mentors con1 = inr con1
       ∧ ∃ table, raw_mentors con1 = Some table
                  ∧ length table = length (rows mentors)).
Proof.
  split; [apply ingest_users_again|].
  split; [apply ingest_events_again|].
  split; [apply incremental_insert_spec|].
  split; [apply incremental_insert_spec|].
  apply ingest_mentors_again.
Qed.

End IngestProperties.

(** An instance of the column expressions, for running the loaders:
    decimal integers, spaces stripped, case and dates left alone. *)
Definition digit_of (c : ascii) : option Z :=
  let n := Z.of_nat (nat_of_ascii c) - 48 in
  if (0 <=? n) && (n <=? 9) then Some n else None.

Fixpoint parse_digits (acc : Z) (s : string) : option Z :=
  match s with
  | EmptyString => Some acc
  | String c rest => d ← digit_of c; parse_digits (10 * acc + d) rest
  end.

Definition plain_polars : Ingest.polars := {|
  Ingest.cast_int64 := λ s,
    match s with EmptyString => None | _ => parse_digits 0 s end;
  Ingest.strip_chars := Pairing.TRIM;
  Ingest.to_lowercase := id;
  Ingest.to_titlecase := id;
  Ingest.to_datetime := λ _, None
|}.

(** Four rows: a duplicated id and an id that does not parse. *)
Definition users_export : Ingest.source Ingest.csv_user := {|
  Ingest.issues := [];
  Ingest.rows := [
    {| Ingest.cu_user_id := "1"; Ingest.cu_company_id := 100;
       Ingest.cu_signup_date := "2024-01-01"; Ingest.cu_status := " active" |};
    {| Ingest.cu_user_id := "x7"; Ingest.cu_company_id := 100;
       Ingest.cu_signup_date := "2024-01-02"; Ingest.cu_status := "active" |};
    {| Ingest.cu_user_id := "1"; Ingest.cu_company_id := 101;
       Ingest.cu_signup_date := "2024-01-03"; Ingest.cu_status := "active" |};
    {| Ingest.cu_user_id := "2"; Ingest.cu_company_id := 100;
       Ingest.cu_signup_date := "2024-01-04"; Ingest.cu_status := "active" |}
  ]
|}.

Definition empty_warehouse : Ingest.warehouse := {|
  Ingest.raw_users := None;
  Ingest.raw_mentors := None;
  Ingest.raw_events := None
|}.

Lemma ingestion_idempotent_witness :
  ∃ con1,
    Ingest.ingest_users plain_polars users_export empty_warehouse = inr (con1, 2)
    ∧ Ingest.ingest_users plain_polars users_export con1 = inr (con1, 0).
Proof.
  eexists. split; [vm_compute; reflexivity|].
  refine (proj1 (ingestion_idempotent plain_polars users_export
                   {| Ingest.issues := []; Ingest.rows := [] |}
                   {| Ingest.issues := []; Ingest.rows := [] |}
                   empty_warehouse) _ 2 _).
  vm_compute. reflexivity.
Defined.


Section ListFacts.
Context {A B : Type}.
Implicit Types l : list A.

Lemma filter_all (P : A → Prop) `{!∀ x, Decision (P x)} l :
  (∀ x, x ∈ l → P x) → filter P l = l.
Proof.
  induction l as [|x l IH]; [done|]. intros Hall.
  rewrite filter_cons_True by (apply Hall; left).
  f_equal. apply IH. intros y Hy. apply Hall. by right.
Qed.

Lemma filter_none (P : A → Prop) `{!∀ x, Decision (P x)} l :
  (∀ x, x ∈ l → ¬ P x) → filter P l = [].
Proof.
  induction l as [|x l IH]; [done|]. intros Hall.
  rewrite filter_cons_False by (apply Hall; left).
  apply IH. intros y Hy. apply Hall. by right.
Qed.

Lemma filter_bind (P : B → Prop) `{!∀ x, Decision (P x)} (f : A → list B) l :
  filter P (l ≫= f) = l ≫= (λ x, filter P (f x)).
Proof.
  induction l as [|x l IH]; [done|].
  by rewrite !bind_cons, filter_app, IH.
Qed.

Lemma filter_fmap (P : B → Prop) `{!∀ x, Decision (P x)} (f : A → B) l :
  filter P (f <$> l) = f <$> filter (λ x, P (f x)) l.
Proof.
  induction l as [|x l IH]; [done|].
  rewrite fmap_cons, !filter_cons. destruct (decide (P (f x))).
  - by rewrite fmap_cons, IH.
  - done.
Qed.

Lemma filter_remove_dups `{EqDecision A} (P : A → Prop)
    `{!∀ x, Decision (P x)} l :
  filter P (remove_dups l) = remove_dups (filter P l).
Proof.
  induction l as [|x l IH]; [done|]. simpl.
  rewrite filter_cons. destruct (decide (P x)) as [HP|HP].
  - simpl. destruct (decide_rel elem_of x l) as [Hin|Hout];
      destruct (decide_rel elem_of x (filter P l)) as [Hin'|Hout'].
    + done.
    + destruct Hout'. by apply list_elem_of_filter.
    + apply list_elem_of_filter in Hin' as [_ ?]. done.
    + rewrite filter_cons_True by done. by rewrite IH.
  - destruct (decide_rel elem_of x l); [done|].
    by rewrite filter_cons_False.
Qed.

Lemma remove_dups_constant `{EqDecision A} (k : A) l :
  (∀ x, x ∈ l → x = k) → l ≠ [] → remove_dups l = [k].
Proof.
  induction l as [|x l IH]; [done|]. intros Hall _.
  assert (x = k) as -> by (apply Hall; left).
  simpl. destruct (decide_rel elem_of k l) as [Hin|Hout].
  - apply IH; [|by intros ->; apply elem_of_nil in Hin].
    intros z Hz. apply Hall. by right.
  - destruct l as [|y l']; [done|].
    destruct Hout. assert (y = k) as -> by (apply Hall; right; left). left.
Qed.

Lemma fmap_ext_in (f g : A → B) l :
  (∀ x, x ∈ l → f x = g x) → f <$> l = g <$> l.
Proof. intros Hfg. apply Forall_fmap_ext_1, Forall_forall. exact Hfg. Qed.

End ListFacts.

Lemma bind_select {X Y : Type} `{EqDecision X} (x : X) (g : list Y) keys :
  NoDup keys →
  keys ≫= (λ x', if decide (x' = x) then g else []) =
  if decide (x ∈ keys) then g else [].
Proof.
  induction 1 as [|x' keys Hnotin Hnodup IH]; [done|].
  rewrite bind_cons, IH.
  repeat case_decide; subst; rewrite ?app_nil_r; try done; set_solver.
Qed.

Section OrderBy.
Import Pairing.
Context {A : Type} (key : A → Z).
Implicit Types l : list A.

Definition key_le (a b : A) : Prop := key a <= key b.

Lemma insert_by_perm x l : insert_by key x l ≡ₚ x :: l.
Proof.
  induction l as [|y l IH]; [done|]. simpl.
  destruct (key x <=? key y); [done|].
  rewrite IH. apply Permutation_swap.
Qed.

Lemma order_by_perm l : order_by key l ≡ₚ l.
Proof.
  induction l as [|x l IH]; [done|]. unfold order_by in *. simpl.
  by rewrite insert_by_perm, IH.
Qed.

Lemma insert_by_sorted x l :
  StronglySorted key_le l → StronglySorted key_le (insert_by key x l).
Proof.
  induction 1 as [|y l Hl IH Hy]; simpl.
  - repeat constructor.
  - destruct (Z.leb_spec (key x) (key y)) as [Hle|Hgt].
    + constructor; [by constructor|].
      constructor; [done|].
      eapply Forall_impl; [exact Hy|]. unfold key_le. intros; lia.
    + constructor; [done|].
      rewrite insert_by_perm. constructor; [|done].
      unfold key_le. lia.
Qed.

Lemma order_by_sorted l : StronglySorted key_le (order_by key l).
Proof.
  induction l as [|x l IH]; unfold order_by in *; simpl; [constructor|].
  by apply insert_by_sorted.
Qed.

Lemma insert_by_first x l :
  Forall (key_le x) l → insert_by key x l = x :: l.
Proof.
  destruct 1 as [|y l Hy _]; [done|]. simpl.
  by destruct (Z.leb_spec (key x) (key y)); [|unfold key_le in Hy; lia].
Qed.

(** Selecting rows commutes with ordering them. *)
Lemma insert_by_filter (P : A → Prop) `{!∀ x, Decision (P x)} x l :
  StronglySorted key_le l →
  filter P (insert_by key x l)
  = if decide (P x) then insert_by key x (filter P l) else filter P l.
Proof.
  induction 1 as [|y l Hl IH Hy]; simpl.
  - rewrite filter_cons. by destruct (decide (P x)).
  - destruct (Z.leb_spec (key x) (key y)) as [Hle|Hgt].
    + rewrite (filter_cons P x). destruct (decide (P x)); [|done].
      rewrite insert_by_first; [done|].
      apply Forall_forall. intros z [_ Hz]%list_elem_of_filter.
      apply elem_of_cons in Hz as [->|Hz]; [done|].
      rewrite Forall_forall in Hy. specialize (Hy z Hz).
      unfold key_le in *. lia.
    + rewrite !(filter_cons P y), IH.
      destruct (decide (P y)), (decide (P x)); simpl; try done.
      by destruct (Z.leb_spec (key x) (key y)); [lia|].
Qed.

Lemma order_by_filter (P : A → Prop) `{!∀ x, Decision (P x)} l :
  filter P (order_by key l) = order_by key (filter P l).
Proof.
  induction l as [|x l IH]; [done|]. unfold order_by in *. simpl.
  rewrite insert_by_filter by apply order_by_sorted.
  rewrite filter_cons. destruct (decide (P x)); simpl; by rewrite IH.
Qed.

End OrderBy.

Section PairingProperties.
Import Pairing.
Implicit Types (evs : list event) (k : Z * string) (S E : event).
Implicit Types (starts : list session_start) (ends : list session_end).
Implicit Types (joined : list (session_start * option session_end)).

(** *** Ordering a partition *)

Definition timestamp_le (a b : event) : Prop := timestamp a <= timestamp b.

Lemma elem_of_order_by_timestamp e l : e ∈ order_by_timestamp l ↔ e ∈ l.
Proof. unfold order_by_timestamp. by rewrite order_by_perm. Qed.

Lemma order_by_timestamp_sorted l :
  StronglySorted timestamp_le (order_by_timestamp l).
Proof. apply order_by_sorted. Qed.

(** In an ordered list split around an element, what comes before is not
    later and what comes after is not earlier. *)
Lemma sorted_split l1 e l2 :
  StronglySorted timestamp_le (l1 ++ e :: l2) →
  (∀ x, x ∈ l1 → timestamp x <= timestamp e)
  ∧ (∀ x, x ∈ l2 → timestamp e <= timestamp x)
  ∧ StronglySorted timestamp_le l2.
Proof.
  intros Hs. apply StronglySorted_app in Hs as (H12 & _ & Hs2).
  apply StronglySorted_inv in Hs2 as [Hl2 He].
  split; [|split; [|done]].
  - intros x Hx. apply (H12 x e Hx). left.
  - intros x Hx. rewrite Forall_forall in He. by apply He.
Qed.

(** *** LEAD *)

Lemma elem_of_lead st l :
  st ∈ lead l ↔
  ∃ l1 e l2, l = l1 ++ e :: l2
    ∧ st = {| start := to_start_row e; next_start_at := timestamp <$> head l2 |}.
Proof.
  induction l as [|x l IH]; simpl.
  - rewrite elem_of_nil. split; [done|].
    intros (l1 & e & l2 & Heq & _). by destruct l1.
  - rewrite elem_of_cons, IH. split.
    + intros [->|(l1 & e & l2 & -> & ->)].
      * by exists [], x, l.
      * by exists (x :: l1), e, l2.
    + intros (l1 & e & l2 & Heq & ->). destruct l1 as [|y l1].
      * injection Heq as -> ->. by left.
      * injection Heq as -> ->. right. by exists l1, e, l2.
Qed.

(** The row after an element of an ordered partition: it is a row of the
    partition, not earlier, and no later start lies before it. *)
Lemma lead_sorted_next st l :
  StronglySorted timestamp_le l → st ∈ lead l →
  ∃ e, e ∈ l ∧ start st = to_start_row e
    ∧ match next_start_at st with
      | Some next =>
          timestamp e <= next
          ∧ (∃ x, x ∈ l ∧ timestamp x = next)
          ∧ ∀ x, x ∈ l → timestamp e < timestamp x → next <= timestamp x
      | None => ∀ x, x ∈ l → timestamp x <= timestamp e
      end.
Proof.
  intros Hs (l1 & e & l2 & -> & ->)%elem_of_lead.
  destruct (sorted_split _ _ _ Hs) as (H1 & H2 & Hs2).
  exists e. split; [set_solver|]. split; [done|]. simpl.
  destruct l2 as [|y l2]; simpl.
  - intros x [Hx|[->|Hx]%elem_of_cons]%elem_of_app; [by apply H1|lia|].
    by apply elem_of_nil in Hx.
  - split; [apply H2; left|]. split; [exists y; set_solver|].
    intros x [Hx|[->|Hx]%elem_of_cons]%elem_of_app Hlt.
    + apply H1 in Hx. lia.
    + lia.
    + apply elem_of_cons in Hx as [->|Hx]; [lia|].
      apply StronglySorted_inv in Hs2 as [_ Hy].
      rewrite Forall_forall in Hy. by apply Hy.
Qed.

(** Every timestamp of an ordered partition has a last row, whose
    successor, if any, is strictly later. *)
Lemma lead_sorted_last e l :
  StronglySorted timestamp_le l → e ∈ l →
  ∃ e' st, e' ∈ l ∧ timestamp e' = timestamp e ∧ st ∈ lead l
    ∧ start st = to_start_row e'
    ∧ match next_start_at st with
      | Some next => timestamp e < next ∧ ∃ x, x ∈ l ∧ timestamp x = next
      | None => True
      end.
Proof.
  intros Hs. revert e. induction Hs as [|a l Hl IH Ha]; intros e He.
  { by apply elem_of_nil in He. }
  rewrite Forall_forall in Ha.
  destruct (decide (Exists (λ x, timestamp x = timestamp e) l)) as [Hex|Hno].
  - apply Exists_exists in Hex as (x & Hx & Hts).
    destruct (IH x Hx) as (e' & st & He' & Hts' & Hst & Hstart & Hnext).
    exists e', st. split; [by right|]. split; [congruence|].
    split; [simpl; by right|]. split; [done|].
    destruct (next_start_at st) as [next|]; [|done].
    destruct Hnext as (Hlt & y & Hy & Hynext).
    split; [lia|]. exists y. split; [by right|done].
  - assert (e = a) as ->.
    { apply elem_of_cons in He as [->|He]; [done|].
      destruct Hno. apply Exists_exists. eauto. }
    exists a, {| start := to_start_row a; next_start_at := timestamp <$> head l |}.
    split; [left|]. split; [done|]. split; [simpl; left|]. split; [done|].
    simpl. destruct l as [|y l']; simpl; [done|].
    assert (timestamp a <= timestamp y) by (apply Ha; left).
    assert (timestamp y ≠ timestamp a).
    { intros Heq. apply Hno. apply Exists_exists. exists y. split; [left|done]. }
    split; [unfold timestamp_le in *; lia|]. exists y. split; [right; left|done].
Qed.

(** *** The CTEs, row by row *)

Definition started_in (evs : list event) (k : Z * string) (e : event) : Prop :=
  e ∈ evs ∧ is_session_started e ∧ partition_key e = k.

Definition ended_in (evs : list event) (k : Z * string) (e : event) : Prop :=
  e ∈ evs ∧ is_session_ended e ∧ partition_key e = k.

Definition start_partition (evs : list event) (k : Z * string) : list event :=
  order_by_timestamp
    (filter (λ e, partition_key e = k) (filter (λ e, is_session_started e) evs)).

Lemma elem_of_start_partition evs k e :
  e ∈ start_partition evs k ↔ started_in evs k e.
Proof.
  unfold start_partition, started_in.
  rewrite elem_of_order_by_timestamp, !list_elem_of_filter. tauto.
Qed.

Lemma elem_of_session_starts st evs :
  st ∈ session_starts evs ↔
  ∃ k, st ∈ lead (start_partition evs k).
Proof.
  unfold session_starts. rewrite list_elem_of_bind. split.
  - intros (k & Hst & _). by exists k.
  - intros (k & Hst). exists k. split; [done|].
    rewrite elem_of_remove_dups, list_elem_of_fmap.
    apply elem_of_lead in Hst as (l1 & e & l2 & Heq & _).
    assert (e ∈ start_partition evs k) as He by (rewrite Heq; set_solver).
    apply elem_of_start_partition in He as (He & Hs & Hk).
    exists e. split; [done|]. by apply list_elem_of_filter.
Qed.

Lemma partition_key_to_start_row e :
  (s_user_id (to_start_row e), s_mentor_id (to_start_row e)) = partition_key e.
Proof. done. Qed.

(** What [next_start_at] is, in terms of the start events of the
    partition. *)
Lemma session_starts_next st evs :
  st ∈ session_starts evs →
  ∃ S, started_in evs (partition_key S) S ∧ start st = to_start_row S
    ∧ match next_start_at st with
      | Some next =>
          timestamp S <= next
          ∧ ∀ S', started_in evs (partition_key S) S' →
                  timestamp S < timestamp S' → next <= timestamp S'
      | None =>
          ∀ S', started_in evs (partition_key S) S' →
                timestamp S' <= timestamp S
      end.
Proof.
  intros (k & Hst)%elem_of_session_starts.
  destruct (lead_sorted_next st _ (order_by_timestamp_sorted _) Hst)
    as (S & HS & Hstart & Hnext).
  apply elem_of_start_partition in HS as HS'.
  assert (partition_key S = k) as Hk by apply HS'.
  exists S. rewrite Hk. split; [done|]. split; [done|].
  destruct (next_start_at st) as [next|].
  - destruct Hnext as (Hle & _ & Hmin). split; [done|].
    intros S' HS'' Hlt. apply Hmin; [|done].
    by apply elem_of_start_partition.
  - intros S' HS''. apply Hnext. by apply elem_of_start_partition.
Qed.

(** Every start event has a row with its timestamp whose [next_start_at],
    if any, is the timestamp of a strictly later start of the partition. *)
Lemma session_starts_last S evs :
  started_in evs (partition_key S) S →
  ∃ S' st, started_in evs (partition_key S) S'
    ∧ timestamp S' = timestamp S
    ∧ st ∈ session_starts evs ∧ start st = to_start_row S'
    ∧ match next_start_at st with
      | Some next =>
          ∃ x, started_in evs (partition_key S) x
               ∧ timestamp x = next ∧ timestamp S < next
      | None => True
      end.
Proof.
  intros HS. apply elem_of_start_partition in HS as Hin.
  destruct (lead_sorted_last S _ (order_by_timestamp_sorted _) Hin)
    as (S' & st & HS' & Hts & Hst & Hstart & Hnext).
  exists S', st. split; [by apply elem_of_start_partition|].
  split; [done|]. split; [apply elem_of_session_starts; eauto|].
  split; [done|].
  destruct (next_start_at st) as [next|]; [|done].
  destruct Hnext as (Hlt & x & Hx & Hxn).
  exists x. split; [by apply elem_of_start_partition|done].
Qed.

Lemma elem_of_session_ends e evs :
  e ∈ session_ends evs ↔
  ∃ E, E ∈ evs ∧ is_session_ended E
    ∧ e = {| e_user_id := user_id E; e_mentor_id := TRIM (mentor_id E);
             ended_at := timestamp E |}.
Proof.
  unfold session_ends. rewrite list_elem_of_fmap.
  setoid_rewrite list_elem_of_filter. naive_solver.
Qed.

Lemma elem_of_left_join s oe starts ends :
  (s, oe) ∈ left_join starts ends ↔
  s ∈ starts
  ∧ match oe with
    | Some e => e ∈ ends ∧ join_on s e
    | None => ∀ e, e ∈ ends → ¬ join_on s e
    end.
Proof.
  unfold left_join. rewrite list_elem_of_bind. split.
  - intros (s' & Hin & Hs').
    destruct (filter (λ e, join_on s' e) ends) as [|m ms] eqn:Hm.
    + apply list_elem_of_singleton in Hin as [= <- ->]. split; [done|].
      intros e He Hon.
      assert (e ∈ filter (λ e, join_on s e) ends) as Hf
        by by apply list_elem_of_filter.
      rewrite Hm in Hf. by apply elem_of_nil in Hf.
    + apply list_elem_of_fmap in Hin as (e & [= <- ->] & He).
      split; [done|]. rewrite <- Hm in He.
      by apply list_elem_of_filter in He as [? ?].
  - intros [Hs Hoe]. exists s. split; [|done].
    destruct (filter (λ e, join_on s e) ends) as [|m ms] eqn:Hm.
    + destruct oe as [e|]; [|by apply list_elem_of_singleton].
      destruct Hoe as [He Hon].
      assert (e ∈ filter (λ e, join_on s e) ends) as Hf
        by by apply list_elem_of_filter.
      rewrite Hm in Hf. by apply elem_of_nil in Hf.
    + destruct oe as [e|].
      * apply list_elem_of_fmap. exists e. split; [done|].
        rewrite <- Hm. destruct Hoe. by apply list_elem_of_filter.
      * exfalso. apply (Hoe m).
        -- assert (m ∈ filter (λ e, join_on s e) ends) as Hf
             by (rewrite Hm; left).
           by apply list_elem_of_filter in Hf as [_ ?].
        -- assert (m ∈ filter (λ e, join_on s e) ends) as Hf
             by (rewrite Hm; left).
           by apply list_elem_of_filter in Hf as [? _].
Qed.

(** *** MIN *)

Lemma sql_min_Some values m :
  sql_min values = Some m →
  Some m ∈ values ∧ ∀ x, Some x ∈ values → m <= x.
Proof.
  revert m. induction values as [|v values IH]; intros m; simpl; [done|].
  destruct v as [x|].
  - destruct (sql_min values) as [m'|] eqn:Hmin.
    + intros [= <-]. destruct (IH m' eq_refl) as [Hin Hle]. split.
      * destruct (Z.min_spec x m') as [[_ ->]|[_ ->]]; [left|by right].
      * intros y [[= ->]|Hy]%elem_of_cons; [lia|].
        apply Hle in Hy. lia.
    + intros [= <-]. split; [left|].
      intros y [[= ->]|Hy]%elem_of_cons; [lia|].
      exfalso. clear IH. induction values as [|[z|] values IH']; simpl in *.
      * by apply elem_of_nil in Hy.
      * by destruct (sql_min values).
      * apply elem_of_cons in Hy as [[=]|Hy]. by apply IH'.
  - intros Hm. destruct (IH m Hm) as [Hin Hle]. split; [by right|].
    intros y [[=]|Hy]%elem_of_cons. by apply Hle.
Qed.

Lemma sql_min_None values x : sql_min values = None → Some x ∉ values.
Proof.
  induction values as [|[z|] values IH]; simpl.
  - intros _. apply not_elem_of_nil.
  - by destruct (sql_min values).
  - intros Hm [[=]|Hx]%elem_of_cons. by apply IH.
Qed.

Lemma sql_min_is_Some values x :
  Some x ∈ values → ∃ m, sql_min values = Some m.
Proof.
  intros Hx. destruct (sql_min values) as [m|] eqn:Hm; [eauto|].
  by apply (sql_min_None _ x) in Hm.
Qed.

(** *** GROUP BY *)

Definition group_values (joined : list (session_start * option session_end))
    (g : string * Z * string * Z) : list (option Z) :=
  (λ j : session_start * option session_end, ended_at <$> j.2)
  <$> filter (λ j, group_key (start j.1) = g) joined.

Lemma group_key_inj r1 r2 : group_key r1 = group_key r2 → r1 = r2.
Proof. destruct r1, r2. unfold group_key. simpl. by intros [= -> -> -> ->]. Qed.

Lemma elem_of_group_by_start p joined :
  p ∈ group_by_start joined ↔
  (∃ s oe, (s, oe) ∈ joined ∧ p_start p = start s)
  ∧ p_ended_at p = sql_min (group_values joined (group_key (p_start p))).
Proof.
  unfold group_by_start. rewrite list_elem_of_fmap.
  setoid_rewrite elem_of_remove_dups. setoid_rewrite list_elem_of_fmap.
  split.
  - intros (g & -> & [s oe] & -> & Hin). simpl.
    destruct (start s) as [i u m t] eqn:Hs. simpl. split; [|done].
    exists s, oe. split; [done|]. by rewrite Hs.
  - intros [(s & oe & Hin & Hs) Hmin].
    exists (group_key (start s)). split; [|by exists (s, oe)].
    destruct p as [ps pe]. simpl in *. subst ps. rewrite Hmin.
    by destruct (start s).
Qed.

Lemma elem_of_group_values joined g t :
  Some t ∈ group_values joined g ↔
  ∃ s e, (s, Some e) ∈ joined ∧ group_key (start s) = g ∧ ended_at e = t.
Proof.
  unfold group_values. rewrite list_elem_of_fmap.
  setoid_rewrite list_elem_of_filter. split.
  - intros ([s [e|]] & Heq & Hg & Hin); simpl in *; [|done].
    injection Heq as ->. by exists s, e.
  - intros (s & e & Hin & Hg & <-). by exists (s, Some e).
Qed.

Lemma join_on_spec s e :
  join_on s e ↔
  (s_user_id (start s), s_mentor_id (start s)) = (e_user_id e, e_mentor_id e)
  ∧ started_at (start s) < ended_at e
  ∧ match next_start_at s with
    | Some next => ended_at e < next
    | None => True
    end.
Proof.
  unfold join_on.
  destruct (Z.eqb_spec (s_user_id (start s)) (e_user_id e));
    destruct (String.eqb_spec (s_mentor_id (start s)) (e_mentor_id e));
    destruct (Z.ltb_spec (started_at (start s)) (ended_at e));
    destruct (next_start_at s) as [next|];
    try destruct (Z.ltb_spec (ended_at e) next); simpl;
    split; try done; try (intros ([= ? ?] & ? & ?); done || lia);
    try (split; [congruence|split; [lia|done || lia]]).
Qed.

(** The end row of an end event. *)
Definition to_session_end (E : event) : session_end :=
  {| e_user_id := user_id E; e_mentor_id := TRIM (mentor_id E);
     ended_at := timestamp E |}.

Lemma to_start_row_partition S S' :
  to_start_row S = to_start_row S' →
  partition_key S = partition_key S' ∧ timestamp S = timestamp S'.
Proof. unfold to_start_row, partition_key. by intros [= _ -> -> ->]. Qed.

(** *** What a paired row says about the events *)

Lemma paired_row_start evs p :
  p ∈ paired evs →
  ∃ S, started_in evs (partition_key S) S ∧ p_start p = to_start_row S.
Proof.
  intros [(s & oe & Hin & Hs) _]%elem_of_group_by_start.
  apply elem_of_left_join in Hin as [Hin _].
  apply session_starts_next in Hin as (S & HS & Hstart & _).
  exists S. split; [done|congruence].
Qed.

Lemma paired_sound evs p t S :
  p ∈ paired evs → p_ended_at p = Some t → p_start p = to_start_row S →
  (∃ E, ended_in evs (partition_key S) E ∧ timestamp E = t)
  ∧ timestamp S < t
  ∧ (∀ S', started_in evs (partition_key S) S' →
           timestamp S < timestamp S' → t < timestamp S')
  ∧ (∀ E', ended_in evs (partition_key S) E' →
           timestamp S < timestamp E' → t <= timestamp E').
Proof.
  intros [_ Hmin]%elem_of_group_by_start Hend Hrow.
  rewrite Hend in Hmin. symmetry in Hmin.
  apply sql_min_Some in Hmin as [Ht Hle].
  apply elem_of_group_values in Ht as (s1 & e1 & Hj & Hg & He1).
  apply group_key_inj in Hg.
  apply elem_of_left_join in Hj as (Hs1 & He1in & Hon).
  apply join_on_spec in Hon as (Hkeys & Hafter & Hbefore).
  apply session_starts_next in Hs1 as Hnext.
  destruct Hnext as (S1 & HS1 & Hstart1 & Hnext).
  assert (to_start_row S1 = to_start_row S) as HS1S by congruence.
  apply to_start_row_partition in HS1S as [Hk Hts].
  rewrite Hk in HS1, Hnext. rewrite Hts in Hnext.
  apply elem_of_session_ends in He1in as (E1 & HE1 & HE1end & ->).
  simpl in *. subst t.
  rewrite Hstart1 in Hkeys, Hafter. simpl in Hkeys, Hafter.
  change (partition_key S1 = partition_key E1) in Hkeys.
  assert (partition_key E1 = partition_key S) as HkE by congruence.
  split; [exists E1; by repeat split|]. split; [lia|]. split.
  - intros S' HS' Hlt. destruct (next_start_at s1) as [next|].
    + destruct Hnext as [_ Hnext]. specialize (Hnext S' HS' Hlt). lia.
    + specialize (Hnext S' HS'). lia.
  - intros E' (HE' & HE'end & HkE') Hlt.
    destruct (Z.le_gt_cases (timestamp E1) (timestamp E')) as [|Hgt]; [done|].
    apply Hle. apply elem_of_group_values.
    exists s1, (to_session_end E'). split; [|by rewrite Hg, Hrow].
    apply elem_of_left_join. split; [done|]. split.
    + apply elem_of_session_ends. by exists E'.
    + apply join_on_spec. rewrite Hstart1. simpl.
      split; [change (partition_key S1 = partition_key E'); congruence|].
      split; [lia|].
      destruct (next_start_at s1); [lia|done].
Qed.

(** Every start event has its row. *)
Lemma paired_row_exists evs S :
  started_in evs (partition_key S) S →
  ∃ p, p ∈ paired evs ∧ p_start p = to_start_row S.
Proof.
  intros HS. apply elem_of_start_partition in HS.
  apply list_elem_of_split in HS as (l1 & l2 & Heq).
  set (st := {| start := to_start_row S;
                next_start_at := timestamp <$> head l2 |}).
  assert (st ∈ session_starts evs) as Hst.
  { apply elem_of_session_starts. exists (partition_key S).
    apply elem_of_lead. by exists l1, S, l2. }
  set (joined := left_join (session_starts evs) (session_ends evs)).
  assert (∃ oe, (st, oe) ∈ joined) as [oe Hoe].
  { destruct (filter (λ e, join_on st e) (session_ends evs)) as [|m ms] eqn:Hm.
    - exists None. apply elem_of_left_join. split; [done|].
      intros e He Hon.
      assert (e ∈ filter (λ e, join_on st e) (session_ends evs)) as Hf
        by by apply list_elem_of_filter.
      rewrite Hm in Hf. by apply elem_of_nil in Hf.
    - exists (Some m). apply elem_of_left_join. split; [done|].
      assert (m ∈ filter (λ e, join_on st e) (session_ends evs)) as Hf
        by (rewrite Hm; left).
      apply list_elem_of_filter in Hf. tauto. }
  exists {| p_start := to_start_row S;
            p_ended_at := sql_min (group_values joined (group_key (to_start_row S))) |}.
  split; [|done]. apply elem_of_group_by_start. simpl. split; [|done].
  by exists st, oe.
Qed.

(** A row is determined by its start columns. *)
Lemma paired_row_unique evs p1 p2 :
  p1 ∈ paired evs → p2 ∈ paired evs → p_start p1 = p_start p2 → p1 = p2.
Proof.
  intros [_ H1]%elem_of_group_by_start [_ H2]%elem_of_group_by_start Heq.
  destruct p1, p2. simpl in *. subst. done.
Qed.

(** An end event after a start and before every later start of the
    partition is found, unless another session of the partition starts at
    the very same instant. *)
Lemma paired_complete evs S E p :
  started_in evs (partition_key S) S →
  (∀ S', started_in evs (partition_key S) S' →
         timestamp S' = timestamp S → event_id S' = event_id S) →
  ended_in evs (partition_key S) E → timestamp S < timestamp E →
  (∀ S', started_in evs (partition_key S) S' →
         timestamp S < timestamp S' → timestamp E < timestamp S') →
  p ∈ paired evs → p_start p = to_start_row S →
  ∃ t, p_ended_at p = Some t ∧ t <= timestamp E.
Proof.
  intros HS Htie HE Hafter Hbefore [_ Hmin]%elem_of_group_by_start Hrow.
  destruct (session_starts_last S evs HS)
    as (S' & st & HS' & Hts & Hst & Hstart & Hnext).
  assert (to_start_row S' = to_start_row S) as Hsame.
  { pose proof HS' as (_ & _ & Hk). unfold to_start_row.
    rewrite (Htie S' HS' Hts).
    unfold partition_key in Hk. injection Hk as Hu Hm.
    by rewrite Hu, Hm, Hts. }
  assert (Some (timestamp E) ∈ group_values
            (left_join (session_starts evs) (session_ends evs))
            (group_key (p_start p))) as Hin.
  { apply elem_of_group_values. exists st, (to_session_end E).
    split; [|by rewrite Hstart, Hsame, Hrow].
    apply elem_of_left_join. split; [done|]. split.
    - apply elem_of_session_ends. exists E. by destruct HE as (? & ? & ?).
    - apply join_on_spec. rewrite Hstart, Hsame. simpl.
      destruct HE as (_ & _ & HkE).
      split; [change (partition_key S = partition_key E); congruence|].
      split; [done|].
      destruct (next_start_at st) as [next|]; [|done].
      destruct Hnext as (x & Hx & <- & Hlt). by apply Hbefore. }
  destruct (sql_min_is_Some _ _ Hin) as [m Hm].
  exists m. split; [congruence|].
  apply sql_min_Some in Hm as [_ Hle]. by apply Hle.
Qed.

(** *** Pairing one partition at a time *)

Definition row_partition (r : start_row) : Z * string :=
  (s_user_id r, s_mentor_id r).

Definition end_partition (e : session_end) : Z * string :=
  (e_user_id e, e_mentor_id e).

Lemma lead_in_partition evs k st :
  st ∈ lead (start_partition evs k) → row_partition (start st) = k.
Proof.
  intros (l1 & e & l2 & Heq & ->)%elem_of_lead.
  assert (e ∈ start_partition evs k) as He by (rewrite Heq; set_solver).
  by apply elem_of_start_partition in He as (_ & _ & Hk).
Qed.

Lemma start_partition_empty evs k :
  k ∉ partition_key <$> filter (λ e, is_session_started e) evs →
  start_partition evs k = [].
Proof.
  intros Hk. destruct (start_partition evs k) as [|e l] eqn:Heq; [done|].
  assert (e ∈ start_partition evs k) as He by (rewrite Heq; left).
  apply elem_of_start_partition in He as (He & Hs & Hke).
  destruct Hk. apply list_elem_of_fmap. exists e. split; [done|].
  by apply list_elem_of_filter.
Qed.

Lemma session_starts_of_partition evs k :
  filter (λ st, row_partition (start st) = k) (session_starts evs)
  = lead (start_partition evs k).
Proof.
  unfold session_starts. rewrite filter_bind.
  rewrite (list_bind_ext _
    (λ k', if decide (k' = k) then lead (start_partition evs k) else [])
    _ (remove_dups (partition_key <$> filter (λ e, is_session_started e) evs)));
    [|intros k'|done].
  - rewrite bind_select by apply NoDup_remove_dups.
    destruct (decide (k ∈ _)) as [Hin|Hout]; [done|].
    rewrite elem_of_remove_dups in Hout.
    by rewrite start_partition_empty.
  - fold (start_partition evs k'). destruct (decide (k' = k)) as [->|Hne].
    + apply filter_all. intros st. apply lead_in_partition.
    + apply filter_none. intros st Hst. by rewrite (lead_in_partition _ _ _ Hst).
Qed.

Lemma filter_partition_started evs k :
  filter (λ e, is_session_started e) (filter (λ e, partition_key e = k) evs)
  = filter (λ e, partition_key e = k) (filter (λ e, is_session_started e) evs).
Proof. rewrite !list_filter_filter. apply list_filter_iff. tauto. Qed.

Lemma session_starts_restrict evs k :
  session_starts (filter (λ e, partition_key e = k) evs)
  = lead (start_partition evs k).
Proof.
  unfold session_starts. rewrite filter_partition_started.
  set (started := filter (λ e, partition_key e = k)
                    (filter (λ e, is_session_started e) evs)).
  assert (filter (λ e, partition_key e = k) started = started) as Hidem.
  { apply filter_all. by intros e [? _]%list_elem_of_filter. }
  destruct started as [|e0 rest] eqn:Hstarted.
  - unfold start_partition. fold started. by rewrite Hstarted.
  - rewrite (remove_dups_constant k); [|intros k' Hk'|done].
    + rewrite bind_cons. change ([] ≫= _) with (@nil session_start).
      rewrite app_nil_r, Hidem.
      unfold start_partition. fold started. by rewrite Hstarted.
    + apply list_elem_of_fmap in Hk' as (e & -> & He).
      rewrite <- Hstarted in He. unfold started in He.
      by apply list_elem_of_filter in He as [? _].
Qed.

Lemma session_starts_filter evs k :
  session_starts (filter (λ e, partition_key e = k) evs)
  = filter (λ st, row_partition (start st) = k) (session_starts evs).
Proof. by rewrite session_starts_restrict, session_starts_of_partition. Qed.

Lemma session_ends_filter evs k :
  session_ends (filter (λ e, partition_key e = k) evs)
  = filter (λ e, end_partition e = k) (session_ends evs).
Proof.
  unfold session_ends. rewrite filter_fmap. f_equal.
  rewrite !list_filter_filter. apply list_filter_iff.
  intros e. unfold end_partition, partition_key. simpl. tauto.
Qed.

Lemma join_on_same_partition s e :
  join_on s e → end_partition e = row_partition (start s).
Proof. intros (Hk & _)%join_on_spec. done. Qed.

Lemma left_join_filter starts ends k :
  left_join (filter (λ st, row_partition (start st) = k) starts)
            (filter (λ e, end_partition e = k) ends)
  = filter (λ j, row_partition (start j.1) = k) (left_join starts ends).
Proof.
  unfold left_join. rewrite filter_bind.
  induction starts as [|s starts IH]; [done|].
  rewrite bind_cons, <- IH, filter_cons.
  destruct (decide (row_partition (start s) = k)) as [Hk|Hk].
  - rewrite bind_cons. f_equal.
    assert (filter (λ e, join_on s e) (filter (λ e, end_partition e = k) ends)
            = filter (λ e, join_on s e) ends) as ->.
    { apply list_filter_filter_l. intros e He.
      by rewrite (join_on_same_partition _ _ He). }
    symmetry. apply filter_all.
    destruct (filter (λ e, join_on s e) ends) as [|m ms].
    + by intros j ->%list_elem_of_singleton.
    + by intros j (e & -> & _)%list_elem_of_fmap.
  - rewrite (filter_none (λ j : session_start * option session_end,
                            row_partition (start j.1) = k)); [done|].
    destruct (filter (λ e, join_on s e) ends) as [|m ms].
    + by intros j ->%list_elem_of_singleton.
    + by intros j (e & -> & _)%list_elem_of_fmap.
Qed.

Lemma group_by_start_filter joined k :
  group_by_start (filter (λ j, row_partition (start j.1) = k) joined)
  = filter (λ p, row_partition (p_start p) = k) (group_by_start joined).
Proof.
  unfold group_by_start. rewrite filter_fmap. simpl.
  rewrite filter_remove_dups, filter_fmap.
  apply fmap_ext_in. intros g Hg. f_equal. f_equal. f_equal.
  apply list_filter_filter_l. intros j Hj. subst g.
  apply elem_of_remove_dups, list_elem_of_fmap in Hg as (j' & Heq & Hj').
  apply group_key_inj in Heq. rewrite Heq.
  by apply list_elem_of_filter in Hj' as [? _].
Qed.

(** The rows of a partition are the pairing of the events of that
    partition alone. *)
Lemma paired_filter evs k :
  filter (λ p, row_partition (p_start p) = k) (paired evs)
  = paired (filter (λ e, partition_key e = k) evs).
Proof.
  unfold paired.
  by rewrite session_starts_filter, session_ends_filter, left_join_filter,
    group_by_start_filter.
Qed.

(** *** The claims on pairing *)

(** An end event qualifies for the start [S]: same partition, later than
    [S], strictly before every later start of the partition. *)
Definition qualifying_end evs S E : Prop :=
  ended_in evs (partition_key S) E
  ∧ timestamp S < timestamp E
  ∧ ∀ S', started_in evs (partition_key S) S' →
          timestamp S < timestamp S' → timestamp E < timestamp S'.

(** No other start event of the partition has the instant of [S]. *)
Definition untied_start evs S : Prop :=
  ∀ S', started_in evs (partition_key S) S' →
        timestamp S' = timestamp S → event_id S' = event_id S.

(** When an end qualifies for [S], the earliest qualifying end is
    attributed to a start of the partition at the instant of [S]: the last
    of them in the window order, which is [S] itself when it is untied. *)
Lemma paired_earliest_qualifying evs S E :
  started_in evs (partition_key S) S → qualifying_end evs S E →
  ∃ S' p E0,
    started_in evs (partition_key S) S'
    ∧ timestamp S' = timestamp S
    ∧ (untied_start evs S → to_start_row S' = to_start_row S)
    ∧ p ∈ paired evs ∧ p_start p = to_start_row S'
    ∧ qualifying_end evs S E0
    ∧ p_ended_at p = Some (timestamp E0)
    ∧ ∀ E', qualifying_end evs S E' → timestamp E0 <= timestamp E'.
Proof.
  intros HS (HE & Hafter & Hbefore).
  destruct (session_starts_last S evs HS)
    as (S' & st & HS' & Hts & Hst & Hstart & Hnext).
  pose proof HS' as (HS'in & HS'ty & Hk).
  assert (started_in evs (partition_key S') S') as HS'' by done.
  destruct (paired_row_exists evs S' HS'') as (p & Hp & Hrow).
  pose proof Hp as [_ Hmin]%elem_of_group_by_start.
  assert (Some (timestamp E) ∈ group_values
            (left_join (session_starts evs) (session_ends evs))
            (group_key (p_start p))) as Hin.
  { apply elem_of_group_values. exists st, (to_session_end E).
    split; [|by rewrite Hstart, Hrow].
    apply elem_of_left_join. split; [done|]. split.
    - apply elem_of_session_ends. exists E. by destruct HE as (? & ? & ?).
    - apply join_on_spec. rewrite Hstart. simpl.
      destruct HE as (_ & _ & HkE).
      split; [change (partition_key S' = partition_key E); congruence|].
      split; [lia|].
      destruct (next_start_at st) as [next|]; [|done].
      destruct Hnext as (x & Hx & <- & Hlt). by apply Hbefore. }
  destruct (sql_min_is_Some _ _ Hin) as [m Hm].
  assert (p_ended_at p = Some m) as Hend by congruence.
  destruct (paired_sound evs p m S' Hp Hend Hrow)
    as ((E0 & HE0 & HtE0) & Hafter0 & Hnext0 & Hfirst0).
  rewrite Hk in HE0, Hnext0, Hfirst0. rewrite Hts in Hafter0, Hnext0, Hfirst0.
  exists S', p, E0. split; [done|]. split; [done|]. split.
  { intros Htie. unfold to_start_row. rewrite (Htie S' HS' Hts).
    unfold partition_key in Hk. injection Hk as Hu Hm'.
    by rewrite Hu, Hm', Hts. }
  split; [done|]. split; [done|]. subst m. split.
  { split; [done|]. split; [lia|]. intros S2 HS2 Hlt. by apply Hnext0. }
  split; [done|].
  intros E' (HE' & Hafter' & _). by apply Hfirst0.
Qed.


(** [DATEDIFF('minute', a, b)] counts minute boundaries: it is the whole
    minutes of [b - a], or one more. *)
Lemma DATEDIFF_minute_elapsed (a b : Z) :
  (b - a) / 60 <= DATEDIFF_minute a b <= (b - a) / 60 + 1.
Proof. unfold DATEDIFF_minute. Z.div_mod_to_equations. lia. Qed.


(** C7. Pairing is a function of the partition: two event sets with the
    same events of a (user, mentor) pair give the same rows for that pair,
    in [paired], in the ordered result of [_run_pairing] and in
    [fct_sessions]. *)
Theorem pairing_depends_on_partition_only evs1 evs2 k
    (default_duration_minutes : Z) :
  filter (λ e, partition_key e = k) evs1
  = filter (λ e, partition_key e = k) evs2 →
  filter (λ p, row_partition (p_start p) = k) (paired evs1)
  = filter (λ p, row_partition (p_start p) = k) (paired evs2)
  ∧ filter (λ p, row_partition (p_start p) = k) (_run_pairing evs1)
    = filter (λ p, row_partition (p_start p) = k) (_run_pairing evs2)
  ∧ filter (λ r, row_partition (f_start r) = k)
      (fct_sessions default_duration_minutes evs1)
    = filter (λ r, row_partition (f_start r) = k)
        (fct_sessions default_duration_minutes evs2).
Proof.
  intros Heq.
  assert (filter (λ p, row_partition (p_start p) = k) (paired evs1)
          = filter (λ p, row_partition (p_start p) = k) (paired evs2)) as Hp
    by by rewrite !paired_filter, Heq.
  split; [done|]. split.
  - unfold _run_pairing. by rewrite !order_by_filter, Hp.
  - unfold fct_sessions. rewrite !filter_fmap. simpl. by rewrite Hp.
Qed.

(** *** The scenario of [test_lead_boundary_isolates_missing_end] *)

(** 10:00 start, 11:00 start, 11:30 end, all for user 1 and mentor M01;
    the end of the first session is missing. *)
Definition e1 : event := {|
  event_id := "e1"; event_type := "session_started";
  user_id := 1; mentor_id := "M01"; timestamp := 36000 |}.
Definition e3 : event := {|
  event_id := "e3"; event_type := "session_started";
  user_id := 1; mentor_id := "M01"; timestamp := 39600 |}.
Definition e4 : event := {|
  event_id := "e4"; event_type := "session_ended";
  user_id := 1; mentor_id := "M01"; timestamp := 41400 |}.
Definition crash_events : list event := [e1; e3; e4].

(** A start of another pair, with an end that would fit the first session. *)
Definition other_pair_events : list event := [
  {| event_id := "o1"; event_type := "session_started";
     user_id := 2; mentor_id := "M01"; timestamp := 36100 |};
  {| event_id := "o2"; event_type := "session_ended";
     user_id := 2; mentor_id := "M01"; timestamp := 36200 |}
].

(** Case analysis on an event of [crash_events]. *)
Ltac crash_event H :=
  unfold started_in, ended_in, crash_events in H;
  let Hin := fresh "Hin" in
  let Hty := fresh "Hty" in
  let Hk := fresh "Hk" in
  destruct H as (Hin & Hty & Hk);
  rewrite !elem_of_cons, elem_of_nil in Hin;
  destruct Hin as [->|[->|[->|[]]]];
  vm_compute in Hty; try contradiction.



(** A session of one second that crosses a minute boundary. *)
Definition minute_edge_events : list event := [
  {| event_id := "m1"; event_type := "session_started";
     user_id := 3; mentor_id := "M05"; timestamp := 36059 |};
  {| event_id := "m2"; event_type := "session_ended";
     user_id := 3; mentor_id := "M05"; timestamp := 36060 |}
].


Lemma pairing_depends_on_partition_only_witness :
  filter (λ p, row_partition (p_start p) = (1, "M01"%string))
    (paired (other_pair_events ++ crash_events))
  = filter (λ p, row_partition (p_start p) = (1, "M01"%string))
      (paired crash_events)
  ∧ filter (λ p, row_partition (p_start p) = (1, "M01"%string))
      (_run_pairing (other_pair_events ++ crash_events))
    = filter (λ p, row_partition (p_start p) = (1, "M01"%string))
        (_run_pairing crash_events)
  ∧ filter (λ r, row_partition (f_start r) = (1, "M01"%string))
      (fct_sessions 30 (other_pair_events ++ crash_events))
    = filter (λ r, row_partition (f_start r) = (1, "M01"%string))
        (fct_sessions 30 crash_events).
Proof.
  apply (pairing_depends_on_partition_only
           (other_pair_events ++ crash_events) crash_events
           (1, "M01"%string) 30).
  vm_compute. reflexivity.
Defined.

End PairingProperties.

(* ===================================================================== *)
(** * Part III. Further properties *)
(* ===================================================================== *)

(** ** config.py: the SQL fragments read back as the configured tiers *)
Section ConfigSqlProperties.
Import Config ConfigSql.

Lemma append_cons (x : ascii) (a b : string) :
  String x a +:+ b = String x (a +:+ b).
Proof. reflexivity. Qed.

Lemma append_empty_l (b : string) : EmptyString +:+ b = b.
Proof. reflexivity. Qed.

Lemma append_assoc (a b c : string) : (a +:+ b) +:+ c = a +:+ (b +:+ c).
Proof.
  induction a as [|x a IH]; [done|]. by rewrite !append_cons, IH.
Qed.

Lemma append_empty_r (a : string) : a +:+ EmptyString = a.
Proof. induction a as [|x a IH]; [done|]. by rewrite append_cons, IH. Qed.

(** Inside a literal the scanner reads the escaped text of [t] as [t]. *)
Lemma scan_literals_sanitized t current acc rest :
  scan_literals Inside current acc (_sanitize_tier t +:+ rest)
  = scan_literals Inside (current +:+ t) acc rest.
Proof.
  unfold _sanitize_tier. revert current.
  induction t as [|c t IH]; intros current.
  - by rewrite append_empty_r.
  - cbn [Validate.escape_quotes]. destruct (Ascii.eqb c "'"%char) eqn:Hc.
    + apply Ascii.eqb_eq in Hc as ->. rewrite !append_cons.
      cbn [scan_literals Ascii.eqb Bool.eqb].
      rewrite IH. by rewrite append_assoc.
    + rewrite append_cons. cbn [scan_literals]. rewrite Hc, IH.
      by rewrite append_assoc.
Qed.

Lemma scan_literals_join tiers acc :
  tiers ≠ [] →
  scan_literals Between EmptyString acc (join ", " (quoted <$> tiers))
  = Some (acc ++ tiers).
Proof.
  revert acc. induction tiers as [|t tiers IH]; intros acc Hne; [done|].
  destruct tiers as [|t' tiers].
  - cbn [fmap list_fmap join]. unfold quoted.
    cbn [scan_literals Ascii.eqb Bool.eqb].
    rewrite scan_literals_sanitized, append_empty_l.
    by cbn [scan_literals Ascii.eqb Bool.eqb].
  - change (join ", " (quoted <$> t :: t' :: tiers))
      with (quoted t +:+ ", " +:+ join ", " (quoted <$> t' :: tiers)).
    unfold quoted at 1. rewrite append_cons.
    cbn [scan_literals Ascii.eqb Bool.eqb].
    rewrite append_assoc, scan_literals_sanitized, append_empty_l.
    rewrite !append_cons, append_empty_l.
    cbn [scan_literals Ascii.eqb Bool.eqb].
    rewrite IH by done. by rewrite <- (assoc_L (++)).
Qed.

(** X1. For a configuration that [validate] accepts, the SQL fragments of
    [tiers_a_sql] and [tiers_b_sql] are comma-separated lists of string
    literals whose values are exactly the configured tier names, in order:
    whatever characters a tier name holds (quotes, commas, spaces), the
    escaping of [_sanitize_tier] keeps it inside its literal. *)
Theorem tiers_sql_reads_back (c : PipelineConfig) :
  validate c = inr () →
  sql_in_list_values (tiers_a_sql c) = Some (tiers_group_a c)
  ∧ sql_in_list_values (tiers_b_sql c) = Some (tiers_group_b c).
Proof.
  unfold validate. intros Hv.
  case_bool_decide as Ha; [done|]. case_bool_decide as Hb; [done|].
  unfold sql_in_list_values, tiers_a_sql, tiers_b_sql.
  by rewrite !scan_literals_join.
Qed.

Definition quoting_config : PipelineConfig := {|
  default_session_duration_minutes := 30;
  tiers_group_a := ["O'Neil"%string; "a', 'b"%string];
  tiers_group_b := ["'"%string; EmptyString];
  rebooking_window_days := None;
  dq_max_orphan_rate := dq_max_orphan_rate default_config;
  dq_max_duration_minutes := 240;
  environment := "dev";
  db_path := "warehouse.duckdb";
  known_tiers := [];
  step_timeout_seconds := 0
|}.

Lemma tiers_sql_reads_back_witness :
  tiers_a_sql quoting_config = "'O''Neil', 'a'', ''b'"%string
  ∧ sql_in_list_values (tiers_a_sql quoting_config)
    = Some ["O'Neil"%string; "a', 'b"%string]
  ∧ sql_in_list_values (tiers_b_sql quoting_config)
    = Some ["'"%string; EmptyString].
Proof.
  split; [reflexivity|].
  apply (tiers_sql_reads_back quoting_config). by vm_compute.
Defined.

End ConfigSqlProperties.

(** ** app.py: the configuration guard against [validate], and [_merge] *)
Section AppProperties.
Import Config App.

Lemma cfg_ok_spec ss :
  _cfg_ok ss = true ↔
  _tiers_a ss ≠ [] ∧ _tiers_b ss ≠ []
  ∧ (list_to_set (_tiers_a ss) ∩ list_to_set (_tiers_b ss) : gset string) = ∅.
Proof.
  unfold _cfg_ok. rewrite !andb_true_iff, !bool_decide_eq_true. tauto.
Qed.

(** X2. The dashboard's guard [_cfg_ok] is exactly the tier part of
    [validate]: when the defaults are valid, [validate] on the active
    configuration can only reject the duration or the window taken from the
    session state, never the tier groups; and when the guard fails the
    pipeline is run with the defaults. *)
Theorem active_cfg_passes_tier_validation (_defaults : PipelineConfig)
    (ss : session_state) :
  validate _defaults = inr () →
  match validate (_active_cfg _defaults ss) with
  | inr _ => True
  | inl NonPositiveDuration => _cfg_ok ss = true ∧ _duration ss <= 0
  | inl NonPositiveWindow =>
      _cfg_ok ss = true ∧ ∃ w, _window_days ss = Some w ∧ w <= 0
  | inl _ => False
  end
  ∧ (_cfg_ok ss = false → _active_cfg _defaults ss = _defaults).
Proof.
  intros Hd. unfold _active_cfg.
  destruct (_cfg_ok ss) eqn:Hok; [|by rewrite Hd].
  split; [|done]. apply cfg_ok_spec in Hok as (Ha & Hb & Ho).
  unfold validate. cbn [tiers_group_a tiers_group_b
    default_session_duration_minutes rebooking_window_days].
  rewrite !bool_decide_eq_false_2 by (by rewrite ?Ho; auto).
  destruct (_duration ss <=? 0) eqn:Hdur; [split; [done|lia]|].
  destruct (_window_days ss) as [w|]; [|done].
  destruct (w <=? 0) eqn:Hw; [|done].
  split; [done|]. exists w. split; [done|lia].
Qed.

Definition zero_duration_state : session_state := {|
  _tiers_a := ["Gold"%string];
  _tiers_b := ["Silver"%string];
  _window_days := None;
  _duration := 0
|}.

Lemma active_cfg_passes_tier_validation_witness :
  validate default_config = inr ()
  ∧ validate (_active_cfg default_config zero_duration_state)
    = inl NonPositiveDuration
  ∧ match validate (_active_cfg default_config zero_duration_state) with
    | inr _ => True
    | inl NonPositiveDuration =>
        _cfg_ok zero_duration_state = true ∧ _duration zero_duration_state <= 0
    | inl NonPositiveWindow =>
        _cfg_ok zero_duration_state = true
        ∧ ∃ w, _window_days zero_duration_state = Some w ∧ w <= 0
    | inl _ => False
    end
    ∧ (_cfg_ok zero_duration_state = false →
       _active_cfg default_config zero_duration_state = default_config).
Proof.
  split; [by vm_compute|]. split; [by vm_compute|].
  apply (active_cfg_passes_tier_validation default_config zero_duration_state).
  by vm_compute.
Defined.

(** X3. [_merge] never loses a result: a key of the new results takes the
    new value, every other key keeps the existing one; a run that returned
    nothing ([None]) leaves the existing results as they are, and the merge
    is [None] only when both sides are. *)
Theorem merge_keeps_existing_results {V : Type}
    (existing new : option (gmap string V)) (k : string) :
  default ∅ (_merge existing new) !! k
  = match default ∅ new !! k with
    | Some v => Some v
    | None => default ∅ existing !! k
    end
  ∧ _merge existing None = existing
  ∧ (_merge existing new = None ↔ existing = None ∧ new = None).
Proof.
  destruct existing as [e|], new as [n|]; simpl.
  - rewrite lookup_union. split_and!; [|done|naive_solver].
    by destruct (n !! k), (e !! k).
  - rewrite lookup_empty. split_and!; [done|done|naive_solver].
  - rewrite lookup_empty. split_and!; [|done|naive_solver].
    by destruct (n !! k).
  - rewrite lookup_empty. split_and!; [done|done|naive_solver].
Qed.

End AppProperties.

(** ** src/validate.py: the pre-flight validators *)
Section PreflightProperties.
Import Preflight.

(** X4. [validate_csv] reports nothing exactly when the file exists,
    decodes as UTF-8, opens, has every required column among its field
    names and yields a first data row; it never reports more than two
    issues, and a missing or undecodable file is reported alone. *)
Theorem validate_csv_passes_iff (p : path) (required_columns : gset string) :
  (validate_csv p required_columns = [] ↔
     exists_ p = true
     ∧ (∃ content, read p = Text content)
     ∧ ∃ fieldnames,
         reader p = Reader fieldnames NextRow
         ∧ required_columns ⊆ list_to_set (default [] fieldnames))
  ∧ (length (validate_csv p required_columns) ≤ 2)%nat
  ∧ (exists_ p = false ∨ (∀ content, read p ≠ Text content) →
     length (validate_csv p required_columns) = 1%nat).
Proof.
  unfold validate_csv, check_encoding.
  destruct (exists_ p); simpl.
  2: { split; [|split; [lia|done]]. split; [done|]. by intros [? _]. }
  destruct (read p) as [content| |]; simpl.
  2,3: split; [|split; [lia|done]]; split; [done|]; by intros (_ & [? ?] & _).
  destruct (reader p) as [|fieldnames next]; simpl.
  { split; [|split; [lia|]].
    - split; [done|]. by intros (_ & _ & ? & ? & _).
    - intros [?|Hr]; [done|]. by destruct (Hr content). }
  assert (∀ X : gset string,
    required_columns ∖ X = ∅ ↔ required_columns ⊆ X) as Hsub.
  { intros X. split; [intros HX x Hx|set_solver].
    destruct (decide (x ∈ X)); [done|].
    assert (x ∈ required_columns ∖ X) as Hin by set_solver.
    rewrite HX in Hin. set_solver. }
  split; [|split].
  - case_bool_decide as Hm; destruct next; simpl; split; try done;
      try (by intros (_ & _ & ? & [= <- ?] & ?));
      try (intros (_ & _ & ? & [= <-] & Hs); by apply Hsub in Hs).
    intros _. split_and!; [done|by eexists|].
    exists fieldnames. split; [done|]. apply Hsub.
    destruct (decide (required_columns ∖ list_to_set (default [] fieldnames)
                      = (∅ : gset string))); [done|by destruct Hm].
  - case_bool_decide; destruct next; simpl; lia.
  - intros [?|Hr]; [done|]. by destruct (Hr content).
Qed.

(** X5. [validate_json_file] returns no issue exactly when the file
    exists, decodes as UTF-8 and parses to a non-empty JSON array. It lets
    an exception through exactly when the file exists, decodes, and
    [json.loads] raises something other than [json.JSONDecodeError]. In
    every other case it returns exactly one issue. *)
Theorem validate_json_file_passes_iff (p : path) :
  (validate_json_file p = inr [] ↔
     exists_ p = true
     ∧ (∃ content, read p = Text content)
     ∧ ∃ n, loads p = JsonList (S n))
  ∧ ((∃ e, validate_json_file p = inl e) ↔
     exists_ p = true
     ∧ (∃ content, read p = Text content)
     ∧ loads p = LoadsRaises)
  ∧ (∀ issues, validate_json_file p = inr issues → issues ≠ [] →
       length issues = 1%nat).
Proof.
  unfold validate_json_file, check_encoding.
  destruct (exists_ p); simpl.
  2: { split; [|split].
       - split; [done|]. by intros [? _].
       - split; [by intros [? ?]|]. by intros [? _].
       - by intros issues [= <-]. }
  destruct (read p) as [content| |]; simpl.
  2,3: split; [|split];
    [ split; [done|]; by intros (_ & [? ?] & _)
    | split; [by intros [? ?]|]; by intros (_ & [? ?] & _)
    | by intros issues [= <-] ].
  destruct (loads p) as [| | [|n] |]; simpl; (split; [|split]).
  all: naive_solver.
Qed.

Lemma scan_duplicates_counts pk_col seen total dupes rows :
  scan_duplicates pk_col seen total dupes rows
  = (total + Z.of_nat (length rows),
     dupes + (Z.of_nat (length rows)
              - Z.of_nat (size (list_to_set (pk_value pk_col <$> rows) ∖ seen)))).
Proof.
  revert seen total dupes.
  induction rows as [|row rows IH]; intros seen total dupes.
  - cbn [scan_duplicates length fmap list_fmap list_to_set foldr].
    assert ((∅ : gset string) ∖ seen = ∅) as -> by set_solver.
    rewrite size_empty. f_equal; lia.
  - cbn [scan_duplicates]. rewrite fmap_cons, list_to_set_cons.
    set (val := pk_value pk_col row).
    set (K := list_to_set (pk_value pk_col <$> rows) : gset string).
    case_bool_decide as Hseen; rewrite IH; fold K.
    + assert (({[val]} ∪ K) ∖ seen = K ∖ seen) as -> by set_solver.
      cbn [length]. f_equal; lia.
    + assert (({[val]} ∪ K) ∖ seen = {[val]} ∪ K ∖ ({[val]} ∪ seen)) as ->.
      { apply set_eq. intros x. destruct (decide (x = val)); set_solver. }
      rewrite (size_union (C:=gset string) {[val]} (K ∖ ({[val]} ∪ seen)))
        by set_solver.
      rewrite size_singleton.
      cbn [length]. f_equal; lia.
Qed.

Lemma scan_duplicates_none pk_col seen total dupes rows :
  dupes <= (scan_duplicates pk_col seen total dupes rows).2
  ∧ ((scan_duplicates pk_col seen total dupes rows).2 = dupes ↔
     NoDup (pk_value pk_col <$> rows)
     ∧ ∀ k, k ∈ pk_value pk_col <$> rows → k ∉ seen).
Proof.
  revert seen total dupes.
  induction rows as [|row rows IH]; intros seen total dupes.
  - cbn. split; [lia|]. split; [|done]. intros _.
    split; [constructor|]. intros k Hk. by apply elem_of_nil in Hk.
  - cbn [scan_duplicates]. rewrite fmap_cons.
    set (val := pk_value pk_col row).
    case_bool_decide as Hseen.
    + destruct (IH seen (total + 1) (dupes + 1)) as [Hle _].
      split; [lia|]. split; [lia|].
      intros [_ Hfresh]. destruct (Hfresh val); [left|done].
    + destruct (IH ({[val]} ∪ seen) (total + 1) dupes) as [Hle Hiff].
      split; [done|]. rewrite Hiff, NoDup_cons. split.
      * intros [Hnd Hfresh]. split; [split; [|done]|].
        -- intros Hin. apply Hfresh in Hin. set_solver.
        -- intros k [->|Hin]%elem_of_cons; [done|].
           apply Hfresh in Hin. set_solver.
      * intros [[Hval Hnd] Hfresh]. split; [done|].
        intros k Hin. assert (k ∉ seen) by (apply Hfresh; by right).
        assert (k ≠ val) by (by intros ->). set_solver.
Qed.

(** X6. [detect_csv_duplicates] returns the number of rows scanned and,
    as duplicates, that number minus the number of distinct key values (a
    missing or empty key counts as the empty string); it reports no
    duplicate exactly when the keys are pairwise distinct. *)
Theorem detect_csv_duplicates_counts
    (rows : list (gmap string (option string))) (pk_col : string) :
  detect_csv_duplicates rows pk_col
  = (Z.of_nat (length rows),
     Z.of_nat (length rows)
     - Z.of_nat (size (list_to_set (pk_value pk_col <$> rows) : gset string)))
  ∧ ((detect_csv_duplicates rows pk_col).2 = 0 ↔
     NoDup (pk_value pk_col <$> rows)).
Proof.
  unfold detect_csv_duplicates. split.
  - rewrite scan_duplicates_counts.
    assert (∀ X : gset string, X ∖ ∅ = X) as -> by set_solver.
    f_equal; lia.
  - destruct (scan_duplicates_none pk_col ∅ 0 0 rows) as [_ ->].
    split; [by intros [? _]|]. intros Hnd. split; [done|set_solver].
Qed.

End PreflightProperties.

(** ** src/validate.py: what [run_checks] and [main] report *)
Section ValidateReports.
Import Config Validate.

Lemma count_pos_iff {A} (P : A → bool) (rows : list A) :
  0 < count P rows ↔ ∃ x, x ∈ rows ∧ P x = true.
Proof.
  unfold count. induction rows as [|r rows IH]; simpl.
  - split; [lia|]. intros (x & Hx & _). by apply elem_of_nil in Hx.
  - destruct (P r) eqn:Hr; simpl.
    + split; [|lia]. intros _. exists r. split; [left|done].
    + rewrite IH. split.
      * intros (x & Hx & HP). exists x. split; [by right|done].
      * intros (x & [->|Hx]%elem_of_cons & HP); [congruence|eauto].
Qed.

Ltac reports_leaf n1 n4 :=
  cbv beta iota delta [mbind sum_bind execute safe_fetchall safe_fetchone
                       not_none mret sum_ret fst snd];
  intros [= <- <-];
  exists n1, n4; eexists _, _;
  split; [reflexivity|];
  split; [reflexivity|];
  split; [first [reflexivity | symmetry; apply app_nil_r]|];
  split; [first [reflexivity | symmetry; apply app_nil_r]|];
  split;
  [ first [ left; reflexivity
          | right; eexists _, _; split; [|split; [reflexivity|eauto]];
            discriminate ]
  | first [ left; reflexivity
          | right; eexists _, _, _, _; split; [reflexivity|];
            split; [lia|assumption] ] ].

Ltac reports_check6 con config n1 n4 :=
  destruct config as [c|]; [|solve [reports_leaf n1 n4]];
  cbv beta iota zeta;
  destruct (tiers_group_a c ++ tiers_group_b c) as [|t0 ts] eqn:Htiers;
    [solve [reports_leaf n1 n4]|];
  destruct (q_existing_tiers con _) as [|[[|[ex|]]|]]; try discriminate;
  destruct (q_available_tiers con) as [|[[|[av|]]|]]; try discriminate;
  cbv beta iota delta [mbind sum_bind execute safe_fetchall mret sum_ret];
  match goal with
  | |- context [filter ?P ?l] => destruct (filter P l) eqn:Hmissing
  end;
  solve [reports_leaf n1 n4].

(** The shape of what a returning [run_checks] reports. *)
Lemma run_checks_shape (con : connection)
    (config : option PipelineConfig) (fs ws : list message) :
  run_checks con config = inr (fs, ws) →
  ∃ n1 n4 c6 c5,
    q_negative_durations con = ExecuteReturns (Some (Fetches (Some (Some n1))))
    ∧ q_duration_outliers con
        (match config with
         | Some c => dq_max_duration_minutes c
         | None => MAX_DURATION_MINS
         end) = ExecuteReturns (Some (Fetches (Some (Some n4))))
    ∧ fs = (if 0 <? n1 then [FailCheck1 n1] else []) ++ c6
    ∧ ws = (if 0 <? n4
            then [WarnCheck4 n4
                    (match config with
                     | Some c => dq_max_duration_minutes c
                     | None => MAX_DURATION_MINS
                     end)]
            else []) ++ c5
    ∧ (c6 = [] ∨ ∃ m a, m ≠ [] ∧ c6 = [FailCheck6 m a] ∧ is_Some config)
    ∧ (c5 = [] ∨ ∃ o t r th,
         c5 = [WarnCheck5 o t r th] ∧ 0 < t ∧ PrimFloat.ltb th r = true).
Proof.
  unfold run_checks, _table_exists.
  set (max_duration_mins :=
         match config with
         | Some c => dq_max_duration_minutes c
         | None => MAX_DURATION_MINS
         end).
  destruct (q_negative_durations con) as [|[[|[[n1|]|]]|]]; try discriminate.
  destruct (q_duration_outliers con max_duration_mins)
    as [|[[|[[n4|]|]]|]]; try discriminate.
  clearbody max_duration_mins.
  cbv beta iota delta [mbind sum_bind execute safe_fetchone not_none].
  destruct (q_table_count con "fct_bookings") as [|[[|[[nb|]|]]|]];
    try discriminate; cbv beta iota.
  1: destruct (negb (nb =? 0)); cbv beta iota.
  1: destruct (q_orphan_rate con) as [|[[|[[[tb|] [oc|]]|]]|]];
       try discriminate; cbv beta iota delta [fst snd];
     destruct (Z.ltb_spec 0 tb); cbv beta iota;
     [destruct (PrimFloat.ltb _ (true_div oc tb)) eqn:Hlt; cbv beta iota|].
  all: reports_check6 con config n1 n4.
Qed.

(** X7. Whatever the connection answers, a returning [run_checks] reports
    as failures only a Check 1 failure, with the positive count the first
    query returned, and a Check 6 failure, which needs a configuration and
    names at least one tier; as warnings only a Check 4 warning, with the
    positive count of the outlier query, and a Check 5 warning, with a rate
    above its threshold. Outliers and orphan requests never become
    failures, and each list has at most two entries. *)
Theorem run_checks_reports (con : connection)
    (config : option PipelineConfig) (fs ws : list message) :
  run_checks con config = inr (fs, ws) →
  (∀ m, m ∈ fs →
     (∃ n, m = FailCheck1 n ∧ 0 < n
           ∧ q_negative_durations con
             = ExecuteReturns (Some (Fetches (Some (Some n)))))
     ∨ (∃ missing available,
          m = FailCheck6 missing available ∧ missing ≠ [] ∧ is_Some config))
  ∧ (∀ m, m ∈ ws →
       (∃ n limit, m = WarnCheck4 n limit ∧ 0 < n
            ∧ q_duration_outliers con limit
              = ExecuteReturns (Some (Fetches (Some (Some n)))))
       ∨ (∃ o t r th, m = WarnCheck5 o t r th ∧ 0 < t
            ∧ PrimFloat.ltb th r = true))
  ∧ (length fs ≤ 2)%nat ∧ (length ws ≤ 2)%nat.
Proof.
  intros Hrun.
  destruct (run_checks_shape con config fs ws Hrun)
    as (n1 & n4 & c6 & c5 & Hq1 & Hq4 & -> & -> & Hc6 & Hc5).
  split; [|split; [|split]].
  - intros m [Hm|Hm]%elem_of_app.
    + destruct (Z.ltb_spec 0 n1); [|by apply elem_of_nil in Hm].
      apply list_elem_of_singleton in Hm as ->. left. by exists n1.
    + destruct Hc6 as [->|(ms & a & Hne & -> & Hcfg)];
        [by apply elem_of_nil in Hm|].
      apply list_elem_of_singleton in Hm as ->. right. by exists ms, a.
  - intros m [Hm|Hm]%elem_of_app.
    + destruct (Z.ltb_spec 0 n4); [|by apply elem_of_nil in Hm].
      apply list_elem_of_singleton in Hm as ->. left. by eexists n4, _.
    + destruct Hc5 as [->|(o & t & r & th & -> & Ht & Hlt)];
        [by apply elem_of_nil in Hm|].
      apply list_elem_of_singleton in Hm as ->. right. by exists o, t, r, th.
  - rewrite length_app.
    destruct Hc6 as [->|(ms & a & _ & -> & _)]; destruct (0 <? n1); cbn; lia.
  - rewrite length_app.
    destruct Hc5 as [->|(o & t & r & th & -> & _)]; destruct (0 <? n4);
      cbn; lia.
Qed.

Lemma run_checks_reports_witness :
  run_checks (duckdb drifted_db) None
  = inr ([FailCheck1 1],
         [WarnCheck4 1 240;
          WarnCheck5 1 2 (true_div 1 2) DEFAULT_ORPHAN_THRESHOLD])
  ∧ (∀ m, m ∈ [FailCheck1 1] →
       (∃ n, m = FailCheck1 n ∧ 0 < n
             ∧ q_negative_durations (duckdb drifted_db)
               = ExecuteReturns (Some (Fetches (Some (Some n)))))
       ∨ (∃ missing available,
            m = FailCheck6 missing available ∧ missing ≠ []
            ∧ is_Some (@None PipelineConfig)))
  ∧ (∀ m, m ∈ [WarnCheck4 1 240;
               WarnCheck5 1 2 (true_div 1 2) DEFAULT_ORPHAN_THRESHOLD] →
       (∃ n limit, m = WarnCheck4 n limit ∧ 0 < n
            ∧ q_duration_outliers (duckdb drifted_db) limit
              = ExecuteReturns (Some (Fetches (Some (Some n)))))
       ∨ (∃ o t r th, m = WarnCheck5 o t r th ∧ 0 < t
            ∧ PrimFloat.ltb th r = true))
  ∧ (length [FailCheck1 1] ≤ 2)%nat
  ∧ (length [WarnCheck4 1 240;
             WarnCheck5 1 2 (true_div 1 2) DEFAULT_ORPHAN_THRESHOLD] ≤ 2)%nat.
Proof.
  split; [reflexivity|].
  apply (run_checks_reports (duckdb drifted_db) None). reflexivity.
Defined.

Lemma run_checks_no_config_failures con fs ws :
  run_checks con None = inr (fs, ws) →
  ∃ n1,
    q_negative_durations con = ExecuteReturns (Some (Fetches (Some (Some n1))))
    ∧ fs = if 0 <? n1 then [FailCheck1 n1] else [].
Proof.
  intros Hrun.
  destruct (run_checks_shape con None fs ws Hrun)
    as (n1 & n4 & c6 & c5 & Hq1 & _ & -> & _ & Hc6 & _).
  exists n1. split; [done|].
  destruct Hc6 as [->|(ms & a & _ & _ & [c Hc])]; [|done].
  by rewrite app_nil_r.
Qed.

(** X8. The standalone entry point of validate.py closes the connection
    exactly when it was opened, and ends in one of three ways: it returns
    when the checks ran and found no negative duration; it exits with code
    1 when they ran and found some; it exits with code 2 when the
    connection could not be opened or a query went unanswered. Outliers and
    orphan requests alone never change the exit code. *)
Theorem validate_main_exit_codes (connect : option connection) :
  (ValidateCli.main connect).2 = bool_decide (is_Some connect)
  ∧ match (ValidateCli.main connect).1 with
    | ValidateCli.Returns =>
        ∃ con n, connect = Some con
          ∧ ¬ infrastructure_failure con None
          ∧ q_negative_durations con
            = ExecuteReturns (Some (Fetches (Some (Some n))))
          ∧ n <= 0
    | ValidateCli.SysExit code =>
        (code = 1
         ∧ ∃ con n, connect = Some con
             ∧ ¬ infrastructure_failure con None
             ∧ q_negative_durations con
               = ExecuteReturns (Some (Fetches (Some (Some n))))
             ∧ 0 < n)
        ∨ (code = 2
           ∧ (connect = None
              ∨ ∃ con, connect = Some con ∧ infrastructure_failure con None))
    end.
Proof.
  destruct connect as [con|]; unfold ValidateCli.main; [|simpl; eauto].
  destruct (run_checks con None) as [e|[fs ws]] eqn:Hrun.
  - split; [done|]. right. split; [done|]. right. exists con.
    split; [done|]. apply run_checks_raises_iff. eauto.
  - assert (¬ infrastructure_failure con None) as Hno.
    { intros [e He]%run_checks_raises_iff. congruence. }
    destruct (run_checks_no_config_failures _ _ _ Hrun) as (n & Hq & ->).
    destruct (Z.ltb_spec 0 n); (split; [done|]).
    + left. split; [done|]. by exists con, n.
    + by exists con, n.
Qed.

Lemma count_nonpos_iff {A} (P : A → bool) (rows : list A) :
  count P rows <= 0 ↔ ∀ x, x ∈ rows → P x = false.
Proof.
  split.
  - intros Hc x Hx. destruct (P x) eqn:HP; [|done].
    assert (0 < count P rows) by (apply count_pos_iff; eauto). lia.
  - intros Hall. destruct (Z.ltb_spec 0 (count P rows)) as [Hpos|]; [|done].
    apply count_pos_iff in Hpos as (x & Hx & HP).
    rewrite (Hall x Hx) in HP. done.
Qed.

(** X9. On a warehouse, with a configuration that names tiers, the
    checks return no failure exactly when no session has a negative
    duration and every configured tier occurs in [dim_mentors]: the two
    conditions, and no other, decide whether the run is halted. *)
Theorem run_checks_duckdb_passes_iff (db : database) (c : PipelineConfig)
    (fs ws : list message) :
  tiers_group_a c ++ tiers_group_b c ≠ [] →
  run_checks (duckdb db) (Some c) = inr (fs, ws) →
  ∃ sessions mentors,
    fct_sessions db = Some sessions
    ∧ dim_mentors db = Some mentors
    ∧ (fs = [] ↔
       (∀ d, Some d ∈ sessions → 0 <= d)
       ∧ ∀ t, t ∈ tiers_group_a c ++ tiers_group_b c → Some t ∈ mentors).
Proof.
  intros Hne Hrun.
  destruct (run_checks_duckdb_check6 db c fs ws Hne Hrun)
    as (mentors & missing & available & Hm & Hmissing & _ & Hfail).
  destruct (run_checks_config_failures (duckdb db) c fs ws Hne Hrun)
    as (n1 & existing & available' & Hn1 & _ & _ & Hfs).
  unfold answers, duckdb, from_table in Hn1. cbn in Hn1.
  destruct (fct_sessions db) as [sessions|] eqn:Hs; [|discriminate].
  injection Hn1 as Hn1.
  exists sessions, mentors. split; [done|]. split; [done|].
  assert (n1 <= 0 ↔ ∀ d, Some d ∈ sessions → 0 <= d) as Hneg.
  { rewrite <- Hn1, count_nonpos_iff. split.
    - intros Hall d Hd. apply Hall in Hd. lia.
    - intros Hall [d|] Hd; [|done]. apply Hall in Hd. lia. }
  assert (missing = [] ↔
          ∀ t, t ∈ tiers_group_a c ++ tiers_group_b c → Some t ∈ mentors)
    as Htiers.
  { split.
    - intros -> t Ht. destruct (decide (Some t ∈ mentors)); [done|].
      assert (t ∈ @nil string) as Hin by (apply Hmissing; done).
      by apply elem_of_nil in Hin.
    - intros Hall. destruct missing as [|t missing]; [done|].
      assert (t ∈ t :: missing) as Hin by left.
      apply Hmissing in Hin as [Ht Hnot]. destruct Hnot. auto. }
  rewrite <- Hneg, <- Htiers. split.
  - intros ->. symmetry in Hfs. apply app_eq_nil in Hfs as [H1 H6].
    split; [destruct (Z.ltb_spec 0 n1); [done|lia]|].
    destruct missing as [|t missing]; [done|].
    assert (FailCheck6 (t :: missing) available ∈ @nil message) as Hin
      by (by apply Hfail).
    by apply elem_of_nil in Hin.
  - intros [Hle ->]. rewrite Hfs.
    destruct (Z.ltb_spec 0 n1); [lia|]. cbn [app].
    unfold check6_failures in *.
    destruct (filter _ _) as [|t l] eqn:Hf; [done|].
    assert (FailCheck6 (t :: l) available' ∈ fs) as Hin.
    { rewrite Hfs. cbn [app]. left. }
    apply Hfail in Hin as (Heq & _ & _). discriminate.
Qed.

Lemma run_checks_duckdb_passes_iff_witness :
  run_checks (duckdb seeded_db) (Some default_config)
  = inr ([FailCheck6 ["Bronze"%string] [Some "Gold"%string; Some "Silver"%string]], [])
  ∧ ∃ sessions mentors,
    fct_sessions seeded_db = Some sessions
    ∧ dim_mentors seeded_db = Some mentors
    ∧ ([FailCheck6 ["Bronze"%string] [Some "Gold"%string; Some "Silver"%string]] = [] ↔
       (∀ d, Some d ∈ sessions → 0 <= d)
       ∧ ∀ t, t ∈ tiers_group_a default_config ++ tiers_group_b default_config
              → Some t ∈ mentors).
Proof.
  split; [by vm_compute|].
  apply (run_checks_duckdb_passes_iff seeded_db default_config _ []);
    [done|by vm_compute].
Defined.

(** X10. When [fct_bookings] exists but holds no row, [run_checks] does
    not reach its "fct_bookings is empty" branch: [SUM] over no rows is
    NULL, so the orphan check raises [DataQualityError] ("Check 5: NULL
    values returned") with or without a configuration. *)
Theorem run_checks_empty_bookings_raises (db : database)
    (config : option PipelineConfig) (sessions : list (option Z)) :
  fct_sessions db = Some sessions →
  fct_bookings db = Some [] →
  run_checks (duckdb db) config = inl (NullValue "Check 5").
Proof.
  intros Hs Hb. unfold run_checks, _table_exists, duckdb, from_table,
    table_names.
  cbn -[count String.eqb]. rewrite Hs, Hb. cbn -[count String.eqb].
  destruct (bool_decide (is_Some (dim_mentors db)));
    by cbn.
Qed.

Lemma run_checks_empty_bookings_raises_witness :
  run_checks
    (duckdb {| fct_sessions := Some [Some 30];
               fct_bookings := Some [];
               dim_mentors := None |})
    (Some default_config)
  = inl (NullValue "Check 5").
Proof.
  apply (run_checks_empty_bookings_raises _ _ [Some 30]); reflexivity.
Defined.

End ValidateReports.

(** ** run_pipeline.py: the order of the phases *)
Section PipelineProperties.
Import Config Pipeline.

(** X11. The phases run in order and the run stops at the first one that
    raises: the phases started are a prefix of the mode's phases, all of
    them but possibly the last completed, and the run returns exactly when
    every phase of the mode completes. *)
Theorem run_phases_stops_at_first_failure (succeeds : phase → bool)
    (ps : list phase) :
  (run_phases succeeds ps).1 `prefix_of` ps
  ∧ match (run_phases succeeds ps).2 with
    | Returned =>
        (run_phases succeeds ps).1 = ps ∧ ∀ p, p ∈ ps → succeeds p = true
    | PhaseError p =>
        ∃ before after,
          ps = before ++ p :: after
          ∧ (run_phases succeeds ps).1 = before ++ [p]
          ∧ succeeds p = false
          ∧ ∀ q, q ∈ before → succeeds q = true
    | _ => False
    end.
Proof.
  induction ps as [|p ps [Hpre IH]]; cbn [run_phases].
  - split; [done|]. split; [done|]. intros p Hp. by apply elem_of_nil in Hp.
  - destruct (succeeds p) eqn:Hp.
    + destruct (run_phases succeeds ps) as [tr o]. cbn [fst snd] in *.
      split; [by apply prefix_cons|].
      destruct o as [| |q|]; try done.
      * destruct IH as (before & after & -> & -> & Hq & Hall).
        exists (p :: before), after. split_and!; try done.
        intros q' [->|Hin]%elem_of_cons; auto.
      * destruct IH as [-> Hall]. split; [done|].
        intros q [->|Hin]%elem_of_cons; auto.
    + cbn [fst snd]. split; [by apply prefix_cons, prefix_nil|].
      exists [], ps. split_and!; try done.
      intros q Hq. by apply elem_of_nil in Hq.
Qed.

End PipelineProperties.

(** ** run_pipeline.py: [main] against the phase model, and its log entry *)
Section PipelineRunProperties.
Import Config Validate Pipeline PipelineRun.

(** The phase in which an instant lies. *)
Definition phase_of (m : moment) : phase :=
  match m with
  | InPreflight | InIngest | AfterIngest _ => Ingest
  | InTransform => Transform
  | InChecks | InRunChecks | InWarnings _ | ChecksPassed => Validate
  | EnteringAnalysis | InAnalysis | InSanity _ => Analyse
  end.

(** Whether the timer interrupts a phase. *)
Definition interrupted (config : PipelineConfig) (w : world) (p : phase)
  : bool :=
  match timer config w with
  | Some m =>
      match phase_of m, p with
      | Ingest, Ingest | Transform, Transform
      | Validate, Validate | Analyse, Analyse => true
      | _, _ => false
      end
  | None => false
  end.

(** Whether a phase completes in a world. *)
Definition completes (config : PipelineConfig) (w : world) (p : phase)
  : bool :=
  negb (interrupted config w p)
  && match p with
     | Ingest => bool_decide (is_Some (ingest_main w))
     | Transform => dbt_snapshot w && dbt_run w && row_counts w
     | Validate =>
         dbt_test w
         && match run_checks (con w) (Some config) with
            | inr ([], _) => true
            | _ => false
            end
     | Analyse => bool_decide (is_Some (rebooking w)) && booking_reliability w
     end.

(** Closes a goal once the run has ended. *)
Ltac run_leaf :=
  rewrite ?bool_decide_eq_true_2 by eauto;
  rewrite ?bool_decide_eq_false_2 by (by intros [? ?]);
  cbn [fst snd app negb andb strikes strikes_after_ingest
       strikes_in_warnings strikes_in_sanity];
  lazymatch goal with
  | |- _ = _ ∧ _ => (split; [reflexivity|]); split; intros; congruence
  end.

(** X12. The step-by-step [main] runs the phases of the phase model: the
    phases it starts and the way it ends are those of [Pipeline.main] when a
    phase completes exactly if the timer does not interrupt it, its commands
    and queries succeed and, for the validation phase, [run_checks] returns
    without a failure. *)
Theorem main_refines_phase_model (config : PipelineConfig) (mode : string)
    (w : world) :
  match PipelineRun.main config mode w with
  | ConfigRejected e =>
      Pipeline.main config mode (completes config w) = ([], ConfigError e)
  | Ran started logged returned =>
      (Pipeline.main config mode (completes config w)).1 = started
      ∧ (returned = true ↔
         (Pipeline.main config mode (completes config w)).2 = Returned)
  end.
Proof.
  unfold PipelineRun.main, Pipeline.main, phases_of_mode.
  destruct (validate config) as [e|[]]; [done|].
  cbv zeta. unfold step1, steps23, step4, failed, succeeded, timed_out.
  destruct (String.eqb mode "full");
    [|destruct (String.eqb mode "ingest-only");
      [|destruct (String.eqb mode "transform-only");
        [|destruct (String.eqb mode "analysis-only")]]].
  all: cbn [run_phases]; unfold completes, interrupted.
  all: destruct (timer config w) as [[| | | | | | | | | |]|];
    cbn [phase_of negb andb strikes strikes_after_ingest strikes_in_warnings
         strikes_in_sanity].
  all: try solve [run_leaf].
  all: try (lazymatch goal with |- context [ingest_main _] => idtac end;
            destruct (ingest_main w) as [[nu ne]|]; try solve [run_leaf]).
  all: try (lazymatch goal with |- context [dbt_snapshot _] => idtac end;
            destruct (dbt_snapshot w); try solve [run_leaf];
            destruct (dbt_run w); try solve [run_leaf];
            destruct (row_counts w); try solve [run_leaf];
            destruct (dbt_test w); try solve [run_leaf];
            destruct (run_checks (con w) (Some config))
              as [err|[[|f fs] ws]];
            try solve [run_leaf]).
  all: destruct (rebooking w) as [rows|]; try solve [run_leaf].
  all: destruct (booking_reliability w); run_leaf.
Qed.

(** Whether the checks of step 3 return, and whether they pass. *)
Definition checks_return (config : PipelineConfig) (w : world) : bool :=
  dbt_test w
  && match run_checks (con w) (Some config) with
     | inr _ => true
     | inl _ => false
     end.

Definition checks_pass (config : PipelineConfig) (w : world) : bool :=
  dbt_test w
  && match run_checks (con w) (Some config) with
     | inr ([], _) => true
     | _ => false
     end.

(** Whether a run in mode [mode] that the timer leaves alone gets to an
    instant: the steps before it are in the mode and succeed. *)
Definition reaches (config : PipelineConfig) (mode : string) (w : world)
    (m : moment) : bool :=
  let ingests := String.eqb mode "full" || String.eqb mode "ingest-only" in
  let ingested := bool_decide (is_Some (ingest_main w)) in
  let transforms :=
    String.eqb mode "full" && ingested || String.eqb mode "transform-only" in
  let transformed := dbt_snapshot w && dbt_run w && row_counts w in
  let analyses :=
    String.eqb mode "full" && ingested && transformed
      && checks_pass config w
    || String.eqb mode "analysis-only" in
  match m with
  | InPreflight | InIngest => ingests
  | AfterIngest _ => ingests && ingested
  | InTransform => transforms
  | InChecks => transforms && transformed
  | InRunChecks => transforms && transformed && dbt_test w
  | InWarnings _ => transforms && transformed && checks_return config w
  | ChecksPassed => transforms && transformed && checks_pass config w
  | EnteringAnalysis | InAnalysis => analyses
  | InSanity _ => analyses && bool_decide (is_Some (rebooking w))
  end.

(** What the entry of a run must satisfy, by the mode. *)
Definition entry_ok (config : PipelineConfig) (mode : string) (w : world)
    (started : list phase) (logged : finish) (returned : bool) : Prop :=
  (status logged = "success"%string ↔ returned = true)
  ∧ (status logged = "failed"%string ∨ status logged = "timeout"%string
     ↔ returned = false)
  ∧ (status logged = "timeout"%string
     ↔ ∃ m, timer config w = Some m ∧ caught m = false
            ∧ reaches config mode w m = true)
  ∧ (status logged = "timeout"%string → 0 < step_timeout_seconds config)
  ∧ error logged = negb returned
  ∧ (dq_passed logged = true →
     mode = "analysis-only"%string
     ∨ ∃ ws, run_checks (con w) (Some config) = inr ([], ws))
  ∧ (Analyse ∈ started →
     mode = "analysis-only"%string
     ∨ ∃ ws, run_checks (con w) (Some config) = inr ([], ws))
  ∧ (mode = "ingest-only"%string → dq_passed logged = false)
  ∧ (∀ fs ws m,
       interrupted config w Validate = false →
       Validate ∈ started → dbt_test w = true →
       run_checks (con w) (Some config) = inr (fs, ws) →
       m ∈ ws → DataQuality m ∈ warnings logged)
  ∧ (∀ x, x ∈ warnings logged →
       (∃ fs ws m, run_checks (con w) (Some config) = inr (fs, ws)
                   ∧ m ∈ ws ∧ x = DataQuality m)
       ∨ (∃ rows row, rebooking w = Some rows ∧ row ∈ rows
                      ∧ x ∈ sanity_check row))
  ∧ (∀ nu ne,
       Ingest ∈ started → ingest_main w = Some (nu, ne) →
       timer config w ≠ Some InPreflight →
       timer config w ≠ Some InIngest →
       new_users logged = nu
       ∧ (timer config w ≠ Some (AfterIngest false) → new_events logged = ne))
  ∧ (Ingest ∉ started → new_users logged = 0 ∧ new_events logged = 0).

Lemma timer_set (config : PipelineConfig) (w : world) (m : moment) :
  timer config w = Some m → 0 < step_timeout_seconds config.
Proof.
  unfold timer. destruct (Z.ltb_spec 0 (step_timeout_seconds config)); [done|].
  discriminate.
Qed.

Ltac not_started H :=
  repeat (apply elem_of_cons in H as [H|H]; [discriminate H|]);
  by apply elem_of_nil in H.

(** Where a logged warning comes from. *)
Ltac warning_source Hx :=
  repeat (apply elem_of_app in Hx as [Hx|Hx]);
  try apply subseteq_take in Hx;
  first
    [ by apply elem_of_nil in Hx
    | left; apply list_elem_of_fmap in Hx as (? & -> & ?); eauto 6
    | right; apply list_elem_of_bind in Hx as (? & ? & ?); eauto 6 ].

(** Evaluates [reaches] in the goal, or in [H], with what is known of the
    world. *)
Ltac eval_reaches :=
  cbv beta iota zeta delta [reaches checks_pass checks_return];
  repeat match goal with
         | E : _ = _ |- _ => rewrite E
         end;
  rewrite ?bool_decide_eq_true_2 by eauto;
  rewrite ?bool_decide_eq_false_2 by (by intros [? ?]);
  cbn [andb orb String.eqb Ascii.eqb Bool.eqb].

Ltac eval_reaches_in H := revert H; eval_reaches; intros H.

Ltac timeout_leaf :=
  match goal with
  | Ht : timer _ _ = _ |- _ => rewrite Ht
  end;
  split;
  [ first [ intros; discriminate
          | intros _; eexists; split; [reflexivity|];
            split; [reflexivity|]; eval_reaches; reflexivity ]
  | first [ intros; reflexivity
          | intros (m0 & Hm0 & Hne & Hreach); exfalso;
            first [ discriminate Hm0
                  | injection Hm0 as <-;
                    first [ discriminate Hne
                          | eval_reaches_in Hreach; discriminate Hreach ] ] ] ].

Ltac entry_leaf :=
  lazymatch goal with |- _ ∧ entry_ok _ _ _ _ _ _ => idtac end;
  split; [reflexivity|];
  unfold entry_ok;
  cbn [status new_users new_events dq_passed error warnings negb app];
  split; [split; intros; congruence|];
  split; [split; [intros; reflexivity || (exfalso; intuition congruence)
                 | intros; first [left; reflexivity | right; reflexivity
                                 | congruence]]|];
  split; [timeout_leaf|];
  split; [first [ intros; discriminate | intros _; eauto using timer_set ]|];
  split; [reflexivity|];
  split; [first [ intros; discriminate
                | intros _; left; reflexivity
                | intros _; right; eauto ]|];
  split; [first [ intros Hin; exfalso; not_started Hin
                | intros _; left; reflexivity
                | intros _; right; eauto ]|];
  split; [first [ reflexivity | intros; discriminate | intros; congruence ]|];
  split;
  [ first [ intros ? ? ? _ Hin; exfalso; not_started Hin
          | intros ? ? ? Hquiet; exfalso; unfold interrupted in Hquiet;
            match goal with
            | Ht : timer _ _ = _ |- _ => rewrite Ht in Hquiet
            end;
            cbn [phase_of] in Hquiet; discriminate Hquiet
          | intros; congruence
          | intros ? ? ? _ _ _ Hrun' Hm;
            match goal with
            | Hrun : run_checks _ _ = _ |- _ =>
                rewrite Hrun in Hrun'; injection Hrun' as <- <-
            end;
            rewrite ?elem_of_app; try left;
            apply list_elem_of_fmap; eauto ]|];
  split; [intros x Hx; warning_source Hx|];
  split;
  [ first [ intros ? ? Hin; exfalso; not_started Hin
          | intros ? ? _ Hing' Ht' Ht'';
            first [ congruence
                  | split; [congruence|]; intros; congruence ] ]
  | first [ intros; split; reflexivity
          | intros Hnot; exfalso; apply Hnot; set_solver ] ].

(** X13. The entry [main] writes to the run log tells how the run went. Its
    status is "success" exactly when [main] returns, and "failed" or
    "timeout" when it raises, with an error message in that case only. It is
    "timeout" exactly when the exception of the step timer arrives at an
    instant the run gets to and is not caught there: inside the [try] of
    [validate_csv] or of [run_checks] it is, and the run is logged as
    "failed". A timeout needs a positive [step_timeout_seconds]. The entry
    says that the data-quality checks passed only if [run_checks] returned
    without a failure or the mode is "analysis-only", where no check is
    run; the analysis is started under the same condition; an ingest-only
    run never says that the checks passed. Unless the timer interrupts the
    validation, the warnings of [run_checks] are in the entry even when the
    run is halted, and every warning in the entry is one of [run_checks] or
    one of the sanity check on a row of the rebooking analysis. The ingested
    counts are in the entry even when a later phase fails, unless the timer
    struck before they were assigned, and they are zero when nothing is
    ingested. *)
Theorem main_log_entry (config : PipelineConfig) (mode : string) (w : world) :
  match PipelineRun.main config mode w with
  | ConfigRejected e => validate config = inl e
  | Ran started logged returned =>
      validate config = inr ()
      ∧ entry_ok config mode w started logged returned
  end.
Proof.
  unfold PipelineRun.main.
  destruct (validate config) as [e|[]]; [done|].
  cbv zeta. unfold step1, steps23, step4, failed, succeeded, timed_out.
  destruct (String.eqb mode "full") eqn:Hfull;
    [apply String.eqb_eq in Hfull as ->
    |destruct (String.eqb mode "ingest-only") eqn:Hingest;
      [apply String.eqb_eq in Hingest as ->
      |destruct (String.eqb mode "transform-only") eqn:Htransform;
        [apply String.eqb_eq in Htransform as ->
        |destruct (String.eqb mode "analysis-only") eqn:Hanalysis;
          [apply String.eqb_eq in Hanalysis as ->|]]]].
  all: destruct (timer config w) as [[| |[|]| | | | | | | |]|] eqn:Ht;
    cbn [strikes strikes_after_ingest strikes_in_warnings strikes_in_sanity].
  all: try solve [entry_leaf].
  all: try (lazymatch goal with |- context [ingest_main _] => idtac end;
            destruct (ingest_main w) as [[nu ne]|] eqn:Hing;
            try solve [entry_leaf]).
  all: try (lazymatch goal with |- context [dbt_snapshot _] => idtac end;
            destruct (dbt_snapshot w) eqn:Hsnap; cbn [negb];
            try solve [entry_leaf];
            destruct (dbt_run w) eqn:Hdbt; cbn [negb];
            try solve [entry_leaf];
            destruct (row_counts w) eqn:Hrows; cbn [negb];
            try solve [entry_leaf];
            destruct (dbt_test w) eqn:Htest; cbn [negb];
            try solve [entry_leaf];
            destruct (run_checks (con w) (Some config))
              as [err|[[|f fs] ws]] eqn:Hrun;
            try solve [entry_leaf]).
  all: destruct (rebooking w) as [rows|] eqn:Hreb; try solve [entry_leaf].
  all: destruct (booking_reliability w) eqn:Hrel.
  all: solve [entry_leaf].
Qed.

End PipelineRunProperties.

(** ** run_pipeline.py: the run log *)
Section RunLogProperties.
Import Config RunLog.

(** Every entry of every log file that parses, the day file first. *)
Definition all_entries (d : logs_dir) : list entry :=
  _read_day d ++ concat (default [] <$> other_files d).

(** Run ids are pairwise distinct and number the entries from 1. *)
Definition unique_ids (d : logs_dir) : Prop :=
  NoDup (run_id <$> all_entries d)
  ∧ ∀ e, e ∈ all_entries d → 1 <= run_id e <= Z.of_nat (length (all_entries d)).

Lemma foldl_count (files : list (option (list entry))) (total : Z) :
  foldl (λ total f,
           match f with
           | Some entries => total + Z.of_nat (length entries)
           | None => total
           end) total files
  = total + Z.of_nat (length (concat (default [] <$> files))).
Proof.
  revert total. induction files as [|[entries|] files IH]; intros total;
    cbn [foldl fmap list_fmap concat default from_option id].
  - cbn. lia.
  - rewrite IH, length_app. lia.
  - rewrite IH. cbn. lia.
Qed.

Lemma next_run_id_counts d :
  _next_run_id d = Z.of_nat (length (all_entries d)) + 1.
Proof.
  unfold _next_run_id, all_entries, json_files, _read_day.
  rewrite foldl_count, length_app.
  destruct (day_file d) as [[entries|]|]; cbn; rewrite ?length_app; lia.
Qed.

Lemma all_entries_write d entries :
  all_entries (_write_atomic d entries)
  = entries ++ concat (default [] <$> other_files d).
Proof. reflexivity. Qed.

Lemma replace_first_spec id new entries :
  match replace_first id new entries with
  | Some replaced =>
      ∃ before old after,
        entries = before ++ old :: after
        ∧ replaced = before ++ new :: after
        ∧ run_id old = id
        ∧ ∀ e, e ∈ before → run_id e ≠ id
  | None => ∀ e, e ∈ entries → run_id e ≠ id
  end.
Proof.
  induction entries as [|e entries IH]; cbn [replace_first].
  - intros e He. by apply elem_of_nil in He.
  - destruct (Z.eqb_spec (run_id e) id) as [Heq|Hne].
    + exists [], e, entries. split_and!; try done.
      intros x Hx. by apply elem_of_nil in Hx.
    + destruct (replace_first id new entries) as [replaced|]; cbn.
      * destruct IH as (before & old & after & -> & -> & Hold & Hbefore).
        exists (e :: before), old, after. split_and!; try done.
        intros x [->|Hx]%elem_of_cons; auto.
      * intros x [->|Hx]%elem_of_cons; auto.
Qed.

(** X14. A run that starts takes a fresh id: when the ids in the log
    files are pairwise distinct and number the entries from 1, the id given
    to a new run occurs in no file, and the ids are still distinct and
    consecutive once [start] has written its entry; a file that does not
    parse is counted as empty. *)
Theorem start_keeps_run_ids_unique (config : PipelineConfig) (now : Z)
    (d : logs_dir) :
  unique_ids d →
  (∀ e, e ∈ all_entries d → run_id e ≠ _run_id (__init__ config now d))
  ∧ unique_ids (start (__init__ config now d) d)
  ∧ _read_day (start (__init__ config now d) d)
    = _read_day d ++ [_entry (__init__ config now d)].
Proof.
  intros [Hnd Hbound].
  assert (∀ e, e ∈ all_entries d →
               run_id e ≠ _run_id (__init__ config now d)) as Hfresh.
  { intros e He. apply Hbound in He. cbn [__init__ _run_id].
    rewrite next_run_id_counts. lia. }
  split; [done|]. split; [|done].
  unfold unique_ids, start. rewrite all_entries_write.
  set (new := _entry (__init__ config now d)).
  assert (run_id new = Z.of_nat (length (all_entries d)) + 1) as Hid.
  { subst new. cbn. apply next_run_id_counts. }
  assert ((_read_day d ++ [new]) ++ concat (default [] <$> other_files d)
          ≡ₚ new :: all_entries d) as Hperm.
  { unfold all_entries. rewrite <- (assoc_L (++)). cbn [app].
    symmetry. apply Permutation_middle. }
  split.
  - rewrite Hperm. cbn [fmap list_fmap]. apply NoDup_cons. split; [|done].
    intros (e & Heq & He)%list_elem_of_fmap. apply Hbound in He. lia.
  - intros e He. rewrite Hperm in He. rewrite Hperm. cbn [length].
    apply elem_of_cons in He as [->|He]; [lia|].
    apply Hbound in He. lia.
Qed.

Definition first_entry : entry :=
  _entry (__init__ default_config 0
            {| day_file := None; other_files := [] |}).

Definition yesterday_logs : logs_dir :=
  {| day_file := None; other_files := [None; Some [first_entry]] |}.

Lemma start_keeps_run_ids_unique_witness :
  _run_id (__init__ default_config 86400 yesterday_logs) = 2
  ∧ (∀ e, e ∈ all_entries yesterday_logs →
          run_id e ≠ _run_id (__init__ default_config 86400 yesterday_logs))
  ∧ unique_ids (start (__init__ default_config 86400 yesterday_logs)
                  yesterday_logs)
  ∧ _read_day (start (__init__ default_config 86400 yesterday_logs)
                 yesterday_logs)
    = _read_day yesterday_logs
      ++ [_entry (__init__ default_config 86400 yesterday_logs)].
Proof.
  split; [reflexivity|].
  apply (start_keeps_run_ids_unique default_config 86400 yesterday_logs).
  split.
  - apply NoDup_singleton.
  - intros e He. apply list_elem_of_singleton in He as ->. by vm_compute.
Defined.

(** X15. [finish] rewrites the entry of its own run and nothing else: in
    the day file the entries of other runs are untouched and keep their
    order, the finished entry is present, the number of entries is kept
    when the run's entry is there and grows by one when it is not, and the
    other files are left as they are. *)
Theorem finish_updates_own_entry (self : PipelineRunLog) (now : Z)
    (status_ : string) (new_users new_events : Z) (dq_passed : bool)
    (error : option string) (d : logs_dir) :
  run_id (_entry self) = _run_id self →
  let after := finish self now status_ new_users new_events dq_passed error d in
  filter (λ e, run_id e ≠ _run_id self) (_read_day after.2)
  = filter (λ e, run_id e ≠ _run_id self) (_read_day d)
  ∧ _entry after.1 ∈ _read_day after.2
  ∧ length (_read_day after.2)
    = (if bool_decide (_run_id self ∈ run_id <$> _read_day d)
       then length (_read_day d) else S (length (_read_day d)))
  ∧ other_files after.2 = other_files d
  ∧ status (_entry after.1) = status_
  ∧ warnings (_entry after.1) = _warnings self.
Proof.
  intros Hid. cbn zeta. unfold finish. cbn [fst snd _entry].
  set (updated := {| run_id := run_id (_entry self) |}).
  assert (run_id updated = _run_id self) as Hup by done.
  pose proof (replace_first_spec (_run_id self) updated (_read_day d)) as Hrep.
  destruct (replace_first _ _ _) as [replaced|]; cbn [_read_day _write_atomic
    day_file other_files].
  - destruct Hrep as (before & old & after & Hd & -> & Hold & Hbefore).
    rewrite Hd. split_and!; try done.
    + rewrite !filter_app, !filter_cons.
      rewrite !decide_False by (intros Hne; by apply Hne). done.
    + apply elem_of_app. right. left.
    + rewrite bool_decide_eq_true_2.
      * rewrite !length_app. done.
      * apply list_elem_of_fmap. exists old. split; [done|].
        apply elem_of_app. right. left.
  - split_and!; try done.
    + rewrite filter_app, filter_cons.
      rewrite decide_False by (intros Hne; by apply Hne).
      by rewrite filter_nil, app_nil_r.
    + apply elem_of_app. right. left.
    + rewrite bool_decide_eq_false_2.
      * rewrite length_app. cbn. lia.
      * intros (e & Heq & He)%list_elem_of_fmap. by apply Hrep in He.
Qed.

Definition first_run : PipelineRunLog :=
  __init__ default_config 0 {| day_file := None; other_files := [] |}.

Lemma finish_updates_own_entry_witness :
  _read_day
    (finish first_run 60 "success" 2 2 true None
       (start first_run {| day_file := None; other_files := [] |})).2
  = [_entry (finish first_run 60 "success" 2 2 true None
               (start first_run {| day_file := None; other_files := [] |})).1]
  ∧ (let after :=
       finish first_run 60 "success" 2 2 true None
         (start first_run {| day_file := None; other_files := [] |}) in
     filter (λ e, run_id e ≠ _run_id first_run) (_read_day after.2)
     = filter (λ e, run_id e ≠ _run_id first_run)
         (_read_day (start first_run {| day_file := None; other_files := [] |}))
     ∧ _entry after.1 ∈ _read_day after.2
     ∧ length (_read_day after.2)
       = (if bool_decide
               (_run_id first_run
                ∈ run_id <$> _read_day
                    (start first_run {| day_file := None; other_files := [] |}))
          then length (_read_day
                 (start first_run {| day_file := None; other_files := [] |}))
          else S (length (_read_day
                 (start first_run {| day_file := None; other_files := [] |}))))
     ∧ other_files after.2
       = other_files (start first_run {| day_file := None; other_files := [] |})
     ∧ status (_entry after.1) = "success"%string
     ∧ warnings (_entry after.1) = _warnings first_run).
Proof.
  split; [reflexivity|].
  apply (finish_updates_own_entry first_run 60 "success" 2 2 true None
           (start first_run {| day_file := None; other_files := [] |})).
  reflexivity.
Defined.

End RunLogProperties.

(** ** src/utils.py and run_pipeline.py: the step timeout of [main] *)
Section StepTimeoutProperties.
Import Config Utils RunLog.

(** X16. The step timeout of [main]: a [step_timeout_seconds] that is not
    positive starts no watcher at all; a positive one starts a watcher that
    does nothing when the step ends before the deadline, sends the soft
    kill to the main thread when the step is still running at the deadline,
    and exits the process only when the step is still running
    [GRACE_SECONDS] after that. *)
Theorem main_step_timeout_escalation (config : PipelineConfig)
    (thread entered_at lag : Z) (done_at : option Z) :
  guarded_step (step_timeout config) thread entered_at lag done_at
  = if step_timeout_seconds config <=? 0 then (false, [])
    else
      let deadline := entered_at + lag + step_timeout_seconds config in
      (true,
       match done_at with
       | Some t =>
           if t <? deadline then []
           else if t <? deadline + GRACE_SECONDS then [SoftKill thread]
           else [SoftKill thread; HardKill]
       | None => [SoftKill thread; HardKill]
       end).
Proof.
  unfold guarded_step, step_timeout, __enter__, Utils.__init__, truthy.
  destruct (Z.leb_spec (step_timeout_seconds config) 0) as [Hle|Hlt].
  - destruct (Z.ltb_spec 0 (step_timeout_seconds config)); [lia|]. done.
  - destruct (Z.ltb_spec 0 (step_timeout_seconds config)); [|lia].
    cbn [_timeout]. destruct (Z.eqb_spec (step_timeout_seconds config) 0);
      [lia|].
    cbn [negb _watcher]. unfold _watchdog. cbn [_timeout _main_thread_id].
    destruct (Z.eqb_spec (step_timeout_seconds config) 0); [lia|].
    unfold wait. cbn zeta. destruct done_at as [t|]; [|by cbn].
    destruct (Z.ltb_spec t (entered_at + lag + step_timeout_seconds config));
      [done|].
    destruct (Z.ltb_spec t
      (entered_at + lag + step_timeout_seconds config + GRACE_SECONDS));
      by cbn.
Qed.

End StepTimeoutProperties.

(** ** src/utils.py: what [clean_history] leaves *)
Section CleanupProperties.
Import Cleanup.

(** X17. [clean_history] drops the three raw tables, [fct_sessions],
    [dim_users] and [dim_mentors], and leaves [fct_bookings] as it is;
    cleaning twice is cleaning once. On the cleaned warehouse the checks
    cannot run ([run_checks] raises), and the next ingestion loads every
    row of its sources as new, exactly as on an empty warehouse. *)
Theorem clean_history_leaves_bookings (w : warehouse_file)
    (config : option Config.PipelineConfig) (pl : Ingest.polars)
    (users : Ingest.source Ingest.csv_user)
    (mentors : Ingest.source Ingest.csv_mentor)
    (events : Ingest.source Ingest.json_event) :
  clean_history w
  = {| raw := {| Ingest.raw_users := None; Ingest.raw_mentors := None;
                 Ingest.raw_events := None |};
       marts := {| Validate.fct_sessions := None;
                   Validate.fct_bookings := Validate.fct_bookings (marts w);
                   Validate.dim_mentors := None |};
       dim_users := None |}
  ∧ clean_history (clean_history w) = clean_history w
  ∧ Validate.run_checks (Validate.duckdb (marts (clean_history w))) config
    = inl Validate.DatabaseError
  ∧ IngestRun.main pl users mentors events (raw (clean_history w))
    = IngestRun.main pl users mentors events
        {| Ingest.raw_users := None; Ingest.raw_mentors := None;
           Ingest.raw_events := None |}.
Proof.
  assert (clean_history w
    = {| raw := {| Ingest.raw_users := None; Ingest.raw_mentors := None;
                   Ingest.raw_events := None |};
         marts := {| Validate.fct_sessions := None;
                     Validate.fct_bookings := Validate.fct_bookings (marts w);
                     Validate.dim_mentors := None |};
         dim_users := None |}) as Hclean by reflexivity.
  split; [done|]. split; [by rewrite Hclean|].
  rewrite Hclean. split; [|done]. reflexivity.
Qed.

End CleanupProperties.

(** ** src/ingest.py: the staged frames and the primary keys of the raw layer *)
Section IngestFrames.
Import Ingest.
Context (pl : polars).

(** [unique(keep="first", maintain_order=True)]: a row is kept exactly when
    its key was not seen before and it is the first row with that key. *)
Lemma elem_of_unique_keep_first {R K : Type} `{EqDecision K} (pk : R → K)
    (seen : list K) (df : list R) (x : R) :
  x ∈ unique_keep_first pk seen df ↔
  (pk x ∉ seen) ∧ head (filter (λ y, pk y = pk x) df) = Some x.
Proof.
  revert seen. induction df as [|r df IH]; intros seen;
    cbn [unique_keep_first].
  - rewrite elem_of_nil. cbn. naive_solver.
  - rewrite filter_cons. destruct (decide (pk r ∈ seen)) as [Hseen|Hnew].
    + rewrite IH. destruct (decide (pk r = pk x)) as [Heq|Hne]; [|done].
      split; intros [Hx _]; destruct Hx; by rewrite <- Heq.
    + rewrite elem_of_cons, IH, not_elem_of_cons.
      destruct (decide (pk r = pk x)) as [Heq|Hne]; cbn [head].
      * split.
        -- intros [->|[[Hx _] _]]; [done|by destruct Hx].
        -- intros [_ [= ->]]. by left.
      * split.
        -- intros [->|[[_ Hx] Hh]]; [done|done].
        -- intros [Hx Hh]. right. split; [split|]; [congruence|done|done].
Qed.

Lemma unique_keep_first_NoDup {R K : Type} `{EqDecision K} (pk : R → K)
    (seen : list K) (df : list R) :
  NoDup (pk <$> unique_keep_first pk seen df)
  ∧ ∀ x, x ∈ unique_keep_first pk seen df → pk x ∉ seen.
Proof.
  revert seen. induction df as [|r df IH]; intros seen;
    cbn [unique_keep_first].
  - split; [constructor|]. intros x Hx. by apply elem_of_nil in Hx.
  - destruct (decide (pk r ∈ seen)) as [Hseen|Hnew]; [apply IH|].
    destruct (IH (pk r :: seen)) as [Hnd Hfresh]. split.
    + rewrite fmap_cons. apply NoDup_cons. split; [|done].
      intros (x & Heq & Hx)%list_elem_of_fmap.
      apply Hfresh in Hx. apply Hx. rewrite Heq. left.
    + intros x [->|Hx]%elem_of_cons; [done|].
      apply Hfresh in Hx. by apply not_elem_of_cons in Hx as [_ ?].
Qed.

Lemma unique_keep_first_id {R K : Type} `{EqDecision K} (pk : R → K)
    (seen : list K) (df : list R) :
  NoDup (pk <$> df) → (∀ x, x ∈ df → pk x ∉ seen) →
  unique_keep_first pk seen df = df.
Proof.
  revert seen. induction df as [|r df IH]; intros seen Hnd Hfresh;
    cbn [unique_keep_first]; [done|].
  rewrite fmap_cons in Hnd. apply NoDup_cons in Hnd as [Hr Hnd].
  rewrite decide_False by (apply Hfresh; left). f_equal.
  apply IH; [done|]. intros x Hx. apply not_elem_of_cons. split.
  - intros Heq. apply Hr. rewrite <- Heq. by apply list_elem_of_fmap_2.
  - apply Hfresh. by right.
Qed.

(** The parsed rows of the users export, before deduplication. *)
Definition parsed_users (src : source csv_user) : list (Z * csv_user) :=
  omap (λ r, id ← cast_int64 pl (cu_user_id r); Some (id, r)) (rows src).

Lemma head_parsed_users (src : source csv_user) (id : Z) :
  head (filter (λ p : Z * csv_user, p.1 = id) (parsed_users src))
  = (λ r, (id, r))
    <$> head (filter (λ r, cast_int64 pl (cu_user_id r) = Some id) (rows src)).
Proof.
  unfold parsed_users. induction (rows src) as [|r rs IH]; [done|].
  cbn [omap list_omap]. rewrite filter_cons.
  destruct (cast_int64 pl (cu_user_id r)) as [id'|] eqn:Hcast;
    cbn [mbind option_bind].
  - rewrite filter_cons. cbn [fst].
    destruct (decide (id' = id)) as [->|Hne].
    + by rewrite decide_True.
    + rewrite decide_False by congruence. apply IH.
  - rewrite decide_False by done. apply IH.
Qed.

Lemma users_frame_NoDup (users : source csv_user) :
  NoDup (user_id <$> users_frame pl users).
Proof.
  unfold users_frame. fold (parsed_users users).
  rewrite <- list_fmap_compose.
  rewrite (fmap_ext_in _ fst); [|by intros [id r] _].
  apply unique_keep_first_NoDup.
Qed.

Lemma elem_of_users_frame (users : source csv_user) (u : raw_user) :
  u ∈ users_frame pl users ↔
  ∃ r, head (filter (λ r, cast_int64 pl (cu_user_id r) = Some (user_id u))
               (rows users)) = Some r
       ∧ u = {| user_id := user_id u;
                company_id := cu_company_id r;
                signup_date := to_datetime pl (cu_signup_date r);
                status := to_lowercase pl (strip_chars pl (cu_status r)) |}.
Proof.
  unfold users_frame. fold (parsed_users users).
  rewrite list_elem_of_fmap. split.
  - intros ([id r] & -> & Hin). cbn [user_id].
    apply elem_of_unique_keep_first in Hin as [_ Hhead]. cbn [fst] in Hhead.
    rewrite head_parsed_users in Hhead.
    destruct (head _) as [r'|] eqn:Hr'; [|done].
    injection Hhead as <-. by exists r'.
  - intros (r & Hhead & Hu). exists (user_id u, r). split; [done|].
    apply elem_of_unique_keep_first. split; [apply not_elem_of_nil|].
    cbn [fst]. by rewrite head_parsed_users, Hhead.
Qed.

Lemma events_frame_NoDup (events : source json_event) :
  NoDup (event_id <$> events_frame pl events).
Proof.
  unfold events_frame.
  set (df := omap _ (rows events)).
  assert (NoDup ((λ r : Z * json_event, je_event_id r.2)
                 <$> (if bool_decide (NoDup ((λ r : Z * json_event,
                                                je_event_id r.2) <$> df))
                      then df
                      else unique_keep_first
                             (λ r : Z * json_event, je_event_id r.2) [] df)))
    as Hnd.
  { case_bool_decide; [done|]. apply unique_keep_first_NoDup. }
  rewrite <- list_fmap_compose.
  erewrite fmap_ext_in; [exact Hnd|]. by intros [id e] _.
Qed.

Lemma head_filter_Some {A} (P : A → Prop) `{!∀ x, Decision (P x)}
    (l : list A) (x : A) :
  head (filter P l) = Some x → P x ∧ x ∈ l.
Proof.
  intros Hhead.
  assert (x ∈ filter P l) as Hin.
  { destruct (filter P l) as [|y l']; [done|].
    injection Hhead as ->. left. }
  by apply list_elem_of_filter in Hin.
Qed.

Lemma head_filter_is_Some {A} (P : A → Prop) `{!∀ x, Decision (P x)}
    (l : list A) (x : A) :
  x ∈ l → P x → is_Some (head (filter P l)).
Proof.
  intros Hin HP.
  assert (x ∈ filter P l) as Hf by (by apply list_elem_of_filter).
  destruct (filter P l); [by apply elem_of_nil in Hf|by eexists].
Qed.

(** The parsed events, before deduplication. *)
Definition parsed_events (src : source json_event) : list (Z * json_event) :=
  omap (λ e, id ← cast_int64 pl (je_user_id e); Some (id, e)) (rows src).

Lemma head_parsed_events (src : source json_event) (k : string) :
  head (filter (λ p : Z * json_event, je_event_id p.2 = k) (parsed_events src))
  = e ← head (filter (λ e, je_event_id e = k
                           ∧ is_Some (cast_int64 pl (je_user_id e)))
                (rows src));
    id ← cast_int64 pl (je_user_id e); Some (id, e).
Proof.
  unfold parsed_events. induction (rows src) as [|e es IH]; [done|].
  cbn [omap list_omap]. rewrite (filter_cons (λ e, _ ∧ _)).
  destruct (cast_int64 pl (je_user_id e)) as [id|] eqn:Hcast;
    cbn [mbind option_bind].
  - rewrite filter_cons. cbn [snd].
    destruct (decide (je_event_id e = k)) as [Hk|Hk].
    + rewrite decide_True by (split; [done|by eexists]).
      cbn. by rewrite Hcast.
    + rewrite decide_False by (by intros [? _]). apply IH.
  - rewrite decide_False by (intros [_ [? ?]]; done). apply IH.
Qed.

Lemma events_frame_unique (events : source json_event) :
  events_frame pl events
  = (λ '(id, e),
       {| event_id := je_event_id e;
          event_type := to_lowercase pl (strip_chars pl (je_event_type e));
          ev_user_id := id;
          ev_mentor_id := strip_chars pl (je_mentor_id e);
          timestamp := to_datetime pl (je_timestamp e) |})
    <$> unique_keep_first (λ r : Z * json_event, je_event_id r.2) []
          (parsed_events events).
Proof.
  unfold events_frame. fold (parsed_events events).
  case_bool_decide as Hnd; [|done].
  rewrite unique_keep_first_id; [done|done|].
  intros x _. apply not_elem_of_nil.
Qed.

Lemma elem_of_events_frame (events : source json_event) (ev : raw_event) :
  ev ∈ events_frame pl events ↔
  ∃ e id,
    head (filter (λ e, je_event_id e = event_id ev
                       ∧ is_Some (cast_int64 pl (je_user_id e)))
            (rows events)) = Some e
    ∧ cast_int64 pl (je_user_id e) = Some id
    ∧ ev = {| event_id := je_event_id e;
              event_type := to_lowercase pl (strip_chars pl (je_event_type e));
              ev_user_id := id;
              ev_mentor_id := strip_chars pl (je_mentor_id e);
              timestamp := to_datetime pl (je_timestamp e) |}.
Proof.
  rewrite events_frame_unique, list_elem_of_fmap. split.
  - intros ([id e] & -> & Hin). cbn [event_id].
    apply elem_of_unique_keep_first in Hin as [_ Hhead]. cbn [snd] in Hhead.
    rewrite head_parsed_events in Hhead.
    destruct (head _) as [e'|] eqn:He'; [|done]. cbn in Hhead.
    destruct (cast_int64 pl (je_user_id e')) as [id'|] eqn:Hcast; [|done].
    injection Hhead as <- <-. by exists e', id'.
  - intros (e & id & Hhead & Hcast & ->). cbn [event_id] in Hhead.
    exists (id, e). split; [done|].
    apply elem_of_unique_keep_first. split; [apply not_elem_of_nil|].
    cbn [snd]. rewrite head_parsed_events, Hhead. cbn. by rewrite Hcast.
Qed.

Lemma users_frame_covers (users : source csv_user) (r : csv_user) (id : Z) :
  r ∈ rows users → cast_int64 pl (cu_user_id r) = Some id →
  id ∈ user_id <$> users_frame pl users.
Proof.
  intros Hr Hcast.
  destruct (head_filter_is_Some
              (λ r, cast_int64 pl (cu_user_id r) = Some id) _ r Hr Hcast)
    as [r' Hhead].
  apply list_elem_of_fmap.
  exists {| user_id := id; company_id := cu_company_id r';
            signup_date := to_datetime pl (cu_signup_date r');
            status := to_lowercase pl (strip_chars pl (cu_status r')) |}.
  split; [done|]. apply elem_of_users_frame. by exists r'.
Qed.

Lemma events_frame_covers (events : source json_event) (e : json_event) :
  e ∈ rows events → is_Some (cast_int64 pl (je_user_id e)) →
  je_event_id e ∈ event_id <$> events_frame pl events.
Proof.
  intros He Hcast.
  destruct (head_filter_is_Some
              (λ e', je_event_id e' = je_event_id e
                     ∧ is_Some (cast_int64 pl (je_user_id e'))) _ e He)
    as [e' Hhead]; [done|].
  apply head_filter_Some in Hhead as Hkey.
  destruct Hkey as [[Hk [id Hid]] _].
  apply list_elem_of_fmap.
  exists {| event_id := je_event_id e';
            event_type := to_lowercase pl (strip_chars pl (je_event_type e'));
            ev_user_id := id;
            ev_mentor_id := strip_chars pl (je_mentor_id e');
            timestamp := to_datetime pl (je_timestamp e') |}.
  split; [done|]. apply elem_of_events_frame. exists e', id.
  cbn [event_id]. rewrite Hk. done.
Qed.

(** X18. The frame staged from the users export has exactly one row for
    every user id that a source row parses to, built from the first source
    row with that id: later rows with the id, and rows whose id does not
    parse, are dropped. The frame staged from the events has exactly one
    row for every event id of a source row whose user id parses, built from
    the first such source row with that event id: rows whose user id does
    not parse are dropped before the duplicates are. *)
Theorem staged_frames_keep_first_row (users : source csv_user)
    (events : source json_event) :
  NoDup (user_id <$> users_frame pl users)
  ∧ (∀ u, u ∈ users_frame pl users ↔
       ∃ r, head (filter (λ r, cast_int64 pl (cu_user_id r) = Some (user_id u))
                    (rows users)) = Some r
            ∧ u = {| user_id := user_id u;
                     company_id := cu_company_id r;
                     signup_date := to_datetime pl (cu_signup_date r);
                     status := to_lowercase pl (strip_chars pl (cu_status r)) |})
  ∧ (∀ r id, r ∈ rows users → cast_int64 pl (cu_user_id r) = Some id →
       id ∈ user_id <$> users_frame pl users)
  ∧ NoDup (event_id <$> events_frame pl events)
  ∧ (∀ ev, ev ∈ events_frame pl events ↔
       ∃ e id,
         head (filter (λ e, je_event_id e = event_id ev
                            ∧ is_Some (cast_int64 pl (je_user_id e)))
                 (rows events)) = Some e
         ∧ cast_int64 pl (je_user_id e) = Some id
         ∧ ev = {| event_id := je_event_id e;
                   event_type :=
                     to_lowercase pl (strip_chars pl (je_event_type e));
                   ev_user_id := id;
                   ev_mentor_id := strip_chars pl (je_mentor_id e);
                   timestamp := to_datetime pl (je_timestamp e) |})
  ∧ (∀ e, e ∈ rows events → is_Some (cast_int64 pl (je_user_id e)) →
       je_event_id e ∈ event_id <$> events_frame pl events).
Proof.
  split; [apply users_frame_NoDup|].
  split; [apply elem_of_users_frame|].
  split; [apply users_frame_covers|].
  split; [apply events_frame_NoDup|].
  split; [apply elem_of_events_frame|apply events_frame_covers].
Qed.

Lemma incremental_insert_NoDup {R K : Type} `{EqDecision K} (pk : R → K)
    (table df : list R) :
  NoDup (pk <$> table) → NoDup (pk <$> df) →
  NoDup (pk <$> (_incremental_insert pk table df).1).
Proof.
  intros Ht Hdf. rewrite incremental_insert_spec. cbn [fst].
  rewrite fmap_app. apply NoDup_app. split; [done|]. split.
  - intros k Hk (s & -> & Hs)%list_elem_of_fmap.
    by apply list_elem_of_filter in Hs as [Hs _].
  - induction df as [|s df IH]; [constructor|].
    rewrite fmap_cons in Hdf. apply NoDup_cons in Hdf as [Hs Hdf].
    rewrite filter_cons. destruct (decide _); [|by apply IH].
    rewrite fmap_cons. apply NoDup_cons. split; [|by apply IH].
    intros (s' & Heq & Hs')%list_elem_of_fmap.
    apply list_elem_of_filter in Hs' as [_ Hs'].
    apply Hs. rewrite Heq. by apply list_elem_of_fmap_2.
Qed.

(** The primary keys of the raw layer: no [user_id] twice in [raw_users],
    no [event_id] twice in [raw_events]. *)
Definition primary_keys (con : warehouse) : Prop :=
  (∀ table, raw_users con = Some table → NoDup (user_id <$> table))
  ∧ (∀ table, raw_events con = Some table → NoDup (event_id <$> table)).

Lemma ingest_users_tables (users : source csv_user) (con con1 : warehouse) n :
  ingest_users pl users con = inr (con1, n) →
  raw_mentors con1 = raw_mentors con
  ∧ raw_events con1 = raw_events con
  ∧ ∃ added,
      raw_users con1 = Some (default [] (raw_users con) ++ added)
      ∧ n = Z.of_nat (length added)
      ∧ ((∀ table, raw_users con = Some table → NoDup (user_id <$> table)) →
         NoDup (user_id <$> default [] (raw_users con) ++ added)).
Proof.
  unfold ingest_users. destruct (issues users); [|discriminate].
  destruct (raw_users con) as [table|] eqn:Hu.
  - pose proof (incremental_insert_NoDup user_id table (users_frame pl users))
      as Hnd.
    rewrite incremental_insert_spec in *. cbn [fst] in Hnd.
    intros [= <- <-]. cbn. split_and!; try done.
    eexists. split_and!; try done.
    intros Ht. apply Hnd; [by apply Ht|]. apply users_frame_NoDup.
  - intros [= <- <-]. cbn. split_and!; try done.
    eexists. split_and!; try done. intros _. apply users_frame_NoDup.
Qed.

Lemma ingest_events_tables (events : source json_event)
    (con con1 : warehouse) n :
  ingest_events pl events con = inr (con1, n) →
  raw_users con1 = raw_users con
  ∧ raw_mentors con1 = raw_mentors con
  ∧ ∃ added,
      raw_events con1 = Some (default [] (raw_events con) ++ added)
      ∧ n = Z.of_nat (length added)
      ∧ ((∀ table, raw_events con = Some table → NoDup (event_id <$> table)) →
         NoDup (event_id <$> default [] (raw_events con) ++ added)).
Proof.
  unfold ingest_events. destruct (issues events); [|discriminate].
  destruct (raw_events con) as [table|] eqn:Hu.
  - pose proof (incremental_insert_NoDup event_id table
                  (events_frame pl events)) as Hnd.
    rewrite incremental_insert_spec in *. cbn [fst] in Hnd.
    intros [= <- <-]. cbn. split_and!; try done.
    eexists. split_and!; try done.
    intros Ht. apply Hnd; [by apply Ht|]. apply events_frame_NoDup.
  - intros [= <- <-]. cbn. split_and!; try done.
    eexists. split_and!; try done. intros _. apply events_frame_NoDup.
Qed.

Lemma ingest_mentors_tables (mentors : source csv_mentor)
    (con con1 : warehouse) :
  ingest_mentors pl mentors con = inr con1 →
  raw_users con1 = raw_users con ∧ raw_events con1 = raw_events con.
Proof.
  unfold ingest_mentors. destruct (issues mentors); [|discriminate].
  destruct (0 <? _); [discriminate|]. by intros [= <-].
Qed.

Lemma ingest_users_settled (users : source csv_user) (con con1 con2 : warehouse) n :
  ingest_users pl users con = inr (con1, n) →
  raw_users con2 = raw_users con1 →
  ingest_users pl users con2 = inr (con2, 0).
Proof.
  intros Hrun Heq.
  pose proof (ingest_users_again pl users con con1 n Hrun) as Hagain.
  revert Hagain. unfold ingest_users. rewrite Heq.
  destruct (issues users); [|discriminate].
  destruct (raw_users con1) as [table|] eqn:Ht.
  - destruct (_incremental_insert user_id table (users_frame pl users))
      as [table' new_rows].
    intros [= Hc ->]. f_equal. f_equal.
    destruct con2, con1. cbn in *. congruence.
  - revert Hrun. unfold ingest_users. destruct (issues users); [|discriminate].
    destruct (raw_users con) as [table|].
    + destruct (_incremental_insert _ _ _). intros [= <- <-]. discriminate.
    + intros [= <- <-]. discriminate.
Qed.

Lemma ingest_mentors_settled (mentors : source csv_mentor)
    (con con1 con2 : warehouse) :
  ingest_mentors pl mentors con = inr con1 →
  raw_mentors con2 = raw_mentors con1 →
  ingest_mentors pl mentors con2 = inr con2.
Proof.
  unfold ingest_mentors. destruct (issues mentors); [|discriminate].
  destruct (0 <? _); [discriminate|].
  intros [= <-]. cbn [raw_mentors]. intros <-. by destruct con2.
Qed.

(** Old rows are kept, in place, under new rows. *)
Definition extended {R : Type} (old new : option (list R)) : Prop :=
  ∃ added, new = Some (default [] old ++ added).

(** X19. A run of the ingestion never breaks the primary keys of the raw
    layer: when no [user_id] occurs twice in [raw_users] and no [event_id]
    twice in [raw_events] before [main], the same holds after it, whether
    it returns or raises. *)
Theorem ingest_main_keeps_primary_keys (users : source csv_user)
    (mentors : source csv_mentor) (events : source json_event)
    (con : warehouse) :
  primary_keys con →
  primary_keys (IngestRun.main pl users mentors events con).1.
Proof.
  intros [Hu He]. unfold IngestRun.main.
  destruct (ingest_users pl users con) as [e|[con1 nu]] eqn:H1; [done|].
  destruct (ingest_users_tables _ _ _ _ H1)
    as (Hm1 & He1 & added & Hu1 & _ & Hnd1).
  assert (primary_keys con1) as Hpk1.
  { split.
    - intros table. rewrite Hu1. intros [= <-]. by apply Hnd1.
    - rewrite He1. apply He. }
  destruct (ingest_mentors pl mentors con1) as [e|con2] eqn:H2; [done|].
  destruct (ingest_mentors_tables _ _ _ H2) as [Hu2 He2].
  assert (primary_keys con2) as Hpk2.
  { destruct Hpk1. split; [by rewrite Hu2|by rewrite He2]. }
  destruct (ingest_events pl events con2) as [e|[con3 ne]] eqn:H3; [done|].
  destruct (ingest_events_tables _ _ _ _ H3)
    as (Hu3 & _ & added' & He3 & _ & Hnd3).
  destruct Hpk2 as [Hpu Hpe]. split.
  - cbn [fst]. by rewrite Hu3.
  - cbn [fst]. intros table. rewrite He3. intros [= <-]. by apply Hnd3.
Qed.

(** X20. The ingestion only appends to [raw_users] and [raw_events]: the
    rows already there stay, in their order, whether [main] returns or
    raises; and when it returns, the counts it reports are the numbers of
    rows appended to the two tables. *)
Theorem ingest_main_only_appends (users : source csv_user)
    (mentors : source csv_mentor) (events : source json_event)
    (con : warehouse) :
  (∀ table, raw_users con = Some table →
     extended (raw_users con)
       (raw_users (IngestRun.main pl users mentors events con).1))
  ∧ (∀ table, raw_events con = Some table →
     extended (raw_events con)
       (raw_events (IngestRun.main pl users mentors events con).1))
  ∧ match (IngestRun.main pl users mentors events con).2 with
    | inl _ => True
    | inr (new_users, new_events) =>
        ∃ added_users added_events,
          raw_users (IngestRun.main pl users mentors events con).1
          = Some (default [] (raw_users con) ++ added_users)
          ∧ raw_events (IngestRun.main pl users mentors events con).1
            = Some (default [] (raw_events con) ++ added_events)
          ∧ new_users = Z.of_nat (length added_users)
          ∧ new_events = Z.of_nat (length added_events)
    end.
Proof.
  assert (∀ R (t : list R), extended (Some t) (Some t)) as Hrefl.
  { intros R t. exists []. by rewrite app_nil_r. }
  unfold IngestRun.main.
  destruct (ingest_users pl users con) as [e|[con1 nu]] eqn:H1.
  { cbn. split_and!; try done; intros t ->; apply Hrefl. }
  destruct (ingest_users_tables _ _ _ _ H1)
    as (Hm1 & He1 & added & Hu1 & Hn1 & _).
  destruct (ingest_mentors pl mentors con1) as [e|con2] eqn:H2.
  { cbn. split_and!; try done.
    - intros t Ht. by exists added.
    - intros t Ht. rewrite He1, Ht. apply Hrefl. }
  destruct (ingest_mentors_tables _ _ _ H2) as [Hu2 He2].
  destruct (ingest_events pl events con2) as [e|[con3 ne]] eqn:H3.
  { cbn. split_and!; try done.
    - intros t Ht. exists added. by rewrite Hu2.
    - intros t Ht. rewrite He2, He1, Ht. apply Hrefl. }
  destruct (ingest_events_tables _ _ _ _ H3)
    as (Hu3 & _ & added' & He3 & Hn3 & _).
  cbn. rewrite Hu3, Hu2, He3, He2, He1. split_and!.
  - intros t Ht. by exists added.
  - intros t Ht. by exists added'.
  - by exists added, added'.
Qed.

(** X21. Running the ingestion again on the same sources changes
    nothing: after a run of [main] that returned, a second run returns
    zero new users and zero new events and leaves the three raw tables as
    they are. *)
Theorem ingest_main_again (users : source csv_user)
    (mentors : source csv_mentor) (events : source json_event)
    (con con1 : warehouse) (new_users new_events : Z) :
  IngestRun.main pl users mentors events con
  = (con1, inr (new_users, new_events)) →
  IngestRun.main pl users mentors events con1 = (con1, inr (0, 0)).
Proof.
  unfold IngestRun.main.
  destruct (ingest_users pl users con) as [e|[c1 nu]] eqn:H1; [done|].
  destruct (ingest_mentors pl mentors c1) as [e|c2] eqn:H2; [done|].
  destruct (ingest_events pl events c2) as [e|[c3 ne]] eqn:H3; [done|].
  intros [= <- <- <-].
  destruct (ingest_mentors_tables _ _ _ H2) as [Hu2 He2].
  destruct (ingest_events_tables _ _ _ _ H3) as (Hu3 & Hm3 & _).
  rewrite (ingest_users_settled users con c1 c3 nu H1)
    by (by rewrite Hu3, Hu2).
  rewrite (ingest_mentors_settled mentors c1 c2 c3 H2) by done.
  by rewrite (ingest_events_again pl events c2 c3 ne H3).
Qed.

(** X25. Mentors are loaded all or nothing: [ingest_mentors] returns
    exactly when the pre-flight found no issue and every source row has a
    tier, and then [raw_mentors] holds one row per source row, whatever it
    held before, while the other two tables are untouched; a failed
    pre-flight raises with its first issue, and rows without a tier raise
    with their number. In both cases nothing is written. *)
Theorem ingest_mentors_all_or_nothing (mentors : source csv_mentor)
    (con : warehouse) :
  match ingest_mentors pl mentors con with
  | inr con1 =>
      issues mentors = []
      ∧ (∀ r, r ∈ rows mentors → is_Some (cm_tier r))
      ∧ raw_users con1 = raw_users con
      ∧ raw_events con1 = raw_events con
      ∧ raw_mentors con1
        = Some ((λ r, {| mentor_id := strip_chars pl (cm_mentor_id r);
                         tier := default EmptyString
                                   (to_titlecase pl
                                    <$> (strip_chars pl <$> cm_tier r));
                         hourly_rate :=
                           default 0 (cast_int64 pl (cm_hourly_rate r)) |})
                <$> rows mentors)
  | inl (PreflightFailed file first_issue) =>
      file = "mentor_tiers.csv"%string
      ∧ head (issues mentors) = Some first_issue
  | inl (NullTiers null_tiers) =>
      issues mentors = []
      ∧ 0 < null_tiers
      ∧ null_tiers
        = Z.of_nat (length (filter (λ r, cm_tier r = None) (rows mentors)))
  end.
Proof.
  unfold ingest_mentors. destruct (issues mentors) as [|issue rest]; [|done].
  assert (filter (λ r : string * option string * Z, r.1.2 = None)
            (mentors_frame pl mentors)
          = (λ r, (strip_chars pl (cm_mentor_id r),
                   to_titlecase pl <$> (strip_chars pl <$> cm_tier r),
                   default 0 (cast_int64 pl (cm_hourly_rate r))))
            <$> filter (λ r, cm_tier r = None) (rows mentors)) as Hnull.
  { unfold mentors_frame. induction (rows mentors) as [|r rs IH]; [done|].
    rewrite fmap_cons, !filter_cons, IH. cbn [fst snd].
    destruct (cm_tier r) as [t|] eqn:Ht; cbn [fmap option_fmap option_map];
      repeat case_decide; rewrite ?fmap_cons, ?Ht; cbn;
      first [done | congruence]. }
  rewrite Hnull, length_fmap.
  destruct (Z.ltb_spec 0
    (Z.of_nat (length (filter (λ r, cm_tier r = None) (rows mentors)))))
    as [Hpos|Hzero].
  - done.
  - cbn [raw_users raw_events raw_mentors]. split_and!; try done.
    + intros r Hr. destruct (cm_tier r) as [t|] eqn:Ht; [by eexists|].
      assert (r ∈ filter (λ r, cm_tier r = None) (rows mentors)) as Hin
        by (by apply list_elem_of_filter).
      destruct (filter _ (rows mentors)); [by apply elem_of_nil in Hin|].
      cbn in Hzero. lia.
    + unfold mentors_frame. by rewrite <- list_fmap_compose.
Qed.

End IngestFrames.

(** Sources for running [main]: a mentor with spaces around its id, and
    three events of which two share their id. *)
Definition mentors_export : Ingest.source Ingest.csv_mentor := {|
  Ingest.issues := [];
  Ingest.rows := [
    {| Ingest.cm_mentor_id := " M01 "; Ingest.cm_tier := Some "Gold"%string;
       Ingest.cm_hourly_rate := "50" |}
  ]
|}.

Definition events_export : Ingest.source Ingest.json_event := {|
  Ingest.issues := [];
  Ingest.rows := [
    {| Ingest.je_event_id := "e1"; Ingest.je_event_type := "session_started";
       Ingest.je_user_id := "1"; Ingest.je_mentor_id := "M01";
       Ingest.je_timestamp := "2024-01-10T10:00:00" |};
    {| Ingest.je_event_id := "e1"; Ingest.je_event_type := "session_started";
       Ingest.je_user_id := "1"; Ingest.je_mentor_id := "M01";
       Ingest.je_timestamp := "2024-01-10T10:00:01" |};
    {| Ingest.je_event_id := "e2"; Ingest.je_event_type := "session_ended";
       Ingest.je_user_id := "1"; Ingest.je_mentor_id := "M01";
       Ingest.je_timestamp := "2024-01-10T10:30:00" |}
  ]
|}.

Lemma ingest_main_keeps_primary_keys_witness :
  primary_keys empty_warehouse
  ∧ primary_keys
      (IngestRun.main plain_polars users_export mentors_export events_export
         empty_warehouse).1.
Proof.
  assert (primary_keys empty_warehouse) as Hempty.
  { split; intros table Htable; discriminate Htable. }
  split; [exact Hempty|].
  exact (ingest_main_keeps_primary_keys plain_polars users_export
           mentors_export events_export empty_warehouse Hempty).
Defined.

Lemma ingest_main_again_witness :
  ∃ con1,
    IngestRun.main plain_polars users_export mentors_export events_export
      empty_warehouse = (con1, inr (2, 2))
    ∧ IngestRun.main plain_polars users_export mentors_export events_export
        con1 = (con1, inr (0, 0)).
Proof.
  eexists. split; [vm_compute; reflexivity|].
  refine (ingest_main_again plain_polars users_export mentors_export
            events_export empty_warehouse _ 2 2 _).
  vm_compute. reflexivity.
Defined.

(** ** The paired sessions as a table *)
Section SessionTableProperties.
Import Pairing.

Lemma group_by_start_NoDup joined :
  NoDup (p_start <$> group_by_start joined).
Proof.
  unfold group_by_start. rewrite <- list_fmap_compose.
  apply NoDup_fmap_2_strong; [|apply NoDup_remove_dups].
  intros [[[i u] m] t] [[[i' u'] m'] t'] _ _ Heq. cbn in Heq.
  by injection Heq as -> -> -> ->.
Qed.

(** X22. The pairing yields one row per distinct session start: no two
    rows of [paired] have the same start columns, a row exists for a start
    exactly when a [session_started] event has these columns, so there are
    never more rows than such events; and [_run_pairing] returns the same
    rows ordered by [started_at]. *)
Theorem paired_one_row_per_start (evs : list event) :
  NoDup (p_start <$> paired evs)
  ∧ (∀ r, r ∈ p_start <$> paired evs ↔
       ∃ S, S ∈ evs ∧ is_session_started S ∧ r = to_start_row S)
  ∧ (length (_run_pairing evs)
     ≤ length (filter (λ e, is_session_started e) evs))%nat
  ∧ _run_pairing evs ≡ₚ paired evs
  ∧ StronglySorted (λ a b, started_at (p_start a) <= started_at (p_start b))
      (_run_pairing evs).
Proof.
  assert (∀ r, r ∈ p_start <$> paired evs ↔
            ∃ S, S ∈ evs ∧ is_session_started S ∧ r = to_start_row S) as Hrows.
  { intros r. rewrite list_elem_of_fmap. split.
    - intros (p & -> & Hp).
      apply paired_row_start in Hp as (S & (HS & Hty & _) & Hstart). eauto.
    - intros (S & HS & Hty & ->).
      destruct (paired_row_exists evs S) as (p & Hp & Hstart); [done|].
      eauto. }
  split; [apply group_by_start_NoDup|]. split; [done|].
  split; [|split; [apply order_by_perm|apply order_by_sorted]].
  unfold _run_pairing. rewrite order_by_perm.
  rewrite <- (length_fmap p_start), <- (length_fmap to_start_row (filter _ evs)).
  apply submseteq_length, NoDup_submseteq; [apply group_by_start_NoDup|].
  intros r (S & HS & Hty & ->)%Hrows.
  apply list_elem_of_fmap_2, list_elem_of_filter. done.
Qed.

(** X23. Sessions of one user with one mentor never overlap: when a row
    of [paired] has an end, the end lies strictly after its start and
    strictly before the start of every later session of the same
    partition. *)
Theorem paired_sessions_do_not_overlap (evs : list event)
    (p1 p2 : paired_row) (t : Z) :
  p1 ∈ paired evs → p2 ∈ paired evs →
  row_partition (p_start p1) = row_partition (p_start p2) →
  started_at (p_start p1) < started_at (p_start p2) →
  p_ended_at p1 = Some t →
  started_at (p_start p1) < t < started_at (p_start p2).
Proof.
  intros Hp1 Hp2 Hk Hlt Hend.
  destruct (paired_row_start evs p1 Hp1) as (S1 & HS1 & Hs1).
  destruct (paired_row_start evs p2 Hp2) as (S2 & (HS2 & Hty2 & _) & Hs2).
  destruct (paired_sound evs p1 t S1 Hp1 Hend Hs1) as (_ & Hafter & Hnext & _).
  rewrite Hs1, Hs2 in *. cbn [started_at to_start_row] in *.
  split; [done|]. apply Hnext; [|done].
  split; [done|]. split; [done|].
  unfold row_partition in Hk. by rewrite !partition_key_to_start_row in Hk.
Qed.

Definition two_sessions : list event := [
  {| event_id := "s1"; event_type := "session_started";
     user_id := 7; mentor_id := " M02"; timestamp := 1000 |};
  {| event_id := "x1"; event_type := "session_ended";
     user_id := 7; mentor_id := "M02 "; timestamp := 2500 |};
  {| event_id := "s2"; event_type := "session_started";
     user_id := 7; mentor_id := "M02"; timestamp := 4000 |}
].

Definition first_session : paired_row := {|
  p_start := {| session_id := "s1"; s_user_id := 7; s_mentor_id := "M02";
                started_at := 1000 |};
  p_ended_at := Some 2500
|}.

Definition second_session : paired_row := {|
  p_start := {| session_id := "s2"; s_user_id := 7; s_mentor_id := "M02";
                started_at := 4000 |};
  p_ended_at := None
|}.

Lemma paired_sessions_do_not_overlap_witness :
  paired two_sessions = [first_session; second_session]
  ∧ started_at (p_start first_session) < 2500
    < started_at (p_start second_session).
Proof.
  assert (paired two_sessions = [first_session; second_session]) as Hpaired
    by (by vm_compute).
  split; [done|].
  apply (paired_sessions_do_not_overlap two_sessions
           first_session second_session 2500).
  - rewrite Hpaired. left.
  - rewrite Hpaired. right. left.
  - reflexivity.
  - cbn. lia.
  - reflexivity.
Defined.

End SessionTableProperties.

(** ** The built sessions against Check 1 *)
Section SessionChecks.
Import Pairing.

Lemma DATEDIFF_minute_nonneg (a b : Z) : a <= b → 0 <= DATEDIFF_minute a b.
Proof.
  intros Hle. unfold DATEDIFF_minute.
  assert (a / 60 <= b / 60) by (apply Z.div_le_mono; lia). lia.
Qed.

Lemma built_duration_nonneg (evs : list event) (s : session) :
  s ∈ _build_dim_fact_tables evs → 0 <= duration_minutes s.
Proof.
  unfold _build_dim_fact_tables, fct_sessions.
  intros (p & -> & Hp)%list_elem_of_fmap. cbn [duration_minutes].
  destruct (p_ended_at p) as [t|] eqn:Hend; cbn; [|lia].
  destruct (paired_row_start evs p Hp) as (S & _ & Hs).
  destruct (paired_sound evs p t S Hp Hend Hs) as (_ & Hafter & _).
  apply DATEDIFF_minute_nonneg. rewrite Hs. cbn. lia.
Qed.

(** X24. The sessions table built from any events holds no negative
    duration: an attributed end lies after its start and the default is
    positive. So on a warehouse whose [fct_sessions] is that table, Check 1
    of [run_checks] never fails, with or without a configuration. *)
Theorem built_sessions_pass_check1 (evs : list event)
    (db : Validate.database) (config : option Config.PipelineConfig)
    (fs ws : list Validate.message) :
  Validate.fct_sessions db
  = Some ((λ s, Some (duration_minutes s)) <$> _build_dim_fact_tables evs) →
  Validate.run_checks (Validate.duckdb db) config = inr (fs, ws) →
  (∀ s, s ∈ _build_dim_fact_tables evs → 0 <= duration_minutes s)
  ∧ ∀ n, Validate.FailCheck1 n ∉ fs.
Proof.
  intros Hdb Hrun. split; [apply built_duration_nonneg|].
  destruct (run_checks_shape _ _ _ _ Hrun)
    as (n1 & n4 & c6 & c5 & Hq1 & _ & -> & _ & Hc6 & _).
  unfold Validate.duckdb, Validate.from_table in Hq1. cbn in Hq1.
  rewrite Hdb in Hq1. injection Hq1 as Hn1.
  assert (n1 <= 0) as Hle.
  { rewrite <- Hn1. apply count_nonpos_iff.
    intros d (s & -> & Hs)%list_elem_of_fmap.
    apply built_duration_nonneg in Hs. lia. }
  destruct (Z.ltb_spec 0 n1); [lia|]. cbn [app].
  intros n Hin.
  destruct Hc6 as [->|(ms & a & _ & -> & _)].
  - by apply elem_of_nil in Hin.
  - by apply list_elem_of_singleton in Hin.
Qed.

Definition crash_db : Validate.database := {|
  Validate.fct_sessions :=
    Some ((λ s, Some (duration_minutes s))
          <$> _build_dim_fact_tables crash_events);
  Validate.fct_bookings := None;
  Validate.dim_mentors := Some [Some "Gold"%string]
|}.

Lemma built_sessions_pass_check1_witness :
  Validate.run_checks (Validate.duckdb crash_db) None = inr ([], [])
  ∧ (∀ s, s ∈ _build_dim_fact_tables crash_events → 0 <= duration_minutes s)
  ∧ ∀ n, Validate.FailCheck1 n ∉ [].
Proof.
  split; [by vm_compute|].
  apply (built_sessions_pass_check1 crash_events crash_db None [] []);
    [reflexivity|by vm_compute].
Defined.

End SessionChecks.

(** ** config.py: what [from_yaml] falls back to *)
Section ConfigYamlProperties.
Import Config ConfigYaml.

(** The document with no key: an empty config.yaml. *)
Definition no_keys : document := {|
  d_environment := None; d_default_duration_minutes := None;
  d_tiers_group_a := None; d_tiers_group_b := None; d_window_days := None;
  d_max_orphan_rate := None; d_max_duration_minutes := None;
  d_path := None; d_known_tiers := None; d_step_timeout_seconds := None
|}.

(** X26. [from_yaml] gives the dataclass defaults when PyYAML is missing
    or the file is not found. With a file, a missing key falls back to the
    dataclass default for every field but [db_path]: without
    [database.path] the path follows the environment, so it is the
    dataclass default "warehouse.duckdb" exactly when the environment is
    neither "dev", which is also the fallback, nor "staging". An empty
    config.yaml therefore loads a valid configuration that differs from
    [PipelineConfig()] in [db_path]. *)
Theorem from_yaml_fallbacks :
  (∀ file, from_yaml false file = default_config)
  ∧ from_yaml true None = default_config
  ∧ (∀ data,
       d_path data = None →
       (db_path (from_yaml true (Some data)) = db_path default_config ↔
        default "dev"%string (d_environment data) ≠ "dev"%string
        ∧ default "dev"%string (d_environment data) ≠ "staging"%string))
  ∧ (∀ data p,
       d_path data = Some p → db_path (from_yaml true (Some data)) = p)
  ∧ from_yaml true (Some no_keys)
    = {| default_session_duration_minutes :=
           default_session_duration_minutes default_config;
         tiers_group_a := tiers_group_a default_config;
         tiers_group_b := tiers_group_b default_config;
         rebooking_window_days := rebooking_window_days default_config;
         dq_max_orphan_rate := dq_max_orphan_rate default_config;
         dq_max_duration_minutes := dq_max_duration_minutes default_config;
         environment := environment default_config;
         db_path := "warehouse_dev.duckdb";
         known_tiers := known_tiers default_config;
         step_timeout_seconds := step_timeout_seconds default_config |}
  ∧ from_yaml true (Some no_keys) ≠ default_config
  ∧ validate (from_yaml true (Some no_keys)) = inr ().
Proof.
  split; [done|]. split; [done|]. split; [|split; [|split; [|split]]].
  - intros data Hpath. unfold from_yaml. cbn [negb db_path]. rewrite Hpath.
    cbn [default from_option id]. unfold _env_paths.
    set (env := from_option id "dev"%string (d_environment data)).
    destruct (String.eqb_spec env "dev") as [->|Hdev].
    { cbn. split; [discriminate|]. by intros [? _]. }
    destruct (String.eqb_spec env "staging") as [->|Hstaging].
    { cbn. split; [discriminate|]. by intros [_ ?]. }
    destruct (String.eqb_spec env "prod"); by cbn.
  - intros data p Hpath. unfold from_yaml. cbn [negb db_path].
    by rewrite Hpath.
  - reflexivity.
  - discriminate.
  - by vm_compute.
Qed.

End ConfigYamlProperties.
